(** * NovaNet: a shallow embedding of the tab manager, the cookie manager,
      the connection retry logic and the HTTP server, with their properties.

    Sources embedded here:
    - [src/public/index.js] and the extended client script (the one that adds
      [CookieManager] and the retry logic): [TabManager], [CookieManager],
      [navigateToUrl];
    - [src/src/index.js]: the server factory and the [/ads/proxy] route.

    Conventions.
    - A JavaScript string is a sequence of UTF-16 code units.  It is modelled
      by [string]; each [ascii] stands for one code unit below 256, so the
      development covers text in that range.
    - A JavaScript [Map] is an association list in insertion order ([JsMap]).
    - [undefined] and [null] results are [None]; a thrown exception is an
      explicit [Throw] outcome.
    - Platform functions (the URL parser, [fetch], [Date] parsing, the
      location of a frame) are parameters of the functions that call them.
    - An [async] function runs to its first [await] and goes on later:
      [EventLoop] keeps the calls of [navigateToUrl] that wait, and lets
      other handlers run before they go on. *)

From Stdlib Require Import String Ascii List ZArith Lia Bool Arith.
From Stdlib Require Import DecimalString DecimalNat.
Import ListNotations.
Open Scope string_scope.

(* ================================================================== *)
(** * Part I: the embedding *)
(* ================================================================== *)

(** ** Text: the string methods the code calls *)

Module Text.

(** [s.startsWith(p)] *)
Fixpoint startsWith (s p : string) {struct p} : bool :=
  match p, s with
  | EmptyString, _ => true
  | String a p', String b s' => Ascii.eqb a b && startsWith s' p'
  | String _ _, EmptyString => false
  end.

(** [s.endsWith(p)]: some suffix of [s] is [p]. *)
Fixpoint endsWith (s p : string) : bool :=
  String.eqb s p ||
  match s with
  | EmptyString => false
  | String _ s' => endsWith s' p
  end.

(** [s.includes(p)]: some suffix of [s] starts with [p]. *)
Fixpoint includes (s p : string) : bool :=
  startsWith s p ||
  match s with
  | EmptyString => false
  | String _ s' => includes s' p
  end.

Definition code (c : ascii) : nat := nat_of_ascii c.

Definition in_range (lo hi : nat) (c : ascii) : bool :=
  Nat.leb lo (code c) && Nat.leb (code c) hi.

Definition is_upper (c : ascii) : bool := in_range 65 90 c.
Definition is_lower (c : ascii) : bool := in_range 97 122 c.
Definition is_digit (c : ascii) : bool := in_range 48 57 c.

(** [toLowerCase] on one code unit below 256: A-Z, and the Latin-1 capitals
    U+00C0..U+00DE except the multiplication sign U+00D7. *)
Definition lower (c : ascii) : ascii :=
  if is_upper c || (in_range 192 222 c && negb (Nat.eqb (code c) 215))
  then ascii_of_nat (code c + 32) else c.

Fixpoint toLowerCase (s : string) : string :=
  match s with
  | EmptyString => EmptyString
  | String c s' => String (lower c) (toLowerCase s')
  end.

(** Decimal text of a non-negative integer, as a template literal prints it. *)
Definition decimal (n : nat) : string := NilEmpty.string_of_uint (Nat.to_uint n).

(** [o || d] for a string-or-undefined [o]. *)
Definition or_default (o : option string) (d : string) : string :=
  match o with
  | Some s => if String.eqb s "" then d else s
  | None => d
  end.

End Text.

(** ** JsMap: a JavaScript [Map] with string keys, in insertion order *)

Module JsMap.

Section Ops.
Context {V : Type}.

Definition t : Type := list (string * V).

Definition empty : t := [].

Fixpoint get (m : t) (k : string) : option V :=
  match m with
  | [] => None
  | (k', v) :: m' => if String.eqb k' k then Some v else get m' k
  end.

Definition has (m : t) (k : string) : bool :=
  match get m k with Some _ => true | None => false end.

(** [m.set(k, v)]: an existing key keeps its position, a new key goes last. *)
Fixpoint set (m : t) (k : string) (v : V) : t :=
  match m with
  | [] => [(k, v)]
  | (k', v') :: m' =>
      if String.eqb k' k then (k', v) :: m' else (k', v') :: set m' k v
  end.

(** [m.delete(k)]: the entry of [k] goes; keys are unique, so there is one. *)
Fixpoint delete (m : t) (k : string) : t :=
  match m with
  | [] => []
  | (k', v') :: m' =>
      if String.eqb k' k then m' else (k', v') :: delete m' k
  end.

Definition size (m : t) : nat := List.length m.

Definition keys (m : t) : list string := List.map fst m.

End Ops.

Arguments t : clear implicits.

End JsMap.

(** ** TabManager (client script, [class TabManager] and the navigation
       functions around it) *)

Module TabManager.

(** The part of the document the tab code reads and writes.  A node is named
    by the attribute the code finds it with: a [.tab] node by its
    [data-tab-id], a [.tab-panel] node by its [id].  The markup inside a node
    (title text, welcome screen, frame) is not represented: two equal [Dom]s
    stand for documents that agree on the nodes, the classes and the address
    value, and may differ inside the nodes. *)
Record Dom : Type := {
  tabsContainer : list string;  (* the .tab nodes of the strip, in order *)
  mainContent : list string;    (* the .tab-panel nodes, in order *)
  activeTabs : list string;     (* .tab nodes whose class list has active *)
  activePanels : list string;   (* .tab-panel nodes whose class list has active *)
  addressValue : string         (* address.value *)
}.

(** The object stored in [tabs]: [element] and [content] are node references
    ([None] when the query that produced them found nothing). *)
Record Tab : Type := {
  element : option string;
  content : option string;
  title : string;
  url : option string;
  loading : bool
}.

Record State : Type := {
  tabs : JsMap.t Tab;
  currentTabId : string;
  tabCounter : nat;
  history : JsMap.t (list string);
  currentHistoryIndex : JsMap.t Z;
  dom : Dom
}.

Definition with_dom (s : State) (d : Dom) : State :=
  {| tabs := tabs s; currentTabId := currentTabId s; tabCounter := tabCounter s;
     history := history s; currentHistoryIndex := currentHistoryIndex s;
     dom := d |}.

Definition with_tabs (s : State) (m : JsMap.t Tab) : State :=
  {| tabs := m; currentTabId := currentTabId s; tabCounter := tabCounter s;
     history := history s; currentHistoryIndex := currentHistoryIndex s;
     dom := dom s |}.

Definition panel_id (tabId : string) : string := "tab-" ++ tabId.

Definition remove_node (n : string) (l : list string) : list string :=
  List.filter (fun x => negb (String.eqb x n)) l.

(** [constructor()] *)
Definition constructor (page : Dom) : State :=
  {| tabs := JsMap.empty; currentTabId := "home"; tabCounter := 1;
     history := JsMap.empty; currentHistoryIndex := JsMap.empty;
     dom := page |}.

Definition query (n : string) (l : list string) : option string :=
  if List.existsb (String.eqb n) l then Some n else None.

(** The [DOMContentLoaded] listener: registers the home tab of the page. *)
Definition onDOMContentLoaded (s : State) : State :=
  {| tabs := JsMap.set (tabs s) "home"
               {| element := query "home" (tabsContainer (dom s));
                  content := query "tab-home" (mainContent (dom s));
                  title := "Home"; url := None; loading := false |};
     currentTabId := currentTabId s; tabCounter := tabCounter s;
     history := JsMap.set (history s) "home" [];
     currentHistoryIndex := JsMap.set (currentHistoryIndex s) "home" (-1)%Z;
     dom := dom s |}.

Section WithFrames.

(** [frameUrl tabId]: the address the extended script reads back from the
    frame of [tabId] in [switchToTab] (the frame exists, its document is
    readable, its location is not about:blank; the proxy prefix removed).
    [src/public/index.js] has no such step: there it is [fun _ => None]. *)
Variable frameUrl : string -> option string.

(** [switchToTab(tabId)] *)
Definition switchToTab (tabId : string) (s : State) : State :=
  let d := dom s in
  let tabElement := query tabId (tabsContainer d) in
  let tabContent := query (panel_id tabId) (mainContent d) in
  match tabElement, tabContent with
  | Some e, Some c =>
      let stored :=
        match JsMap.get (tabs s) tabId with
        | Some tab => Text.or_default (url tab) ""
        | None => ""
        end in
      let shown := match frameUrl tabId with Some u => u | None => stored end in
      {| tabs := tabs s; currentTabId := tabId; tabCounter := tabCounter s;
         history := history s; currentHistoryIndex := currentHistoryIndex s;
         dom := {| tabsContainer := tabsContainer d; mainContent := mainContent d;
                   activeTabs := [e]; activePanels := [c];
                   addressValue := shown |} |}
  | _, _ =>
      with_dom s {| tabsContainer := tabsContainer d; mainContent := mainContent d;
                    activeTabs := []; activePanels := [];
                    addressValue := addressValue d |}
  end.

(** [createTab(url = null, title = 'New Tab')]; returns the new identifier. *)
Definition createTab (u : option string) (ttl : string) (s : State) : State * string :=
  let tabId := "tab-" ++ Text.decimal (tabCounter s) in
  let d := dom s in
  let d' := {| tabsContainer := (tabsContainer d ++ [tabId])%list;
               mainContent := (mainContent d ++ [panel_id tabId])%list;
               activeTabs := activeTabs d; activePanels := activePanels d;
               addressValue := addressValue d |} in
  let s' := {| tabs := JsMap.set (tabs s) tabId
                         {| element := Some tabId; content := Some (panel_id tabId);
                            title := ttl; url := u; loading := false |};
               currentTabId := currentTabId s;
               tabCounter := S (tabCounter s);
               history := JsMap.set (history s) tabId [];
               currentHistoryIndex := JsMap.set (currentHistoryIndex s) tabId (-1)%Z;
               dom := d' |} in
  (switchToTab tabId s', tabId).

(** [closeTab(event, tabId)].  [event.stopPropagation()] acts on the event
    only.  The result is the state the handler leaves behind, also when a
    [remove()] on a missing node ends it with a TypeError. *)
Definition closeTab (tabId : string) (s : State) : State :=
  if Nat.leb (JsMap.size (tabs s)) 1 then s
  else
    match JsMap.get (tabs s) tabId with
    | None => s
    | Some tab =>
        match element tab with
        | None => s
        | Some e =>
            let d := dom s in
            let d1 := {| tabsContainer := remove_node e (tabsContainer d);
                         mainContent := mainContent d;
                         activeTabs := remove_node e (activeTabs d);
                         activePanels := activePanels d;
                         addressValue := addressValue d |} in
            match content tab with
            | None => with_dom s d1
            | Some c =>
                let d2 := {| tabsContainer := tabsContainer d1;
                             mainContent := remove_node c (mainContent d1);
                             activeTabs := activeTabs d1;
                             activePanels := remove_node c (activePanels d1);
                             addressValue := addressValue d1 |} in
                let s' := {| tabs := JsMap.delete (tabs s) tabId;
                             currentTabId := currentTabId s;
                             tabCounter := tabCounter s;
                             history := JsMap.delete (history s) tabId;
                             currentHistoryIndex :=
                               JsMap.delete (currentHistoryIndex s) tabId;
                             dom := d2 |} in
                if String.eqb (currentTabId s) tabId then
                  match JsMap.keys (tabs s') with
                  | first :: _ => switchToTab first s'
                  | [] => switchToTab "undefined" s'
                  end
                else s'
            end
        end
    end.

End WithFrames.

(** [updateTabTitle(tabId, title)] (the title text of the node follows). *)
Definition updateTabTitle (tabId ttl : string) (s : State) : State :=
  match JsMap.get (tabs s) tabId with
  | Some tab =>
      with_tabs s (JsMap.set (tabs s) tabId
        {| element := element tab; content := content tab; title := ttl;
           url := url tab; loading := loading tab |})
  | None => s
  end.

(** [updateTabUrl(tabId, url)] *)
Definition updateTabUrl (tabId u : string) (s : State) : State :=
  match JsMap.get (tabs s) tabId with
  | Some tab =>
      with_tabs s (JsMap.set (tabs s) tabId
        {| element := element tab; content := content tab; title := title tab;
           url := Some u; loading := loading tab |})
  | None => s
  end.

(** [arr.splice(start)]: everything from [start] on is removed.  A negative
    [start] counts from the end; [NaN] (here [None]) counts as 0. *)
Definition splice_from (start : option Z) (arr : list string) : list string :=
  match start with
  | None => []
  | Some z =>
      if (z <? 0)%Z
      then List.firstn (Z.to_nat (Z.max (Z.of_nat (List.length arr) + z) 0)) arr
      else List.firstn (Z.to_nat z) arr
  end.

(** [addToHistory(tabId, url)] *)
Definition addToHistory (tabId u : string) (s : State) : State :=
  let h0 := if JsMap.has (history s) tabId then history s
            else JsMap.set (history s) tabId [] in
  let i0 := if JsMap.has (history s) tabId then currentHistoryIndex s
            else JsMap.set (currentHistoryIndex s) tabId (-1)%Z in
  let arr := match JsMap.get h0 tabId with Some a => a | None => [] end in
  let currentIndex := JsMap.get i0 tabId in
  let start := match currentIndex with Some i => Some (i + 1)%Z | None => None end in
  let arr' := (splice_from start arr ++ [u])%list in
  {| tabs := tabs s; currentTabId := currentTabId s; tabCounter := tabCounter s;
     history := JsMap.set h0 tabId arr';
     currentHistoryIndex := JsMap.set i0 tabId (Z.of_nat (List.length arr') - 1)%Z;
     dom := dom s |}.

Definition with_index (s : State) (i : Z) : State :=
  {| tabs := tabs s; currentTabId := currentTabId s; tabCounter := tabCounter s;
     history := history s;
     currentHistoryIndex := JsMap.set (currentHistoryIndex s) (currentTabId s) i;
     dom := dom s |}.

(** [goBack()], up to the call of [navigateToUrl]: the state it leaves and
    the address it hands over ([history[newIndex]]). *)
Definition goBack (s : State) : State * option string :=
  match JsMap.get (currentHistoryIndex s) (currentTabId s) with
  | Some i =>
      if (0 <? i)%Z then
        match JsMap.get (history s) (currentTabId s) with
        | Some h => (with_index s (i - 1), List.nth_error h (Z.to_nat (i - 1)))
        | None => (s, None)
        end
      else (s, None)
  | None => (s, None)
  end.

(** [goForward()], likewise. *)
Definition goForward (s : State) : State * option string :=
  match JsMap.get (history s) (currentTabId s),
        JsMap.get (currentHistoryIndex s) (currentTabId s) with
  | Some h, Some i =>
      if (i <? Z.of_nat (List.length h) - 1)%Z then
        (with_index s (i + 1),
         if (i + 1 <? 0)%Z then None else List.nth_error h (Z.to_nat (i + 1)))
      else (s, None)
  | _, _ => (s, None)
  end.

(** The back/forward list of a tab and its current index, as [addToHistory]
    finds them: a tab without a list is given the empty list and the index
    -1 before anything else happens. *)
Definition entries (s : State) (tabId : string) : list string :=
  match JsMap.get (history s) tabId with
  | Some h => h
  | None => []
  end.

Definition position (s : State) (tabId : string) : option Z :=
  if JsMap.has (history s) tabId then JsMap.get (currentHistoryIndex s) tabId
  else Some (-1)%Z.

(** What can happen to a manager once it is constructed: the
    [DOMContentLoaded] listener runs, or one of the operations is called. *)
Inductive Op : Type :=
| DomContentLoaded
| CreateTab (u : option string) (ttl : string)
| CloseTab (tabId : string)
| SwitchToTab (tabId : string)
| UpdateTabTitle (tabId ttl : string)
| UpdateTabUrl (tabId u : string)
| AddToHistory (tabId u : string)
| GoBack
| GoForward.

Definition step (frameUrl : string -> option string) (o : Op) (s : State) : State :=
  match o with
  | DomContentLoaded => onDOMContentLoaded s
  | CreateTab u ttl => fst (createTab frameUrl u ttl s)
  | CloseTab tabId => closeTab frameUrl tabId s
  | SwitchToTab tabId => switchToTab frameUrl tabId s
  | UpdateTabTitle tabId ttl => updateTabTitle tabId ttl s
  | UpdateTabUrl tabId u => updateTabUrl tabId u s
  | AddToHistory tabId u => addToHistory tabId u s
  | GoBack => fst (goBack s)
  | GoForward => fst (goForward s)
  end.

Definition run (frameUrl : string -> option string) (ops : list Op) (s : State) : State :=
  List.fold_left (fun acc o => step frameUrl o acc) ops s.

(** The state of a page once its listener has registered the home tab. *)
Definition initial (page : Dom) : State := onDOMContentLoaded (constructor page).

End TabManager.

(** ** CookieManager (extended client script, [class CookieManager]) *)

Module CookieManager.

#[local] Set Warnings "-register-all".

(** A JSON text, by its parse tree: [JSON.parse (JSON.stringify x)] is the
    tree of [x].  Properties are in the order of the text. *)
Inductive json : Type :=
| JNull
| JBool (b : bool)
| JNum (n : Z)
| JStr (s : string)
| JArr (items : list json)
| JObj (props : list (string * json)).

(** The attribute record [setCookie] stores. *)
Record Cookie : Type := {
  value : string;
  domain : string;
  path : string;
  expires : option string;
  secure : bool;
  httpOnly : bool;
  sameSite : string
}.

(** The [options] argument: every property may be missing. *)
Record Options : Type := {
  opt_path : option string;
  opt_expires : option string;
  opt_secure : option bool;
  opt_httpOnly : option bool;
  opt_sameSite : option string
}.

(** [options = {}] *)
Definition no_options : Options :=
  {| opt_path := None; opt_expires := None; opt_secure := None;
     opt_httpOnly := None; opt_sameSite := None |}.

(** What [cookieStore] holds for a domain: the [Map] that [setCookie]
    creates, or a value that [JSON.parse] produced in [loadCookies]. *)
Inductive DomainCookies : Type :=
| CookieMap (cookies : JsMap.t Cookie)
| Parsed (j : json).

Record Manager : Type := {
  cookieStore : JsMap.t DomainCookies;
  localStorage : JsMap.t json
}.

Inductive JsError : Type :=
| TypeError (message : string).

Inductive outcome (A : Type) : Type :=
| Return (a : A)
| Throw (e : JsError).

Arguments Return {A} a.
Arguments Throw {A} e.

Definition storage_key : string := "novanet_cookies".

(** [JSON.stringify] of one value of the store.  A [Map] has no enumerable
    own property, so its text is that of the empty object. *)
Definition stringify_entry (dc : DomainCookies) : json :=
  match dc with
  | CookieMap _ => JObj []
  | Parsed j => j
  end.

(** [JSON.stringify(Object.fromEntries(this.cookieStore))].  The properties
    come in the insertion order of the [Map]; keys that an object would list
    first (canonical array indices) do not occur among host names. *)
Definition stringify_store (store : JsMap.t DomainCookies) : json :=
  JObj (List.map (fun e => (fst e, stringify_entry (snd e))) store).

(** [saveCookies()].  [setItem] is taken to succeed; when it throws, the
    code catches the exception and the storage stays as it was. *)
Definition saveCookies (m : Manager) : Manager :=
  {| cookieStore := cookieStore m;
     localStorage := JsMap.set (localStorage m) storage_key
                       (stringify_store (cookieStore m)) |}.

Fixpoint indexed {A : Type} (i : nat) (l : list A) : list (string * A) :=
  match l with
  | [] => []
  | x :: l' => (Text.decimal i, x) :: indexed (S i) l'
  end.

Fixpoint code_units (s : string) : list json :=
  match s with
  | EmptyString => []
  | String c s' => JStr (String c EmptyString) :: code_units s'
  end.

(** [Object.entries(parsed)]; [None] when it throws (on [null]). *)
Definition Object_entries (j : json) : option (list (string * json)) :=
  match j with
  | JNull => None
  | JBool _ => Some []
  | JNum _ => Some []
  | JStr s => Some (indexed 0 (code_units s))
  | JArr items => Some (indexed 0 items)
  | JObj props => Some props
  end.

(** [new Map(entries)]: later entries of a key overwrite earlier ones. *)
Definition Map_of_entries (es : list (string * json)) : JsMap.t DomainCookies :=
  List.fold_left (fun acc e => JsMap.set acc (fst e) (Parsed (snd e))) es JsMap.empty.

(** [loadCookies()]: the stored text, when there is one, replaces the store;
    an exception leaves the store as it was. *)
Definition loadCookies (m : Manager) : Manager :=
  match JsMap.get (localStorage m) storage_key with
  | Some parsed =>
      match Object_entries parsed with
      | Some es => {| cookieStore := Map_of_entries es;
                      localStorage := localStorage m |}
      | None => m
      end
  | None => m
  end.

(** [new CookieManager()] over the local storage of the origin. *)
Definition constructor (storage : JsMap.t json) : Manager :=
  loadCookies {| cookieStore := JsMap.empty; localStorage := storage |}.

Definition or_false (o : option bool) : bool :=
  match o with Some b => b | None => false end.

Definition new_cookie (d v : string) (options : Options) : Cookie :=
  {| value := v;
     domain := d;
     path := Text.or_default (opt_path options) "/";
     expires := opt_expires options;
     secure := or_false (opt_secure options);
     httpOnly := or_false (opt_httpOnly options);
     sameSite := Text.or_default (opt_sameSite options) "Lax" |}.

Definition with_store (m : Manager) (store : JsMap.t DomainCookies) : Manager :=
  {| cookieStore := store; localStorage := localStorage m |}.

(** [setCookie(domain, name, value, options = {})].  [domainCookies.set] is
    a method of a [Map] only: on a parsed value the call throws. *)
Definition setCookie (d n v : string) (options : Options) (m : Manager)
  : outcome unit * Manager :=
  let store :=
    if JsMap.has (cookieStore m) d then cookieStore m
    else JsMap.set (cookieStore m) d (CookieMap JsMap.empty) in
  match JsMap.get store d with
  | Some (CookieMap cookies) =>
      let cookies' := JsMap.set cookies n (new_cookie d v options) in
      (Return tt, saveCookies (with_store m (JsMap.set store d (CookieMap cookies'))))
  | Some (Parsed _) =>
      (Throw (TypeError "domainCookies.set is not a function"), with_store m store)
  | None =>
      (Throw (TypeError "Cannot read properties of undefined"), with_store m store)
  end.

(** [!j] for a parsed value. *)
Definition falsy (j : json) : bool :=
  match j with
  | JNull => true
  | JBool b => negb b
  | JNum n => Z.eqb n 0
  | JStr s => String.eqb s ""
  | JArr _ => false
  | JObj _ => false
  end.

Section Clock.

(** [Date_parse s]: the time value of [new Date(s)], [None] for an invalid
    date. *)
Variable Date_parse : string -> option Z.

(** [cookie.expires && new Date() > new Date(cookie.expires)], at time
    [now]. *)
Definition expired (now : Z) (c : Cookie) : bool :=
  match expires c with
  | Some e =>
      if String.eqb e "" then false
      else match Date_parse e with
           | Some t => (t <? now)%Z
           | None => false
           end
  | None => false
  end.

(** [getCookie(domain, name)] called at time [now]; [Return None] is the
    result [null]. *)
Definition getCookie (now : Z) (d n : string) (m : Manager)
  : outcome (option string) * Manager :=
  match JsMap.get (cookieStore m) d with
  | None => (Return None, m)
  | Some (Parsed j) =>
      if falsy j then (Return None, m)
      else (Throw (TypeError "domainCookies.get is not a function"), m)
  | Some (CookieMap cookies) =>
      match JsMap.get cookies n with
      | None => (Return None, m)
      | Some cookie =>
          if expired now cookie then
            (Return None,
             saveCookies (with_store m
               (JsMap.set (cookieStore m) d (CookieMap (JsMap.delete cookies n)))))
          else (Return (Some (value cookie)), m)
      end
  end.

End Clock.

(** What a store says about cookie [n] of domain [d], whichever way the
    domain's value is represented: the attribute record as JSON.  This is the
    mapping domain -> name -> attributes that persistence is about. *)
Definition cookie_json (c : Cookie) : json :=
  JObj ([("value", JStr (value c)); ("domain", JStr (domain c));
         ("path", JStr (path c))]
        ++ match expires c with Some e => [("expires", JStr e)] | None => [] end
        ++ [("secure", JBool (secure c)); ("httpOnly", JBool (httpOnly c));
            ("sameSite", JStr (sameSite c))])%list.

Definition attributes_of (store : JsMap.t DomainCookies) (d n : string) : option json :=
  match JsMap.get store d with
  | Some (CookieMap cookies) =>
      match JsMap.get cookies n with
      | Some c => Some (cookie_json c)
      | None => None
      end
  | Some (Parsed (JObj props)) => JsMap.get props n
  | _ => None
  end.

(** A session: calls of [setCookie]. *)
Record SetCall : Type := {
  call_domain : string;
  call_name : string;
  call_value : string;
  call_options : Options
}.

Definition run_sets (calls : list SetCall) (m : Manager) : Manager :=
  List.fold_left
    (fun acc c => snd (setCookie (call_domain c) (call_name c) (call_value c)
                                 (call_options c) acc))
    calls m.

End CookieManager.

(** ** Navigation: the connection retry logic of [navigateToUrl]
       (extended client script) *)

Module Navigation.

(** [const maxRetries = 3] *)
Definition maxRetries : nat := 3.

(** What can go wrong during one call of [navigateToUrl]; each event runs
    the handler the script registered for it. *)
Inductive Event : Type :=
| ConnectionFailed (error : string)  (* the try block of establishConnection threw *)
| IframeError                        (* iframe.onerror fired *)
| LoadTimeout                        (* loadTimeout fired, document not complete *)
| SlowLoading.                       (* connectionMonitor found the document still loading *)

Inductive Action : Type :=
| ScheduleReconnect                  (* setTimeout(establishConnection, 2000) *)
| ScheduleReload                     (* setTimeout(reload of the frame, 2000) *)
| Reload                             (* iframe.src = iframe.src *)
| Renavigate                         (* iframe.src = sjEncode(searchUrl) *)
| ShowError (message code : string). (* showError(message, code) *)

(** One handler run, on the counter [connectionRetries] the handlers of a
    navigation share. *)
Definition handle (e : Event) (connectionRetries : nat) : nat * list Action :=
  match e with
  | ConnectionFailed error =>
      if Nat.ltb connectionRetries maxRetries
      then (S connectionRetries, [ScheduleReconnect])
      else (connectionRetries,
            [ShowError "Connection failed. Please try again." error])
  | IframeError =>
      if Nat.ltb connectionRetries maxRetries
      then (S connectionRetries, [ScheduleReload])
      else (connectionRetries,
            [ShowError "Connection failed after multiple attempts. Please try again." ""])
  | LoadTimeout =>
      if Nat.ltb connectionRetries maxRetries
      then (S connectionRetries, [Reload])
      else (connectionRetries,
            [ShowError "Page took too long to load. Please try again." ""])
  | SlowLoading =>
      if Nat.ltb connectionRetries maxRetries
      then (S connectionRetries, [Renavigate])
      else (connectionRetries, [])
  end.

(** The handlers run one after the other, in the order of the events. *)
Fixpoint handle_all (events : list Event) (connectionRetries : nat)
  : nat * list Action :=
  match events with
  | [] => (connectionRetries, [])
  | e :: events' =>
      let (n, acts) := handle e connectionRetries in
      let (n', acts') := handle_all events' n in
      (n', (acts ++ acts')%list)
  end.

(** A navigation starts with [let connectionRetries = 0]. *)
Definition navigation (events : list Event) : nat * list Action :=
  handle_all events 0.

Definition is_retry (a : Action) : bool :=
  match a with
  | ShowError _ _ => false
  | _ => true
  end.

Definition retries (acts : list Action) : nat :=
  List.length (List.filter is_retry acts).

(** The two failures the retry rule is stated for. *)
Definition is_failure (e : Event) : bool :=
  match e with
  | ConnectionFailed _ => true
  | IframeError => true
  | _ => false
  end.

End Navigation.

(** ** Server ([src/src/index.js]) *)

Module Server.

(** *** The server factory: the [request] and [upgrade] listeners *)

(** The headers of a [ServerResponse]: [setHeader] files a header under its
    lower-cased name. *)
Definition Headers : Type := JsMap.t string.

Definition setHeader (res : Headers) (name v : string) : Headers :=
  JsMap.set res (Text.toLowerCase name) v.

Definition getHeader (res : Headers) (name : string) : option string :=
  JsMap.get res (Text.toLowerCase name).

(** The [request] listener: [handler] is the function Fastify hands to the
    factory; it receives the request and the response prepared here. *)
Definition onRequest {R : Type} (handler : string -> Headers -> R)
  (url : string) (res : Headers) : R :=
  let res' :=
    if negb (Text.startsWith url "/ads/") then
      setHeader (setHeader res "Cross-Origin-Opener-Policy" "same-origin")
                "Cross-Origin-Embedder-Policy" "require-corp"
    else res in
  handler url res'.

(** The [upgrade] listener. *)
Inductive Upgrade : Type :=
| RouteRequest (url : string)   (* wisp.routeRequest(req, socket, head) *)
| SocketEnd.                    (* socket.end() *)

Definition onUpgrade (url : string) : Upgrade :=
  if Text.endsWith url "/wisp/" then RouteRequest url else SocketEnd.

(** *** Regular expressions, as backtracking matchers

    A matcher reads a prefix of its input and hands what it read and the rest
    to its continuation; when the continuation fails, it tries its next way of
    matching (a shorter repetition, the next alternative), as the engine does. *)

Definition dq : ascii := ascii_of_nat 34.   (* the double quote *)
Definition sq : ascii := ascii_of_nat 39.   (* the single quote *)

Definition is_quote (c : ascii) : bool := Ascii.eqb c dq || Ascii.eqb c sq.

(** [\w] *)
Definition word_char (c : ascii) : bool :=
  Text.is_upper c || Text.is_lower c || Text.is_digit c || Nat.eqb (Text.code c) 95.

(** [\b] at a position: the unit before it and the unit after it differ in
    being word characters (no unit counts as not a word character). *)
Definition word_boundary (prev : option ascii) (s : string) : bool :=
  xorb (match prev with Some c => word_char c | None => false end)
       (match s with String c _ => word_char c | EmptyString => false end).

(** Comparison under the [i] flag, for the ASCII patterns used here. *)
Definition fold_case (c : ascii) : ascii :=
  if Text.is_lower c then ascii_of_nat (Text.code c - 32) else c.

(** A literal under the [i] flag: the text read and the rest. *)
Fixpoint take_ci (p s : string) : option (string * string) :=
  match p with
  | EmptyString => Some (EmptyString, s)
  | String a p' =>
      match s with
      | String b s' =>
          if Ascii.eqb (fold_case a) (fold_case b) then
            match take_ci p' s' with
            | Some (m, r) => Some (String b m, r)
            | None => None
            end
          else None
      | EmptyString => None
      end
  end.

(** [(p1|p2|...)] under the [i] flag. *)
Fixpoint alt_ci {R : Type} (alts : list string) (k : string -> string -> option R)
  (s : string) : option R :=
  match alts with
  | [] => None
  | p :: alts' =>
      match take_ci p s with
      | Some (m, r) =>
          match k m r with
          | Some x => Some x
          | None => alt_ci alts' k s
          end
      | None => alt_ci alts' k s
      end
  end.

(** [[class]*], greedy: the longest run first, then shorter ones. *)
Fixpoint star_greedy {R : Type} (cls : ascii -> bool)
  (k : string -> string -> option R) (read : string) (s : string) : option R :=
  match s with
  | String c s' =>
      if cls c then
        match star_greedy cls k (read ++ String c EmptyString) s' with
        | Some x => Some x
        | None => k read s
        end
      else k read s
  | EmptyString => k read s
  end.

(** [[class]+] *)
Definition plus_greedy {R : Type} (cls : ascii -> bool)
  (k : string -> string -> option R) (s : string) : option R :=
  match s with
  | String c s' =>
      if cls c then star_greedy cls k (String c EmptyString) s' else None
  | EmptyString => None
  end.

(** One unit of a class. *)
Definition one {R : Type} (cls : ascii -> bool) (k : ascii -> string -> option R)
  (s : string) : option R :=
  match s with
  | String c s' => if cls c then k c s' else None
  | EmptyString => None
  end.

(** [text.replace(re, f)] for a global [re] whose matches are not empty.
    [m prev s] is a match of [re] that starts at the current position, as
    the replacement text and the number of units matched; [prev] is the
    unit before the position.  After a match the search goes on behind it. *)
Fixpoint replace_all (m : option ascii -> string -> option (string * nat))
  (prev : option ascii) (skip : nat) (s : string) : string :=
  match s with
  | EmptyString => EmptyString
  | String c s' =>
      match skip with
      | S n => replace_all m (Some c) n s'
      | O =>
          match m prev s with
          | Some (replacement, len) =>
              replacement ++ replace_all m (Some c) (len - 1) s'
          | None => String c (replace_all m (Some c) 0 s')
          end
      end
  end.

(** *** The [/ads/proxy] route *)

(** A parsed URL, by the properties the route reads.  [hostname] is the
    text of the getter: a domain or an IPv4 address as it is written, an
    IPv6 address between square brackets. *)
Record URL : Type := {
  href : string;       (* toString() *)
  protocol : string;
  hostname : string
}.

(** The response of [fetch]: [up_headers] as [headers.forEach] yields them
    (lower-case names). *)
Record Upstream : Type := {
  up_status : Z;
  up_headers : list (string * string);
  up_body : string
}.

(** The platform the route runs on.  [fetch] stands for the awaits of one
    request: [Some res] when the promise of [fetch] resolves with [res] and
    [res.text()], where the handler calls it, yields [up_body res]; [None]
    when one of the two rejects.  [unread] tells the two apart: the status
    and the headers of a response that resolved and whose text could not be
    read.  [followed] lists the addresses that [fetch], called with
    [redirect: 'follow'], goes on to request after the one it was given. *)
Record Platform : Type := {
  NodeURL : string -> option URL;            (* new NodeURL(u); None: it throws *)
  NodeURL_base : string -> URL -> option URL;  (* new NodeURL(s, base) *)
  fetch : string -> list (string * string) -> option Upstream;
  unread : string -> list (string * string) -> option (Z * list (string * string));
  followed : string -> list string
}.

Record Request : Type := {
  query_u : option string;                   (* req.query?.u *)
  req_headers : list (string * string)       (* req.headers, lower-case names *)
}.

Inductive Payload : Type :=
| Text (body : string)      (* reply.send(string) *)
| Stream (body : string).   (* reply.send(res.body) *)

(** A reply: the status, the [reply.header] and [reply.type] calls in
    order, and what was sent. *)
Record Reply : Type := {
  status : Z;
  header_calls : list (string * string);
  payload : Payload
}.

(** What a request does: its reply and the addresses requested from the
    network, in order. *)
Record Outcome : Type := {
  reply : Reply;
  fetched : list string
}.

Definition refuse (code : Z) (message : string) : Outcome :=
  {| reply := {| status := code; header_calls := []; payload := Text message |};
     fetched := [] |}.

(** [/^https?:$/.test(target.protocol)] *)
Definition http_protocol (p : string) : bool :=
  String.eqb p "http:" || String.eqb p "https:".

(** [/^172\.(1[6-9]|2\d|3[0-1])\./.test(hostl)] *)
Definition private_172 (hostl : string) : bool :=
  if Text.startsWith hostl "172." then
    match hostl with
    | String _ (String _ (String _ (String _ (String a (String b (String c _)))))) =>
        (   (Ascii.eqb a "1" && Text.in_range 54 57 b)
         || (Ascii.eqb a "2" && Text.is_digit b)
         || (Ascii.eqb a "3" && Text.in_range 48 49 b))
        && Ascii.eqb c "."
    | _ => false
    end
  else false.

(** [isBlockedHost], on the lower-cased host name. *)
Definition isBlockedHost (hostl : string) : bool :=
  String.eqb hostl "localhost" || Text.endsWith hostl ".localhost" ||
  String.eqb hostl "127.0.0.1" || Text.startsWith hostl "127." ||
  Text.startsWith hostl "10." || Text.startsWith hostl "192.168." ||
  private_172 hostl ||
  String.eqb hostl "::1" || Text.startsWith hostl "fe80:" ||
  Text.startsWith hostl "fc" || Text.startsWith hostl "fd".

(** [encodeURIComponent]: the unreserved units stay, every other unit goes
    out as the escaped bytes of its UTF-8 form. *)
Definition unreserved (c : ascii) : bool :=
  Text.is_upper c || Text.is_lower c || Text.is_digit c ||
  Text.includes "-_.!~*'()" (String c EmptyString).

Definition hex_digit (n : nat) : ascii :=
  match String.get n "0123456789ABCDEF" with
  | Some c => c
  | None => "0"%char
  end.

Definition escape_byte (b : nat) : string :=
  String "%" (String (hex_digit (b / 16)) (String (hex_digit (b mod 16)) EmptyString)).

Definition encode_unit (c : ascii) : string :=
  if unreserved c then String c EmptyString
  else if Nat.ltb (Text.code c) 128 then escape_byte (Text.code c)
  else escape_byte (192 + Text.code c / 64) ++ escape_byte (128 + Text.code c mod 64).

Fixpoint encodeURIComponent (s : string) : string :=
  match s with
  | EmptyString => EmptyString
  | String c s' => encode_unit c ++ encodeURIComponent s'
  end.

Section Rewriting.

Variable P : Platform.
Variable base : URL.

(** [prox(urlStr)] *)
Definition prox (urlStr : string) : string :=
  match NodeURL_base P urlStr base with
  | Some abs => "/ads/proxy?u=" ++ encodeURIComponent (href abs)
  | None => urlStr
  end.

Definition attribute_names : list string := ["href"; "src"; "action"; "poster"].

(** A match of the attribute expression: attribute name at a word boundary,
    the equals sign, a quote, a non-empty value without quotes, the same
    quote.  Result: name, quote, value, rest. *)
Definition match_attribute (prev : option ascii) (s : string)
  : option (string * ascii * string * string) :=
  if word_boundary prev s then
    alt_ci attribute_names
      (fun attr s1 =>
         one (fun c => Ascii.eqb c "=")
           (fun _ s2 =>
              one is_quote
                (fun q s3 =>
                   plus_greedy (fun c => negb (is_quote c))
                     (fun val s4 =>
                        one (fun c => Ascii.eqb c q)
                          (fun _ s5 => Some (attr, q, val, s5)) s4) s3) s2) s1) s
  else None.

Definition exempt_value (val : string) : bool :=
  Text.startsWith val "data:" || Text.startsWith val "blob:" ||
  Text.startsWith val "mailto:" || Text.startsWith val "javascript:".

(** The replacement callback of the attribute pass. *)
Definition attribute_text (attr : string) (q : ascii) (val : string) : string :=
  attr ++ "=" ++ String q (val ++ String q EmptyString).

Definition rewrite_attribute (attr : string) (q : ascii) (val : string) : string :=
  if exempt_value val then attribute_text attr q val
  else attribute_text attr q (prox val).

Definition attribute_rule (prev : option ascii) (s : string) : option (string * nat) :=
  match match_attribute prev s with
  | Some (attr, q, val, _) =>
      Some (rewrite_attribute attr q val,
            String.length (attribute_text attr q val))
  | None => None
  end.

Definition rewrite_attributes (text : string) : string :=
  replace_all attribute_rule None 0 text.

(** [inner.trim()] *)
Definition white_space (c : ascii) : bool :=
  Text.in_range 9 13 c || Nat.eqb (Text.code c) 32 || Nat.eqb (Text.code c) 160.

Fixpoint trim_start (s : string) : string :=
  match s with
  | String c s' => if white_space c then trim_start s' else s
  | EmptyString => EmptyString
  end.

Fixpoint trim_end (s : string) : string :=
  match s with
  | String c s' =>
      match trim_end s' with
      | EmptyString => if white_space c then EmptyString else String c EmptyString
      | rest => String c rest
      end
  | EmptyString => EmptyString
  end.

Definition trim (s : string) : string := trim_end (trim_start s).

(** [s.replace(/^q|q$/g, '')]: a leading [q] goes, then a trailing one. *)
Fixpoint drop_last (q : ascii) (s : string) : string :=
  match s with
  | EmptyString => EmptyString
  | String c EmptyString => if Ascii.eqb c q then EmptyString else s
  | String c s' => String c (drop_last q s')
  end.

Definition strip_quote (q : ascii) (s : string) : string :=
  match s with
  | String c s' => if Ascii.eqb c q then drop_last q s' else drop_last q s
  | EmptyString => EmptyString
  end.

(** A match of [/url\(([^)]+)\)/gi]: the text read for [url(], the inner
    text, the rest. *)
Definition match_css_url (s : string) : option (string * string * string) :=
  match take_ci "url(" s with
  | Some (head, s1) =>
      plus_greedy (fun c => negb (Ascii.eqb c ")"))
        (fun inner s2 =>
           one (fun c => Ascii.eqb c ")") (fun _ s3 => Some (head, inner, s3)) s2) s1
  | None => None
  end.

Definition css_url_rule (_ : option ascii) (s : string) : option (string * nat) :=
  match match_css_url s with
  | Some (head, inner, _) =>
      let m := head ++ inner ++ ")" in
      let v := strip_quote sq (strip_quote dq (trim inner)) in
      Some (if Text.startsWith v "data:" || Text.startsWith v "blob:" then m
            else "url(" ++ prox v ++ ")",
            String.length m)
  | None => None
  end.

Definition rewrite_css_urls (text : string) : string :=
  replace_all css_url_rule None 0 text.

End Rewriting.

(** A match of the expression that finds a Content-Security-Policy [meta]
    tag; result: the rest behind the match. *)
Definition match_csp_meta (s : string) : option string :=
  match take_ci "<meta" s with
  | Some (_, s1) =>
      plus_greedy (fun c => negb (Ascii.eqb c ">"))
        (fun _ s2 =>
           match take_ci "http-equiv=" s2 with
           | Some (_, s3) =>
               one is_quote
                 (fun _ s4 =>
                    match take_ci "Content-Security-Policy" s4 with
                    | Some (_, s5) =>
                        one is_quote
                          (fun _ s6 =>
                             star_greedy (fun c => negb (Ascii.eqb c ">"))
                               (fun _ s7 =>
                                  one (fun c => Ascii.eqb c ">")
                                    (fun _ s8 => Some s8) s7)
                               EmptyString s6) s5
                    | None => None
                    end) s3
           | None => None
           end) s1
  | None => None
  end.

Definition csp_meta_rule (_ : option ascii) (s : string) : option (string * nat) :=
  match match_csp_meta s with
  | Some rest => Some (EmptyString, String.length s - String.length rest)
  | None => None
  end.

Definition remove_csp_meta (text : string) : string :=
  replace_all csp_meta_rule None 0 text.

(** The three passes of the HTML branch, in the order of the code. *)
Definition rewrite_html (P : Platform) (target : URL) (text : string) : string :=
  remove_csp_meta (rewrite_css_urls P target (rewrite_attributes P target text)).

Definition skipHeaders : list string :=
  ["content-security-policy"; "x-frame-options"; "content-length"].

Definition copied_headers (hs : list (string * string)) : list (string * string) :=
  List.filter
    (fun h => negb (List.existsb (String.eqb (Text.toLowerCase (fst h))) skipHeaders))
    hs.

Definition fetch_headers (req : Request) : list (string * string) :=
  [("user-agent", Text.or_default (JsMap.get (req_headers req) "user-agent") "Mozilla/5.0");
   ("accept", Text.or_default (JsMap.get (req_headers req) "accept") "*/*");
   ("accept-language",
    Text.or_default (JsMap.get (req_headers req) "accept-language") "en-US,en;q=0.9")].

(** The handler of [fastify.get('/ads/proxy', ...)].  After the refusals,
    an exception (a rejected [fetch], or a rejected [res.text()] once the
    status and the headers were passed on) reaches the [catch], which
    replies 502. *)
Definition ads_proxy (P : Platform) (req : Request) : Outcome :=
  match query_u req with
  | None => refuse 400 "Missing u"
  | Some u =>
      if String.eqb u "" then refuse 400 "Missing u"
      else
        match NodeURL P u with
        | None => refuse 400 "Invalid URL"
        | Some target =>
            if negb (http_protocol (protocol target))
            then refuse 400 "Unsupported protocol"
            else if isBlockedHost (Text.toLowerCase (hostname target))
            then refuse 403 "Forbidden host"
            else
              match fetch P (href target) (fetch_headers req) with
              | None =>
                  {| reply :=
                       {| status := 502;
                          header_calls :=
                            match unread P (href target) (fetch_headers req) with
                            | Some (_, headers) =>
                                (copied_headers headers
                                 ++ [("content-type", "text/plain")])%list
                            | None => [("content-type", "text/plain")]
                            end;
                          payload := Text "Proxy error" |};
                     fetched := href target :: followed P (href target) |}
              | Some res =>
                  let contentType :=
                    Text.or_default (JsMap.get (up_headers res) "content-type") "" in
                  let copied := copied_headers (up_headers res) in
                  if Text.includes contentType "text/html" then
                    {| reply :=
                         {| status := up_status res;
                            header_calls :=
                              (copied ++ [("content-type", "text/html; charset=utf-8")])%list;
                            payload := Text (rewrite_html P target (up_body res)) |};
                       fetched := href target :: followed P (href target) |}
                  else if Text.includes contentType "text/css" then
                    {| reply :=
                         {| status := up_status res;
                            header_calls :=
                              (copied ++ [("content-type", "text/css; charset=utf-8")])%list;
                            payload := Text (rewrite_css_urls P target (up_body res)) |};
                       fetched := href target :: followed P (href target) |}
                  else
                    {| reply :=
                         {| status := up_status res;
                            header_calls := (copied ++ [("cache-control", "no-store")])%list;
                            payload := Stream (up_body res) |};
                       fetched := href target :: followed P (href target) |}
              end
        end
  end.

End Server.

(** ** Sample inputs and invariants used in Part II *)

Module Samples.

Import TabManager.

(** A page with the home tab only. *)
Definition sample_page : Dom :=
  {| tabsContainer := ["home"]; mainContent := ["tab-home"];
     activeTabs := ["home"]; activePanels := ["tab-home"]; addressValue := "" |}.

(** The state after visiting [a] then [b] on the home tab and going back. *)
Definition sample_back : State :=
  fst (goBack (addToHistory "home" "b" (addToHistory "home" "a" (initial sample_page)))).

(** The back/forward lists are well formed: keys are unique, and every tab
    that has a list has an index between -1 and the last position. *)
Definition maps_ok (hm : JsMap.t (list string)) (im : JsMap.t Z) : Prop :=
  NoDup (JsMap.keys hm) /\
  NoDup (JsMap.keys im) /\
  forall t h, JsMap.get hm t = Some h ->
    exists i, JsMap.get im t = Some i /\ (-1 <= i < Z.of_nat (List.length h))%Z.

Definition history_ok (s : State) : Prop :=
  maps_ok (history s) (currentHistoryIndex s).

(** Two page loads on one origin: the first starts from empty storage and
    stores one cookie; the second constructs its manager from the storage the
    first one left. *)
Definition first_visit : CookieManager.Manager :=
  snd (CookieManager.setCookie "example.com" "sid" "42" CookieManager.no_options
         (CookieManager.constructor JsMap.empty)).

Definition second_visit : CookieManager.Manager :=
  CookieManager.constructor (CookieManager.localStorage first_visit).

(** The default attribute record of a cookie [v] of domain [d]. *)
Definition default_cookie (d v : string) : CookieManager.Cookie :=
  {| CookieManager.value := v; CookieManager.domain := d;
     CookieManager.path := "/"; CookieManager.expires := None;
     CookieManager.secure := false; CookieManager.httpOnly := false;
     CookieManager.sameSite := "Lax" |}.

(** Every domain of the store holds a [Map], with unique cookie names. *)
Definition is_map (dc : CookieManager.DomainCookies) : Prop :=
  exists cookies, dc = CookieManager.CookieMap cookies /\ NoDup (JsMap.keys cookies).

Definition all_maps (store : JsMap.t CookieManager.DomainCookies) : Prop :=
  forall e, In e store -> is_map (snd e).

(** A request was refused: the reply has the given status and text, no
    header was set, and nothing was fetched. *)
Definition refused (o : Server.Outcome) (code : Z) (message : string) : Prop :=
  Server.reply o = {| Server.status := code; Server.header_calls := [];
                      Server.payload := Server.Text message |} /\
  Server.fetched o = [].

(** The host names the guard of [/ads/proxy] is meant to stop, as patterns
    on the lower-cased host name. *)
Definition private_host (h : string) : Prop :=
  h = "localhost" \/
  (exists front, h = front ++ ".localhost") \/
  (exists rest, h = "127." ++ rest) \/
  (exists rest, h = "10." ++ rest) \/
  (exists rest, h = "192.168." ++ rest) \/
  (exists n rest, 16 <= n <= 31 /\ h = "172." ++ Text.decimal n ++ "." ++ rest) \/
  h = "::1" \/
  (exists rest, h = "fe80:" ++ rest) \/
  (exists rest, h = "fc" ++ rest) \/
  (exists rest, h = "fd" ++ rest).

(** A platform for the examples.  Its URL parser knows the one address the
    examples request and rejects every other text (the empty text among
    them, as the real parser does); a reference is resolved by appending it
    to the base, which is what the real parser does with the path-relative
    references of the examples; every fetch answers with the given HTML. *)
Definition example_target : Server.URL :=
  {| Server.href := "http://example.com/"; Server.protocol := "http:";
     Server.hostname := "example.com" |}.

Definition sample_platform (body : string) : Server.Platform :=
  {| Server.NodeURL := fun u =>
       if String.eqb u "http://example.com/" then Some example_target else None;
     Server.NodeURL_base := fun s base =>
       Some {| Server.href := Server.href base ++ s;
               Server.protocol := Server.protocol base;
               Server.hostname := Server.hostname base |};
     Server.fetch := fun _ _ =>
       Some {| Server.up_status := 200;
               Server.up_headers := [("content-type", "text/html")];
               Server.up_body := body |};
     Server.unread := fun _ _ => None;
     Server.followed := fun _ => [] |}.

Definition request_for (u : option string) : Server.Request :=
  {| Server.query_u := u; Server.req_headers := [] |}.

(** Conditions on an attribute occurrence, as the attribute expression
    reads them. *)
Fixpoint forall_chars (cls : ascii -> bool) (s : string) : bool :=
  match s with
  | EmptyString => true
  | String c s' => cls c && forall_chars cls s'
  end.

Definition ci_equal (s p : string) : bool :=
  match Server.take_ci p s with
  | Some (_, r) => String.eqb r ""
  | None => false
  end.

(** [name] is href, src, action or poster, in any letter case. *)
Definition attribute_name (name : string) : bool :=
  List.existsb (ci_equal name) Server.attribute_names.

Fixpoint last_unit (s : string) (before : option ascii) : option ascii :=
  match s with
  | EmptyString => before
  | String c s' => last_unit s' (Some c)
  end.

(** Three pages for the HTML branch: a link whose value holds an
    apostrophe, a Content-Security-Policy meta tag, and a link whose
    javascript: value holds a CSS url(). *)
Definition quoted (s : string) : string :=
  String Server.dq (s ++ String Server.dq EmptyString).

Definition page_apostrophe : string := "<a href=" ++ quoted "it's" ++ ">x</a>".

Definition page_csp : string :=
  "<meta http-equiv=" ++ quoted "Content-Security-Policy"
  ++ " content=" ++ quoted "default-src" ++ ">ok".

Definition page_script_url : string := "<a href=" ++ quoted "javascript:url(x)" ++ ">".

Definition page_link : string := "<a href=" ++ quoted "x" ++ ">".

Definition html_reply (body : string) : Server.Payload :=
  Server.payload (Server.reply
    (Server.ads_proxy (sample_platform body) (request_for (Some "http://example.com/")))).

(** A clock for the examples: every date text denotes time 0. *)
Definition epoch_clock : string -> option Z := fun _ => Some 0%Z.

(** A manager whose one cookie expires at time 0. *)
Definition stale_visit : CookieManager.Manager :=
  snd (CookieManager.setCookie "example.com" "sid" "42"
         {| CookieManager.opt_path := None;
            CookieManager.opt_expires := Some "Thu, 01 Jan 1970 00:00:00 GMT";
            CookieManager.opt_secure := None; CookieManager.opt_httpOnly := None;
            CookieManager.opt_sameSite := None |}
         (CookieManager.constructor JsMap.empty)).

End Samples.

(** ** Browser: the navigation functions and listeners around the tab
       manager (client script) *)

Module Browser.

Import TabManager.

(** The page state the navigation code works on: the tab manager, the
    [message] listeners registered on the window so far (each bound to the
    frame and the identifier of one tab), and the error box. *)
Record State : Type := {
  manager : TabManager.State;
  listeners : list string;                 (* targetTabId of each listener, oldest first *)
  errorShown : option (string * string)    (* showError(message, code); None: hidden *)
}.

Definition with_manager (b : State) (m : TabManager.State) : State :=
  {| manager := m; listeners := listeners b; errorShown := errorShown b |}.

(** What the environment answers during one call of [navigateToUrl]. *)
Record Answers : Type := {
  registerSW : option string;   (* None: resolved; Some e: rejected, e = err.toString() *)
  searchUrl_ok : bool           (* new URL(searchUrl) did not throw *)
}.

Definition with_address (m : TabManager.State) (v : string) : TabManager.State :=
  with_dom m {| tabsContainer := tabsContainer (dom m); mainContent := mainContent (dom m);
                activeTabs := activeTabs (dom m); activePanels := activePanels (dom m);
                addressValue := v |}.

(** [tab.loading = true] when the tab exists. *)
Definition setLoading (tabId : string) (m : TabManager.State) : TabManager.State :=
  match JsMap.get (tabs m) tabId with
  | Some tab =>
      with_tabs m (JsMap.set (tabs m) tabId
        {| element := element tab; content := content tab; title := title tab;
           url := url tab; loading := true |})
  | None => m
  end.

(** [updateTabTitle] ends with a TypeError when the tab is there and its
    [element] is null: the caller stops at that point. *)
Definition title_throws (tabId : string) (m : TabManager.State) : bool :=
  match JsMap.get (tabs m) tabId with
  | Some tab => match element tab with None => true | Some _ => false end
  | None => false
  end.

Section Handlers.

(** [frameUrl]: as for [TabManager.switchToTab].  [cleanUrl]: the removal of
    the proxy prefix from a frame address (the match of [/scramjet/(.+)$]
    and [decodeURIComponent], once or twice). *)
Variable frameUrl : string -> option string.
Variable cleanUrl : string -> string.

(** The call [navigateToUrl(url, tabId = null)] behind its
    [await registerSW()], up to the registration of its [message] listener;
    [target] is the [targetTabId] that the call computed before the await.
    The frame is looked up, or created inside the panel of the tab; without
    a panel [iframe] is null and the assignment of [iframe.onload] ends the
    call. *)
Definition proceed (a : Answers) (u : string) (target : string) (b : State) : State :=
  match registerSW a with
  | Some e =>
      {| manager := manager b; listeners := listeners b;
         errorShown := Some ("Failed to register service worker.", e) |}
  | None =>
      if negb (searchUrl_ok a) then b
      else
        let m1 := addToHistory target u (manager b) in
        let m2 := updateTabUrl target u m1 in
        let m3 := updateTabTitle target "Loading..." m2 in
        if title_throws target m2 then with_manager b m3
        else
          let m4 := setLoading target m3 in
          if List.existsb (String.eqb (panel_id target)) (mainContent (dom m4))
          then {| manager := m4; listeners := (listeners b ++ [target])%list;
                  errorShown := errorShown b |}
          else with_manager b m4
  end.

(** One call of [navigateToUrl] from its first line to the registration of
    the listener, for a call whose [registerSW()] settles before anything
    else runs on the page.  (What can run in between is the matter of the
    module [EventLoop].) *)
Definition navigateToUrl (a : Answers) (u : string) (tabId : option string) (b : State)
  : State :=
  proceed a u (Text.or_default tabId (currentTabId (manager b))) b.

(** [navigateTo(url)], for calls of [navigateToUrl] as above. *)
Definition navigateTo (a : Answers) (u : string) (b : State) : State :=
  if String.eqb (currentTabId (manager b)) "home" then
    let (m, newTabId) := createTab frameUrl (Some u) "Loading..." (manager b) in
    navigateToUrl a u (Some newTabId) (with_manager b m)
  else navigateToUrl a u None b.

(** One [message] listener, bound to [target], on a [urlChange] message of
    its own frame. *)
Definition onUrlChange (target : string) (rawUrl : string) (newTitle : option string)
  (m : TabManager.State) : TabManager.State :=
  let newUrl := cleanUrl rawUrl in
  let m1 := updateTabUrl target newUrl m in
  let m2 := updateTabTitle target (Text.or_default newTitle "Loading...") m1 in
  if title_throws target m1 then m2
  else
    let m3 := if String.eqb (currentTabId m2) target then with_address m2 newUrl else m2 in
    addToHistory target newUrl m3.

(** A [urlChange] message from the frame of tab [frame]: every listener
    runs, in the order of registration; those bound to another frame return
    at once. *)
Definition onMessage (frame : string) (rawUrl : string) (newTitle : option string)
  (b : State) : State :=
  with_manager b
    (List.fold_left
       (fun m target =>
          if String.eqb target frame then onUrlChange target rawUrl newTitle m else m)
       (listeners b) (manager b)).

(** [setupUrlMonitoring]: the state of one monitor and a run of its
    [updateUrlAndTitle].  [doc] is what the monitor reads from the frame
    (address and title), [None] when there is no document or reading it
    throws. *)
Record Monitor : Type := {
  lastUrl : string;
  lastTitle : string
}.

Definition new_monitor : Monitor := {| lastUrl := ""; lastTitle := "" |}.

Definition updateUrlAndTitle (tabId : string) (doc : option (string * string))
  (mon : Monitor) (m : TabManager.State) : Monitor * TabManager.State :=
  match doc with
  | None => (mon, m)
  | Some (location, currentTitle) =>
      let currentUrl := cleanUrl location in
      if negb (String.eqb currentUrl (lastUrl mon))
         || negb (String.eqb currentTitle (lastTitle mon))
      then
        let mon' := {| lastUrl := currentUrl; lastTitle := currentTitle |} in
        let m1 := updateTabUrl tabId currentUrl m in
        let m2 := updateTabTitle tabId (Text.or_default (Some currentTitle) "Loading...") m1 in
        if title_throws tabId m1 then (mon', m2)
        else
          let m3 := if String.eqb (currentTabId m2) tabId
                    then with_address m2 currentUrl else m2 in
          let m4 := if negb (String.eqb currentUrl (lastUrl mon'))
                    then addToHistory tabId currentUrl m3 else m3 in
          (mon', m4)
      else (mon, m)
  end.

End Handlers.

(** The page once its script and its [DOMContentLoaded] listener have run. *)
Definition start (page : Dom) : State :=
  {| manager := initial page; listeners := []; errorShown := None |}.

End Browser.

(** ** The page as its handlers run

    A handler runs to its end or to its first [await].  [navigateToUrl]
    awaits [registerSW()] on its second line, so every handler that calls
    it returns with that call waiting, and other handlers run before the
    call goes on. *)

Module EventLoop.

Import TabManager.

(** A call of [navigateToUrl] that waits for [registerSW()]: its [url] and
    the [targetTabId] it computed before the await. *)
Record Call : Type := {
  call_url : string;
  call_target : string
}.

Record State : Type := {
  page : Browser.State;
  waiting : list Call          (* in the order of the calls *)
}.

Definition with_manager (s : State) (m : TabManager.State) : State :=
  {| page := Browser.with_manager (page s) m; waiting := waiting s |}.

Definition manager (s : State) : TabManager.State := Browser.manager (page s).

(** [l] without its element number [k]. *)
Fixpoint remove_at {A : Type} (k : nat) (l : list A) : list A :=
  match l, k with
  | [], _ => []
  | _ :: l', O => l'
  | x :: l', S k' => x :: remove_at k' l'
  end.

Section Handlers.

Variable frameUrl : string -> option string.
Variable cleanUrl : string -> string.

(** [navigateToUrl(url, tabId = null)] up to its await. *)
Definition navigateToUrl (u : string) (tabId : option string) (s : State) : State :=
  {| page := page s;
     waiting := (waiting s
                 ++ [{| call_url := u;
                        call_target := Text.or_default tabId (currentTabId (manager s)) |}])%list
  |}.

(** [registerSW()] of the waiting call number [k] settles, with the answers
    [a] of the environment, and the call goes on. *)
Definition resume (k : nat) (a : Browser.Answers) (s : State) : State :=
  match List.nth_error (waiting s) k with
  | Some c =>
      {| page := Browser.proceed a (call_url c) (call_target c) (page s);
         waiting := remove_at k (waiting s) |}
  | None => s
  end.

(** [goBack()] and [goForward()].  (When [history[newIndex]] is undefined,
    which the history invariant excludes, the model stops at the index
    update.) *)
Definition goBack (s : State) : State :=
  match TabManager.goBack (manager s) with
  | (m, Some u) => navigateToUrl u None (with_manager s m)
  | (m, None) => with_manager s m
  end.

Definition goForward (s : State) : State :=
  match TabManager.goForward (manager s) with
  | (m, Some u) => navigateToUrl u None (with_manager s m)
  | (m, None) => with_manager s m
  end.

(** [refresh()] *)
Definition refresh (s : State) : State :=
  match JsMap.get (tabs (manager s)) (currentTabId (manager s)) with
  | Some tab =>
      match url tab with
      | Some u => if String.eqb u "" then s else navigateToUrl u None s
      | None => s
      end
  | None => s
  end.

(** [createNewTab()] *)
Definition createNewTab (s : State) : State :=
  with_manager s (fst (createTab frameUrl None "New Tab" (manager s))).

(** [navigateTo(url)] *)
Definition navigateTo (u : string) (s : State) : State :=
  if String.eqb (currentTabId (manager s)) "home" then
    let (m, newTabId) := createTab frameUrl (Some u) "Loading..." (manager s) in
    navigateToUrl u (Some newTabId) (with_manager s m)
  else navigateToUrl u None s.

(** The [submit] listener of the form: [address.value.trim()], then
    [navigateTo] when something is left.  ([trim] is the one of the server
    model: the same method.) *)
Definition onSubmit (address : string) (s : State) : State :=
  let u := Server.trim address in
  if String.eqb u "" then s else navigateTo u s.

(** The [keydown] listener with Ctrl or Meta held. *)
Definition onShortcut (key : string) (s : State) : State :=
  if String.eqb key "t" then createNewTab s
  else if String.eqb key "w" then
    if negb (String.eqb (currentTabId (manager s)) "home")
    then with_manager s (closeTab frameUrl (currentTabId (manager s)) (manager s))
    else s
  else if String.eqb key "r" then refresh s
  else s.

(** What happens on the page, one handler run at a time. *)
Inductive Event : Type :=
| Submit (address : string)            (* the form is submitted with this address *)
| Back                                 (* goBack() *)
| Forward                              (* goForward() *)
| Refresh                              (* refresh() *)
| NewTab                               (* createNewTab() *)
| Close (tabId : string)               (* closeTab(event, tabId) *)
| Select (tabId : string)              (* a click on a tab: switchToTab(tabId) *)
| Shortcut (key : string)              (* keydown with Ctrl or Meta *)
| UrlChange (frame : string) (rawUrl : string) (newTitle : option string)
                                       (* a urlChange message from the frame of a tab *)
| Settle (k : nat) (a : Browser.Answers).
                                       (* registerSW() of waiting call k settles *)

Definition on (e : Event) (s : State) : State :=
  match e with
  | Submit address => onSubmit address s
  | Back => goBack s
  | Forward => goForward s
  | Refresh => refresh s
  | NewTab => createNewTab s
  | Close tabId => with_manager s (closeTab frameUrl tabId (manager s))
  | Select tabId => with_manager s (switchToTab frameUrl tabId (manager s))
  | Shortcut key => onShortcut key s
  | UrlChange frame rawUrl newTitle =>
      {| page := Browser.onMessage cleanUrl frame rawUrl newTitle (page s);
         waiting := waiting s |}
  | Settle k a => resume k a s
  end.

Definition run (events : list Event) (s : State) : State :=
  List.fold_left (fun acc e => on e acc) events s.

End Handlers.

(** The page once its script and its [DOMContentLoaded] listener have run. *)
Definition start (page : Dom) : State :=
  {| page := Browser.start page; waiting := [] |}.

End EventLoop.

(** ** Conditions used by the properties of the browser code *)

Module Conditions.

Import TabManager.

(** The page markup has the home tab: its node in the strip, which holds no
    other tab node, and its panel. *)
Definition page_ok (page : Dom) : Prop :=
  tabsContainer page = ["home"] /\ In "tab-home" (mainContent page).

(** Tabs and document agree: every tab of the map refers to its own two
    nodes, both are in the document, and every tab node of the strip belongs
    to a tab of the map. *)
Definition nodes_ok (s : State) : Prop :=
  NoDup (JsMap.keys (tabs s)) /\
  (forall k tab, JsMap.get (tabs s) k = Some tab ->
     element tab = Some k /\ content tab = Some (panel_id k) /\
     In k (tabsContainer (dom s)) /\ In (panel_id k) (mainContent (dom s))) /\
  (forall x, In x (tabsContainer (dom s)) -> In x (JsMap.keys (tabs s))).

(** ... and the current identifier names a tab of the map. *)
Definition tabs_ok (s : State) : Prop :=
  nodes_ok s /\ In (currentTabId s) (JsMap.keys (tabs s)).

(** Tab identifiers are [home] or [tab-n] for a number the counter has
    passed. *)
Definition ids_ok (s : State) : Prop :=
  forall k, In k (JsMap.keys (tabs s)) ->
    k = "home" \/ exists n, n < tabCounter s /\ k = "tab-" ++ Text.decimal n.

Fixpoint count_of (x : string) (l : list string) : nat :=
  match l with
  | [] => 0
  | y :: l' => (if String.eqb y x then 1 else 0) + count_of x l'
  end.

Fixpoint no_listener_event (ops : list Op) : bool :=
  match ops with
  | [] => true
  | DomContentLoaded :: _ => false
  | _ :: ops' => no_listener_event ops'
  end.

Definition sw_ready : Browser.Answers :=
  {| Browser.registerSW := None; Browser.searchUrl_ok := true |}.






(** Two visits in a new tab, opened from the home tab, each left to
    finish. *)
Definition two_visits : Browser.State :=
  Browser.navigateTo (fun _ => None) sw_ready "b.example"
    (Browser.navigateTo (fun _ => None) sw_ready "a.example"
       (Browser.start Samples.sample_page)).



End Conditions.

(** ** The other methods of [CookieManager], and the cookie count *)

Module CookieOps.

Import CookieManager.

(** [deleteCookie(domain, name)].  A parsed value that is not falsy has no
    callable [delete]. *)
Definition deleteCookie (d n : string) (m : Manager) : outcome unit * Manager :=
  match JsMap.get (cookieStore m) d with
  | None => (Return tt, m)
  | Some (Parsed j) =>
      if falsy j then (Return tt, m)
      else (Throw (TypeError "domainCookies.delete is not a function"), m)
  | Some (CookieMap cookies) =>
      (Return tt,
       saveCookies (with_store m
         (JsMap.set (cookieStore m) d (CookieMap (JsMap.delete cookies n)))))
  end.

(** [clearAllCookies()] *)
Definition clearAllCookies (m : Manager) : Manager :=
  saveCookies (with_store m JsMap.empty).

(** The object [cookies] of [getCookiesForDomain]: a new [{}] filled by
    assignments [cookies[name] = value] of strings, as the list of its own
    properties in the order of creation.  An assignment to [__proto__]
    reaches the setter of [Object.prototype], which ignores a string: no
    property is made. *)
Definition assign (o : JsMap.t string) (k v : string) : JsMap.t string :=
  if String.eqb k "__proto__" then o else JsMap.set o k v.

(** A property name that is an array index: the decimal text, without a
    leading zero, of an integer from 0 to 2^32 - 2. *)
Fixpoint digits_value (s : string) (acc : N) : option N :=
  match s with
  | EmptyString => Some acc
  | String c s' =>
      if Text.is_digit c
      then digits_value s' (acc * 10 + N.of_nat (Text.code c - 48))%N
      else None
  end.

Definition array_index (k : string) : option N :=
  match k with
  | EmptyString => None
  | String c s' =>
      if Ascii.eqb c "0" then (if String.eqb s' "" then Some 0%N else None)
      else
        match digits_value k 0 with
        | Some n => if (n <=? 4294967294)%N then Some n else None
        | None => None
        end
  end.

Fixpoint insert_index (n : N) (e : string * string) (l : list (N * (string * string)))
  : list (N * (string * string)) :=
  match l with
  | [] => [(n, e)]
  | (n', e') :: l' =>
      if (n <? n')%N then (n, e) :: l else (n', e') :: insert_index n e l'
  end.

Fixpoint index_entries (o : JsMap.t string) : list (N * (string * string)) :=
  match o with
  | [] => []
  | e :: o' =>
      match array_index (fst e) with
      | Some n => insert_index n e (index_entries o')
      | None => index_entries o'
      end
  end.

(** [Object.entries(o)]: the array indices in ascending order, then the
    other names in the order of creation. *)
Definition own_entries (o : JsMap.t string) : list (string * string) :=
  (List.map snd (index_entries o)
   ++ List.filter (fun e => match array_index (fst e) with Some _ => false | None => true end) o)%list.

Section Clock.

Variable Date_parse : string -> option Z.

(** The loop of [getCookiesForDomain] over the entries of the [Map]: visit
    number [i] reads the clock at [now i]; an expired cookie is deleted from
    the [Map], the value of any other goes into the object. *)
Fixpoint visit (now : nat -> Z) (i : nat) (todo : list (string * Cookie))
  (cookies : JsMap.t Cookie) (obj : JsMap.t string) : JsMap.t Cookie * JsMap.t string :=
  match todo with
  | [] => (cookies, obj)
  | e :: rest =>
      if expired Date_parse (now i) (snd e)
      then visit now (S i) rest (JsMap.delete cookies (fst e)) obj
      else visit now (S i) rest cookies (assign obj (fst e) (value (snd e)))
  end.

(** [getCookiesForDomain(domain)]: the object returned and the manager
    afterwards.  A parsed value without a truthy [entries] gives [{}]; so
    does a parsed object with one, since its iteration throws in the [try].
    A parsed array is iterated element by element; that loop is left out:
    [None]. *)
Definition getCookiesForDomain (now : nat -> Z) (d : string) (m : Manager)
  : option (JsMap.t string * Manager) :=
  match JsMap.get (cookieStore m) d with
  | None => Some ([], m)
  | Some (Parsed (JArr _)) => None
  | Some (Parsed _) => Some ([], m)
  | Some (CookieMap cookies) =>
      let (cookies', obj) := visit now 0 cookies cookies [] in
      Some (obj,
            saveCookies (with_store m
              (JsMap.set (cookieStore m) d (CookieMap cookies'))))
  end.

(** [getCookieString(domain)] *)
Definition getCookieString (now : nat -> Z) (d : string) (m : Manager)
  : option (string * Manager) :=
  match getCookiesForDomain now d m with
  | Some (cookies, m') =>
      Some (String.concat "; "
              (List.map (fun e => fst e ++ "=" ++ snd e) (own_entries cookies)),
            m')
  | None => None
  end.

End Clock.

(** [s.split(sep)] for a separator of one unit. *)
Fixpoint split (sep : ascii) (s : string) : list string :=
  match s with
  | EmptyString => [EmptyString]
  | String c s' =>
      if Ascii.eqb c sep then EmptyString :: split sep s'
      else
        match split sep s' with
        | piece :: pieces => String c piece :: pieces
        | [] => [String c EmptyString]
        end
  end.

(** The argument [setCookieHeaders]: missing, one header, or an array. *)
Inductive HeaderArg : Type :=
| NoHeaders
| OneHeader (header : string)
| ManyHeaders (headers : list string).

Section Headers.

(** [maxAgeDate val]: the text of
    [new Date(Date.now() + parseInt(val) * 1000).toUTCString()]. *)
Variable maxAgeDate : option string -> string.

(** One attribute of a header: the [switch] on the lower-cased key.  (The
    case [domain] sets [options.domain], which [setCookie] never reads.) *)
Definition apply_attribute (options : Options) (part : string) : Options :=
  let pieces := split "=" (Server.trim part) in
  let key := List.hd "" pieces in
  let val := List.nth_error pieces 1 in
  let keyLower := Text.toLowerCase key in
  if String.eqb keyLower "domain" then options
  else if String.eqb keyLower "path" then
    {| opt_path := val; opt_expires := opt_expires options;
       opt_secure := opt_secure options; opt_httpOnly := opt_httpOnly options;
       opt_sameSite := opt_sameSite options |}
  else if String.eqb keyLower "expires" then
    {| opt_path := opt_path options; opt_expires := val;
       opt_secure := opt_secure options; opt_httpOnly := opt_httpOnly options;
       opt_sameSite := opt_sameSite options |}
  else if String.eqb keyLower "max-age" then
    {| opt_path := opt_path options; opt_expires := Some (maxAgeDate val);
       opt_secure := opt_secure options; opt_httpOnly := opt_httpOnly options;
       opt_sameSite := opt_sameSite options |}
  else if String.eqb keyLower "secure" then
    {| opt_path := opt_path options; opt_expires := opt_expires options;
       opt_secure := Some true; opt_httpOnly := opt_httpOnly options;
       opt_sameSite := opt_sameSite options |}
  else if String.eqb keyLower "httponly" then
    {| opt_path := opt_path options; opt_expires := opt_expires options;
       opt_secure := opt_secure options; opt_httpOnly := Some true;
       opt_sameSite := opt_sameSite options |}
  else if String.eqb keyLower "samesite" then
    {| opt_path := opt_path options; opt_expires := opt_expires options;
       opt_secure := opt_secure options; opt_httpOnly := opt_httpOnly options;
       opt_sameSite := val |}
  else options.

(** What one header asks to store: name, value and options, or nothing
    when the name or the value is missing or empty. *)
Definition parse_header (header : string) : option (string * string * Options) :=
  let parts := split ";" header in
  let nameValue := List.hd "" parts in
  let pieces := split "=" nameValue in
  let name := List.hd "" pieces in
  match List.nth_error pieces 1 with
  | Some value =>
      if String.eqb name "" || String.eqb value "" then None
      else Some (Server.trim name, Server.trim value,
                 List.fold_left apply_attribute (List.tl parts) no_options)
  | None => None
  end.

(** The callback of [headers.forEach], and the loop: an exception of
    [setCookie] ends it. *)
Fixpoint each_header (d : string) (headers : list string) (m : Manager)
  : outcome unit * Manager :=
  match headers with
  | [] => (Return tt, m)
  | header :: rest =>
      match parse_header header with
      | None => each_header d rest m
      | Some (name, value, options) =>
          match setCookie d name value options m with
          | (Return _, m') => each_header d rest m'
          | (Throw e, m') => (Throw e, m')
          end
      end
  end.

(** [parseSetCookieHeaders(domain, setCookieHeaders)] *)
Definition parseSetCookieHeaders (d : string) (setCookieHeaders : HeaderArg) (m : Manager)
  : outcome unit * Manager :=
  match setCookieHeaders with
  | NoHeaders => (Return tt, m)
  | OneHeader header =>
      if String.eqb header "" then (Return tt, m) else each_header d [header] m
  | ManyHeaders headers => each_header d headers m
  end.

End Headers.

(** [updateCookieCount()]: the text it computes for the count element.
    [domainCookies.size] is the size of a [Map], undefined on a parsed value
    without that property, and its reading throws on [null]; a number plus
    undefined is NaN.  A parsed object with a property [size] is left out:
    [None]. *)
Inductive Total : Type :=
| Count (n : nat)
| NaN.

Definition add_size (total : option (outcome Total)) (dc : DomainCookies)
  : option (outcome Total) :=
  match total with
  | Some (Return t) =>
      match dc with
      | CookieMap cookies =>
          Some (Return match t with Count n => Count (n + JsMap.size cookies) | NaN => NaN end)
      | Parsed JNull => Some (Throw (TypeError "Cannot read properties of null"))
      | Parsed (JObj props) => if JsMap.has props "size" then None else Some (Return NaN)
      | Parsed _ => Some (Return NaN)
      end
  | other => other
  end.

Definition total_text (t : Total) : string :=
  match t with
  | Count n => Text.decimal n
  | NaN => "NaN"
  end.

Definition updateCookieCount (m : Manager) : option (outcome string) :=
  match List.fold_left add_size (List.map snd (cookieStore m)) (Some (Return (Count 0))) with
  | Some (Return t) => Some (Return (total_text t ++ " cookies stored"))
  | Some (Throw e) => Some (Throw e)
  | None => None
  end.

(** The cookie monitor that the [load] listener of [navigateToUrl] starts
    for a frame: one run of [checkCookies].  [original] is the cookie text
    of the frame document when the listener ran, [current] the text now. *)
Definition store_pair (d : string) (text : string) (m : Manager) : outcome unit * Manager :=
  let pieces := split "=" (Server.trim text) in
  let name := List.hd "" pieces in
  match List.nth_error pieces 1 with
  | Some value =>
      if String.eqb name "" || String.eqb value "" then (Return tt, m)
      else setCookie d name value no_options m
  | None => (Return tt, m)
  end.

Fixpoint each_pair (d : string) (pairs : list string) (m : Manager)
  : outcome unit * Manager :=
  match pairs with
  | [] => (Return tt, m)
  | text :: rest =>
      match store_pair d text m with
      | (Return _, m') => each_pair d rest m'
      | (Throw e, m') => (Throw e, m')
      end
  end.

Definition checkCookies (d original current : string) (m : Manager)
  : outcome unit * Manager :=
  if String.eqb current original then (Return tt, m)
  else if String.eqb current "" then (Return tt, m)
  else each_pair d (split ";" current) m.

End CookieOps.

(** ** Conditions used by the properties of the cookie code *)

Module CookieConditions.

Import CookieManager.

(** The entries of a [Map] that the loop of [getCookiesForDomain] keeps:
    entry number [i] stays unless it is expired at the time of its visit. *)
Fixpoint unexpired (Date_parse : string -> option Z) (now : nat -> Z) (i : nat)
  (cookies : list (string * Cookie)) : list (string * Cookie) :=
  match cookies with
  | [] => []
  | e :: rest =>
      if expired Date_parse (now i) (snd e)
      then unexpired Date_parse now (S i) rest
      else e :: unexpired Date_parse now (S i) rest
  end.

(** Names and values of the cookies that an object can list. *)
Definition listed (cookies : list (string * Cookie)) : list (string * string) :=
  List.map (fun e => (fst e, value (snd e)))
    (List.filter (fun e => negb (String.eqb (fst e) "__proto__")) cookies).

(** No unit of [s] is [c]. *)
Definition no_unit (c : ascii) (s : string) : bool :=
  Samples.forall_chars (fun x => negb (Ascii.eqb x c)) s.

(** The cookies a store holds, over all domains that hold a [Map]. *)
Fixpoint cookie_total (store : JsMap.t DomainCookies) : nat :=
  match store with
  | [] => 0
  | (_, CookieMap cookies) :: rest => JsMap.size cookies + cookie_total rest
  | (_, Parsed _) :: rest => cookie_total rest
  end.

(** A name or value of a cookie pair as a document lists it: not empty,
    without white space, semicolon and equals sign. *)
Definition plain (s : string) : bool :=
  negb (String.eqb s "") &&
  Samples.forall_chars
    (fun c => negb (Server.white_space c) && negb (Ascii.eqb c ";") && negb (Ascii.eqb c "="))
    s.

(** [document.cookie] for a list of pairs. *)
Definition cookie_text (pairs : list (string * string)) : string :=
  String.concat "; " (List.map (fun p => fst p ++ "=" ++ snd p) pairs).

(** The [setCookie] calls that a list of pairs stands for. *)
Definition pair_calls (d : string) (pairs : list (string * string)) : list SetCall :=
  List.map (fun p => {| call_domain := d; call_name := fst p; call_value := snd p;
                        call_options := no_options |}) pairs.

End CookieConditions.

(** ** Sample upstream servers *)

Module Upstreams.

(** A platform whose upstream answers every fetch with the given headers
    and body. *)
Definition serving (headers : list (string * string)) (body : string) : Server.Platform :=
  {| Server.NodeURL := fun u =>
       if String.eqb u "http://example.com/" then Some Samples.example_target else None;
     Server.NodeURL_base := fun s base =>
       Some {| Server.href := Server.href base ++ s;
               Server.protocol := Server.protocol base;
               Server.hostname := Server.hostname base |};
     Server.fetch := fun _ _ =>
       Some {| Server.up_status := 200;
               Server.up_headers := headers;
               Server.up_body := body |};
     Server.unread := fun _ _ => None;
     Server.followed := fun _ => [] |}.

Definition image_headers : list (string * string) :=
  [("content-security-policy", "default-src https:"); ("content-type", "image/png");
   ("x-frame-options", "DENY"); ("etag", "abc"); ("content-length", "3")].

Definition sheet : string := "a { background: URL( 'img/a.png' ) }".

(** The loopback address of IPv6, as the parser returns it. *)
Definition loopback_target : Server.URL :=
  {| Server.href := "http://[::1]:9/secret"; Server.protocol := "http:";
     Server.hostname := "[::1]" |}.

(** A platform that parses the two sample addresses, answers every fetch,
    and follows the given redirects. *)
Definition answering (redirects : list string) : Server.Platform :=
  {| Server.NodeURL := fun u =>
       if String.eqb u "http://[::1]:9/secret" then Some loopback_target
       else if String.eqb u "http://example.com/" then Some Samples.example_target
       else None;
     Server.NodeURL_base := fun _ _ => None;
     Server.fetch := fun _ _ =>
       Some {| Server.up_status := 200;
               Server.up_headers := [("content-type", "text/plain")];
               Server.up_body := "secret" |};
     Server.unread := fun _ _ => None;
     Server.followed := fun _ => redirects |}.

(** A platform whose upstream sends the head of a page and then fails. *)
Definition failing_body : Server.Platform :=
  {| Server.NodeURL := fun u =>
       if String.eqb u "http://example.com/" then Some Samples.example_target else None;
     Server.NodeURL_base := fun _ _ => None;
     Server.fetch := fun _ _ => None;
     Server.unread := fun _ _ =>
       Some (200%Z, [("content-type", "text/html"); ("x-frame-options", "DENY");
                     ("etag", "abc")]);
     Server.followed := fun _ => [] |}.

End Upstreams.

(** ** The meta expression behind its first repetition *)

Module MetaTag.

Import Server.

(** What follows [<meta] and the first run of units in the expression. *)
Definition csp_rest (s2 : string) : option string :=
  match take_ci "http-equiv=" s2 with
  | Some (_, s3) =>
      one is_quote
        (fun _ s4 =>
           match take_ci "Content-Security-Policy" s4 with
           | Some (_, s5) =>
               one is_quote
                 (fun _ s6 =>
                    star_greedy (fun c => negb (Ascii.eqb c ">"))
                      (fun _ s7 => one (fun c => Ascii.eqb c ">") (fun _ s8 => Some s8) s7)
                      EmptyString s6) s5
           | None => None
           end) s3
  | None => None
  end.

(** A text without the closing bracket. *)
Definition no_bracket (s : string) : bool :=
  Samples.forall_chars (fun c => negb (Ascii.eqb c ">")) s.

End MetaTag.

(* ================================================================== *)
(** * Part II: properties *)
(* ================================================================== *)

(** ** Facts about the string methods *)

Lemma append_nil_r (s : string) : s ++ "" = s.
Proof.
  induction s as [|c s IH]; simpl; [reflexivity | now rewrite IH].
Qed.

Lemma append_assoc (a b c : string) : (a ++ b) ++ c = a ++ (b ++ c).
Proof.
  induction a as [|x a IH]; simpl; [reflexivity | now rewrite IH].
Qed.

(** [startsWith] decides "[p] followed by something". *)
Lemma startsWith_spec (s p : string) :
  Text.startsWith s p = true <-> exists rest, s = p ++ rest.
Proof.
  revert s. induction p as [|a p IH]; intros s; simpl.
  - split; [intros _; now exists s | reflexivity].
  - destruct s as [|b s].
    + split; [discriminate | intros [r H]; discriminate].
    + rewrite andb_true_iff, IH. split.
      * intros [Hab [r ->]]. apply Ascii.eqb_eq in Hab. subst b. now exists r.
      * intros [r H]. injection H as -> ->. split; [apply Ascii.eqb_refl | now exists r].
Qed.

Lemma startsWith_append (p rest : string) : Text.startsWith (p ++ rest) p = true.
Proof.
  apply startsWith_spec. now exists rest.
Qed.

(** [endsWith] decides "something followed by [p]". *)
Lemma endsWith_spec (s p : string) :
  Text.endsWith s p = true <-> exists front, s = front ++ p.
Proof.
  induction s as [|c s IH].
  - cbn [Text.endsWith]. rewrite orb_false_r. split.
    + intros H. apply String.eqb_eq in H. subst p. now exists "".
    + intros [front H]. destruct front; simpl in H; [|discriminate].
      subst p. reflexivity.
  - cbn [Text.endsWith]. rewrite orb_true_iff, IH, String.eqb_eq. split.
    + intros [<- | [front ->]].
      * now exists "".
      * now exists (String c front).
    + intros [front H]. destruct front as [|x front]; simpl in H.
      * now left.
      * injection H as -> ->. right. now exists front.
Qed.

Lemma endsWith_append (front p : string) : Text.endsWith (front ++ p) p = true.
Proof.
  apply endsWith_spec. now exists front.
Qed.

(** ** Facts about [JsMap] *)

Section JsMapFacts.
Context {V : Type}.
Implicit Types (m : JsMap.t V) (k : string) (v : V).

Lemma get_set_eq m k v : JsMap.get (JsMap.set m k v) k = Some v.
Proof.
  induction m as [|[k' v'] m IH]; simpl.
  - now rewrite String.eqb_refl.
  - destruct (String.eqb k' k) eqn:E; simpl; rewrite E; [reflexivity | exact IH].
Qed.

Lemma get_set_ne m k k' v : k <> k' -> JsMap.get (JsMap.set m k v) k' = JsMap.get m k'.
Proof.
  intros Hne. induction m as [|[k0 v0] m IH]; simpl.
  - apply String.eqb_neq in Hne. now rewrite Hne.
  - destruct (String.eqb k0 k) eqn:E; simpl.
    + apply String.eqb_eq in E. subst k0.
      apply String.eqb_neq in Hne. now rewrite Hne.
    + now rewrite IH.
Qed.

Lemma get_delete_ne m k k' : k <> k' -> JsMap.get (JsMap.delete m k) k' = JsMap.get m k'.
Proof.
  intros Hne. induction m as [|[k0 v0] m IH]; simpl; [reflexivity|].
  destruct (String.eqb k0 k) eqn:E; simpl.
  - apply String.eqb_eq in E. subst k0.
    apply String.eqb_neq in Hne. now rewrite Hne.
  - now rewrite IH.
Qed.

Lemma set_set m k v v' : JsMap.set (JsMap.set m k v) k v' = JsMap.set m k v'.
Proof.
  induction m as [|[k0 v0] m IH]; simpl.
  - now rewrite String.eqb_refl.
  - destruct (String.eqb k0 k) eqn:E; simpl; rewrite E; [reflexivity | now rewrite IH].
Qed.

Lemma get_none_not_in m k : JsMap.get m k = None <-> ~ In k (JsMap.keys m).
Proof.
  induction m as [|[k0 v0] m IH]; simpl.
  - tauto.
  - destruct (String.eqb k0 k) eqn:E.
    + apply String.eqb_eq in E. split; [discriminate | intros H; exfalso; apply H; now left].
    + apply String.eqb_neq in E. rewrite IH. tauto.
Qed.

Lemma keys_set_in m k v k' :
  In k' (JsMap.keys (JsMap.set m k v)) <-> k' = k \/ In k' (JsMap.keys m).
Proof.
  induction m as [|[k0 v0] m IH]; simpl.
  - intuition.
  - destruct (String.eqb k0 k) eqn:E; simpl.
    + apply String.eqb_eq in E. subst k0. intuition.
    + rewrite IH. intuition.
Qed.

Lemma keys_delete_in m k k' :
  In k' (JsMap.keys (JsMap.delete m k)) -> In k' (JsMap.keys m).
Proof.
  induction m as [|[k0 v0] m IH]; simpl; [tauto|].
  destruct (String.eqb k0 k); simpl; intuition.
Qed.

(** Keys stay unique under [set] and [delete]. *)
Lemma NoDup_set m k v : NoDup (JsMap.keys m) -> NoDup (JsMap.keys (JsMap.set m k v)).
Proof.
  induction m as [|[k0 v0] m IH]; simpl; intros H.
  - constructor; [simpl; tauto | constructor].
  - inversion H as [|? ? Hnin Hnd]; subst.
    destruct (String.eqb k0 k) eqn:E; simpl.
    + now constructor.
    + constructor; [|now apply IH].
      rewrite keys_set_in. apply String.eqb_neq in E. intuition.
Qed.

Lemma NoDup_delete m k : NoDup (JsMap.keys m) -> NoDup (JsMap.keys (JsMap.delete m k)).
Proof.
  induction m as [|[k0 v0] m IH]; simpl; intros H; [constructor|].
  inversion H as [|? ? Hnin Hnd]; subst.
  destruct (String.eqb k0 k); simpl; [assumption|].
  constructor; [|now apply IH].
  intros Hin. apply Hnin. eapply keys_delete_in; eassumption.
Qed.

Lemma get_delete_eq m k : NoDup (JsMap.keys m) -> JsMap.get (JsMap.delete m k) k = None.
Proof.
  induction m as [|[k0 v0] m IH]; simpl; intros H; [reflexivity|].
  inversion H as [|? ? Hnin Hnd]; subst.
  destruct (String.eqb k0 k) eqn:E; simpl.
  - apply String.eqb_eq in E. subst k0. now apply get_none_not_in.
  - rewrite E. now apply IH.
Qed.

Lemma size_set_pos m k v : 1 <= JsMap.size (JsMap.set m k v).
Proof.
  unfold JsMap.size. destruct m as [|[k0 v0] m]; simpl; [lia|].
  destruct (String.eqb k0 k); simpl; lia.
Qed.

(** [delete] of a key that is there takes exactly one entry away. *)
Lemma size_delete m k v :
  JsMap.get m k = Some v -> S (JsMap.size (JsMap.delete m k)) = JsMap.size m.
Proof.
  unfold JsMap.size. induction m as [|[k0 v0] m IH]; simpl; [discriminate|].
  destruct (String.eqb k0 k); simpl; [reflexivity|].
  intros H. now rewrite IH.
Qed.

End JsMapFacts.

(** ** TabManager: the history list *)

Import TabManager Samples.

(** [addToHistory] on a tab whose current index is [i], at least -1. *)
Lemma addToHistory_at (s : State) (t u : string) (i : Z) :
  position s t = Some i ->
  (-1 <= i)%Z ->
  let kept := List.firstn (Z.to_nat (i + 1)) (entries s t) in
  let s' := addToHistory t u s in
  entries s' t = (kept ++ [u])%list /\
  position s' t = Some (Z.of_nat (List.length (entries s' t)) - 1)%Z /\
  position s' t = Some (Z.of_nat (List.length kept)) /\
  List.nth_error (entries s' t) (List.length kept) = Some u.
Proof.
  intros Hpos Hi kept s'.
  assert (Hh : JsMap.get (history s') t = Some (kept ++ [u])%list /\
               JsMap.get (currentHistoryIndex s') t
               = Some (Z.of_nat (List.length (kept ++ [u])%list) - 1)%Z).
  { subst s' kept. unfold addToHistory, position, entries in *.
    destruct (JsMap.has (history s) t) eqn:Hhas; cbn [history currentHistoryIndex].
    - rewrite Hpos. unfold JsMap.has in Hhas.
      destruct (JsMap.get (history s) t) as [h|]; [|discriminate].
      unfold splice_from.
      assert (E : (i + 1 <? 0)%Z = false) by (apply Z.ltb_ge; lia).
      rewrite E, !get_set_eq. split; reflexivity.
    - injection Hpos as <-. unfold JsMap.has in Hhas.
      destruct (JsMap.get (history s) t) as [h|]; [discriminate|].
      rewrite !get_set_eq. cbn. split; reflexivity. }
  destruct Hh as [Hh Hidx].
  assert (He : entries s' t = (kept ++ [u])%list) by (unfold entries; now rewrite Hh).
  assert (Hp : position s' t = Some (Z.of_nat (List.length (kept ++ [u])%list) - 1)%Z).
  { unfold position, JsMap.has. now rewrite Hh. }
  rewrite He, Hp. repeat split.
  - f_equal. rewrite List.length_app. simpl. lia.
  - rewrite List.nth_error_app2 by lia. now rewrite Nat.sub_diag.
Qed.

(** *** The history invariant holds in every reachable state *)

Lemma maps_ok_set hm im t h i :
  maps_ok hm im -> (-1 <= i < Z.of_nat (List.length h))%Z ->
  maps_ok (JsMap.set hm t h) (JsMap.set im t i).
Proof.
  intros (Hh & Hi & Hsync) Hr. repeat split; try now apply NoDup_set.
  intros t' h' Hget. destruct (String.eqb_spec t t') as [<-|Hne].
  - rewrite get_set_eq in Hget. injection Hget as <-.
    exists i. now rewrite get_set_eq.
  - rewrite get_set_ne in Hget by assumption.
    rewrite get_set_ne by assumption. now apply Hsync.
Qed.

Lemma maps_ok_set_index hm im t h i :
  maps_ok hm im -> JsMap.get hm t = Some h ->
  (-1 <= i < Z.of_nat (List.length h))%Z ->
  maps_ok hm (JsMap.set im t i).
Proof.
  intros (Hh & Hi & Hsync) Hget Hr. repeat split; try assumption; try now apply NoDup_set.
  intros t' h' Hget'. destruct (String.eqb_spec t t') as [<-|Hne].
  - rewrite Hget in Hget'. injection Hget' as <-.
    exists i. now rewrite get_set_eq.
  - rewrite get_set_ne by assumption. now apply Hsync.
Qed.

Lemma maps_ok_delete hm im t :
  maps_ok hm im -> maps_ok (JsMap.delete hm t) (JsMap.delete im t).
Proof.
  intros (Hh & Hi & Hsync). repeat split; try now apply NoDup_delete.
  intros t' h' Hget. destruct (String.eqb_spec t t') as [<-|Hne].
  - rewrite get_delete_eq in Hget by assumption. discriminate.
  - rewrite get_delete_ne in Hget by assumption.
    rewrite get_delete_ne by assumption. now apply Hsync.
Qed.

Lemma switchToTab_fields frameUrl t s :
  tabs (switchToTab frameUrl t s) = tabs s /\
  history (switchToTab frameUrl t s) = history s /\
  currentHistoryIndex (switchToTab frameUrl t s) = currentHistoryIndex s.
Proof.
  unfold switchToTab.
  destruct (query t (tabsContainer (dom s))),
           (query (panel_id t) (mainContent (dom s))); cbn; auto.
Qed.

Lemma history_ok_switchToTab frameUrl t s :
  history_ok s -> history_ok (switchToTab frameUrl t s).
Proof.
  unfold history_ok. destruct (switchToTab_fields frameUrl t s) as (_ & -> & ->). auto.
Qed.

Lemma history_ok_constructor page : history_ok (constructor page).
Proof.
  unfold history_ok, constructor. cbn [history currentHistoryIndex].
  repeat split; try constructor. intros t h H. discriminate.
Qed.

Lemma history_ok_onDOMContentLoaded s : history_ok s -> history_ok (onDOMContentLoaded s).
Proof.
  unfold history_ok, onDOMContentLoaded. cbn [history currentHistoryIndex]. intros H.
  apply maps_ok_set; [exact H | simpl; lia].
Qed.

Lemma history_ok_addToHistory t u s : history_ok s -> history_ok (addToHistory t u s).
Proof.
  unfold history_ok, addToHistory. cbn [history currentHistoryIndex]. intros H.
  apply maps_ok_set.
  - destruct (JsMap.has (history s) t); [assumption|].
    apply maps_ok_set; [assumption | simpl; lia].
  - rewrite List.length_app. simpl. lia.
Qed.

Lemma history_ok_closeTab frameUrl t s : history_ok s -> history_ok (closeTab frameUrl t s).
Proof.
  intros H. unfold closeTab.
  destruct (Nat.leb _ 1); [assumption|].
  destruct (JsMap.get (tabs s) t) as [tab|]; [|assumption].
  destruct (element tab); [|assumption].
  destruct (content tab); [|assumption].
  assert (Hd : maps_ok (JsMap.delete (history s) t) (JsMap.delete (currentHistoryIndex s) t))
    by now apply maps_ok_delete.
  destruct (String.eqb (currentTabId s) t); [|exact Hd].
  cbn [tabs]. destruct (JsMap.keys _); apply history_ok_switchToTab; exact Hd.
Qed.

Lemma history_ok_goBack s : history_ok s -> history_ok (fst (goBack s)).
Proof.
  intros H. unfold goBack.
  destruct (JsMap.get (currentHistoryIndex s) (currentTabId s)) as [i|] eqn:Ei; [|assumption].
  destruct (0 <? i)%Z eqn:Epos; [|assumption].
  destruct (JsMap.get (history s) (currentTabId s)) as [h|] eqn:Eh; [|assumption].
  cbn [fst]. unfold history_ok, with_index. cbn [history currentHistoryIndex].
  eapply maps_ok_set_index; [exact H | exact Eh |].
  destruct H as (_ & _ & Hsync). destruct (Hsync _ _ Eh) as (i' & Hi' & Hr).
  rewrite Ei in Hi'. injection Hi' as <-. apply Z.ltb_lt in Epos. lia.
Qed.

Lemma history_ok_goForward s : history_ok s -> history_ok (fst (goForward s)).
Proof.
  intros H. unfold goForward.
  destruct (JsMap.get (history s) (currentTabId s)) as [h|] eqn:Eh; [|assumption].
  destruct (JsMap.get (currentHistoryIndex s) (currentTabId s)) as [i|] eqn:Ei; [|assumption].
  destruct (i <? Z.of_nat (List.length h) - 1)%Z eqn:Elt; [|assumption].
  cbn [fst]. unfold history_ok, with_index. cbn [history currentHistoryIndex].
  eapply maps_ok_set_index; [exact H | exact Eh |].
  destruct H as (_ & _ & Hsync). destruct (Hsync _ _ Eh) as (i' & Hi' & Hr).
  rewrite Ei in Hi'. injection Hi' as <-. apply Z.ltb_lt in Elt. lia.
Qed.

Lemma history_ok_step frameUrl o s : history_ok s -> history_ok (step frameUrl o s).
Proof.
  intros H. destruct o; cbn [step].
  - now apply history_ok_onDOMContentLoaded.
  - unfold createTab. cbn [fst]. apply history_ok_switchToTab.
    unfold history_ok. cbn [history currentHistoryIndex].
    apply maps_ok_set; [exact H | simpl; lia].
  - now apply history_ok_closeTab.
  - now apply history_ok_switchToTab.
  - unfold updateTabTitle. destruct (JsMap.get _ _); exact H.
  - unfold updateTabUrl. destruct (JsMap.get _ _); exact H.
  - now apply history_ok_addToHistory.
  - now apply history_ok_goBack.
  - now apply history_ok_goForward.
Qed.

Lemma history_ok_run frameUrl ops s : history_ok s -> history_ok (run frameUrl ops s).
Proof.
  revert s. induction ops as [|o ops IH]; intros s H; [exact H|].
  apply IH. now apply history_ok_step.
Qed.

(** In a reachable state every tab has a current index between -1 and the
    last position of its list. *)
Lemma reachable_position frameUrl page ops t :
  let s := run frameUrl ops (constructor page) in
  exists i, position s t = Some i /\
            (-1 <= i < Z.of_nat (List.length (entries s t)))%Z.
Proof.
  cbv zeta.
  pose proof (history_ok_run frameUrl ops _ (history_ok_constructor page)) as (_ & _ & Hsync).
  unfold position, entries, JsMap.has.
  destruct (JsMap.get (history _) t) as [h|] eqn:E.
  - destruct (Hsync _ _ E) as (i & Hi & Hr). exists i. split; [exact Hi | lia].
  - exists (-1)%Z. split; [reflexivity | simpl; lia].
Qed.

(** C4. In every state a manager can reach, [addToHistory(t, u)] keeps the
    entries of [t] up to its current index [i], drops every entry behind it
    (the forward history), puts [u] last and makes the index point at [u],
    the last position.  A tab without a list starts from the empty list and
    index -1. *)
Theorem addToHistory_truncates_then_appends
  (frameUrl : string -> option string) (page : Dom) (ops : list Op) (t u : string) :
  let s := run frameUrl ops (constructor page) in
  let s' := addToHistory t u s in
  exists i,
    position s t = Some i /\
    (-1 <= i < Z.of_nat (List.length (entries s t)))%Z /\
    entries s' t = (List.firstn (Z.to_nat (i + 1)) (entries s t) ++ [u])%list /\
    position s' t = Some (Z.of_nat (List.length (entries s' t)) - 1)%Z /\
    List.nth_error (entries s' t) (List.length (entries s' t) - 1) = Some u.
Proof.
  cbv zeta.
  destruct (reachable_position frameUrl page ops t) as (i & Hpos & Hr).
  exists i. split; [exact Hpos|]. split; [exact Hr|].
  destruct (addToHistory_at _ t u i Hpos ltac:(lia)) as (He & Hp & _ & Hn).
  split; [exact He|]. split; [exact Hp|].
  rewrite He in *. rewrite List.length_app, Nat.add_sub. exact Hn.
Qed.

(** Visiting [a] then [b] on the home tab, going back, then visiting [c]:
    [b] is dropped. *)
Lemma addToHistory_truncates_then_appends_witness :
  entries sample_back "home" = ["a"; "b"] /\
  position sample_back "home" = Some 0%Z /\
  entries (addToHistory "home" "c" sample_back) "home" = ["a"; "c"] /\
  position (addToHistory "home" "c" sample_back) "home" = Some 1%Z.
Proof.
  split; [reflexivity|]. split; [reflexivity|].
  destruct (addToHistory_truncates_then_appends (fun _ => None) sample_page
              [DomContentLoaded; AddToHistory "home" "a"; AddToHistory "home" "b"; GoBack]
              "home" "c") as (i & Hpos & _ & He & Hp & _).
  injection Hpos as <-.
  split; [exact He | exact Hp].
Defined.

(** ** TabManager: the last tab is never closed *)

Lemma closeTab_last_tab frameUrl tabId s :
  JsMap.size (tabs s) <= 1 -> closeTab frameUrl tabId s = s.
Proof.
  intros H. unfold closeTab.
  apply Nat.leb_le in H. now rewrite H.
Qed.

Lemma closeTab_size frameUrl tabId s :
  1 <= JsMap.size (tabs s) -> 1 <= JsMap.size (tabs (closeTab frameUrl tabId s)).
Proof.
  intros H. unfold closeTab.
  destruct (Nat.leb (JsMap.size (tabs s)) 1) eqn:E; [exact H|].
  apply Nat.leb_gt in E.
  destruct (JsMap.get (tabs s) tabId) as [tab|] eqn:Eg; [|exact H].
  destruct (element tab); [|exact H].
  destruct (content tab); [|exact H].
  pose proof (size_delete _ _ _ Eg) as Hd.
  destruct (String.eqb (currentTabId s) tabId); cbn [tabs].
  - destruct (JsMap.keys _);
      match goal with
      | |- context [switchToTab ?f ?t ?x] =>
          destruct (switchToTab_fields f t x) as (-> & _ & _)
      end; cbn [tabs]; lia.
  - lia.
Qed.

Lemma tabs_size_step frameUrl o s :
  1 <= JsMap.size (tabs s) -> 1 <= JsMap.size (tabs (step frameUrl o s)).
Proof.
  intros H. destruct o; cbn [step].
  - unfold onDOMContentLoaded. cbn [tabs]. apply size_set_pos.
  - unfold createTab. cbn [fst].
    match goal with
    | |- context [switchToTab ?f ?t ?x] =>
        destruct (switchToTab_fields f t x) as (-> & _ & _)
    end. cbn [tabs]. apply size_set_pos.
  - now apply closeTab_size.
  - destruct (switchToTab_fields frameUrl tabId s) as (-> & _ & _). exact H.
  - unfold updateTabTitle. destruct (JsMap.get _ _); [|exact H].
    cbn [with_tabs tabs]. apply size_set_pos.
  - unfold updateTabUrl. destruct (JsMap.get _ _); [|exact H].
    cbn [with_tabs tabs]. apply size_set_pos.
  - exact H.
  - unfold goBack.
    destruct (JsMap.get (currentHistoryIndex s) _); [|exact H].
    destruct (0 <? _)%Z; [|exact H].
    destruct (JsMap.get (history s) _); exact H.
  - unfold goForward.
    destruct (JsMap.get (history s) _); [|exact H].
    destruct (JsMap.get (currentHistoryIndex s) _); [|exact H].
    destruct (_ <? _)%Z; exact H.
Qed.

Lemma tabs_size_run frameUrl ops s :
  1 <= JsMap.size (tabs s) -> 1 <= JsMap.size (tabs (run frameUrl ops s)).
Proof.
  revert s. induction ops as [|o ops IH]; intros s H; [exact H|].
  apply IH. now apply tabs_size_step.
Qed.

(** C9, as the code has it.  A manager that holds a tab never loses its
    last one: from any state with at least one tab, and so from the state in
    which the page has registered its home tab, every sequence of operations
    leaves at least one tab.  [closeTab] called with at most one tab returns
    the state (maps and document) as it was. *)
Theorem closeTab_never_closes_last_tab (frameUrl : string -> option string) :
  (forall s ops, 1 <= JsMap.size (tabs s) ->
                 1 <= JsMap.size (tabs (run frameUrl ops s))) /\
  (forall page ops, 1 <= JsMap.size (tabs (run frameUrl ops (initial page)))) /\
  (forall s tabId, JsMap.size (tabs s) <= 1 -> closeTab frameUrl tabId s = s).
Proof.
  split; [|split].
  - intros s ops. apply tabs_size_run.
  - intros page ops. apply tabs_size_run.
    unfold initial, onDOMContentLoaded. cbn [tabs]. apply size_set_pos.
  - intros s tabId. apply closeTab_last_tab.
Qed.

(** The claim read literally fails for the manager as constructed: until the
    [DOMContentLoaded] listener has run, [tabs] is empty, and [closeTab]
    leaves it so. *)
Lemma constructed_manager_has_no_tab :
  JsMap.size (tabs (run (fun _ => None) [] (constructor sample_page))) = 0 /\
  JsMap.size (tabs (run (fun _ => None) [CloseTab "home"] (constructor sample_page))) = 0.
Proof.
  split; reflexivity.
Qed.

Lemma closeTab_never_closes_last_tab_witness :
  closeTab (fun _ => None) "home" (initial sample_page) = initial sample_page /\
  JsMap.keys (tabs (run (fun _ => None)
                        [CreateTab None "New Tab"; CloseTab "home"; CloseTab "tab-1"]
                        (initial sample_page))) = ["tab-1"].
Proof.
  split.
  - apply (proj2 (proj2 (closeTab_never_closes_last_tab (fun _ => None)))).
    vm_compute. lia.
  - reflexivity.
Defined.

(** ** CookieManager *)

Import CookieManager.

(** *** Within one page load: every domain holds a [Map] *)

Lemma get_in {V : Type} (m : JsMap.t V) k v : JsMap.get m k = Some v -> In (k, v) m.
Proof.
  induction m as [|[k0 v0] m IH]; simpl; [discriminate|].
  destruct (String.eqb_spec k0 k) as [->|Hne].
  - intros H. injection H as ->. now left.
  - intros H. right. now apply IH.
Qed.

Lemma in_set {V : Type} (m : JsMap.t V) k v e :
  In e (JsMap.set m k v) -> e = (k, v) \/ In e m.
Proof.
  induction m as [|[k0 v0] m IH]; simpl.
  - intros [<-|[]]. now left.
  - destruct (String.eqb_spec k0 k) as [->|Hne]; simpl.
    + intros [<-|H]; [now left | right; now right].
    + intros [<-|H]; [right; now left |].
      destruct (IH H) as [->|Hin]; [now left | right; now right].
Qed.

Lemma all_maps_empty : all_maps JsMap.empty.
Proof.
  intros e [].
Qed.

Lemma all_maps_get store d dc : all_maps store -> JsMap.get store d = Some dc -> is_map dc.
Proof.
  intros H Hget. exact (H _ (get_in _ _ _ Hget)).
Qed.

Lemma all_maps_set store d cookies :
  all_maps store -> NoDup (JsMap.keys cookies) ->
  all_maps (JsMap.set store d (CookieMap cookies)).
Proof.
  intros H Hnd e Hin. destruct (in_set _ _ _ _ Hin) as [->|Hin'].
  - now exists cookies.
  - now apply H.
Qed.

(** What [setCookie] does when the domain holds a [Map] or nothing. *)
Lemma setCookie_on_maps d n v options m :
  all_maps (cookieStore m) ->
  exists cookies,
    let cookies' := JsMap.set cookies n (new_cookie d v options) in
    NoDup (JsMap.keys cookies) /\
    (JsMap.get (cookieStore m) d = Some (CookieMap cookies) \/
     JsMap.get (cookieStore m) d = None /\ cookies = JsMap.empty) /\
    setCookie d n v options m =
      (Return tt,
       saveCookies (with_store m (JsMap.set (cookieStore m) d (CookieMap cookies')))).
Proof.
  intros Hall. unfold setCookie, JsMap.has.
  destruct (JsMap.get (cookieStore m) d) as [dc|] eqn:E.
  - destruct (all_maps_get _ _ _ Hall E) as (cookies & -> & Hnd). exists cookies. cbn zeta.
    rewrite E. repeat split; auto.
  - exists JsMap.empty. cbn zeta. rewrite get_set_eq. repeat split.
    + constructor.
    + now right.
    + now rewrite set_set.
Qed.

Lemma setCookie_keeps_maps d n v options m :
  all_maps (cookieStore m) -> all_maps (cookieStore (snd (setCookie d n v options m))).
Proof.
  intros Hall. destruct (setCookie_on_maps d n v options m Hall) as (cookies & Hnd & _ & ->).
  cbn. apply all_maps_set; [assumption | now apply NoDup_set].
Qed.

Lemma run_sets_keeps_maps calls m :
  all_maps (cookieStore m) -> all_maps (cookieStore (run_sets calls m)).
Proof.
  revert m. induction calls as [|c calls IH]; intros m H; [exact H|].
  apply IH. now apply setCookie_keeps_maps.
Qed.

(** X1. Set, then get, within one page load (every domain of the store
    holds a [Map]): [setCookie] with no options returns, [getCookie] then
    returns the value, and the stored record has the defaults path [/],
    secure false, httpOnly false, sameSite [Lax]. *)
Lemma setCookie_then_getCookie_on_maps Date_parse now d n v m :
  all_maps (cookieStore m) ->
  let m' := snd (setCookie d n v no_options m) in
  fst (setCookie d n v no_options m) = Return tt /\
  fst (getCookie Date_parse now d n m') = Return (Some v) /\
  exists cookies, JsMap.get (cookieStore m') d = Some (CookieMap cookies) /\
                  JsMap.get cookies n = Some (default_cookie d v).
Proof.
  intros Hall. destruct (setCookie_on_maps d n v no_options m Hall) as (cookies & _ & _ & ->).
  cbn [fst snd]. split; [reflexivity|].
  unfold getCookie. cbn [saveCookies with_store cookieStore].
  rewrite get_set_eq, get_set_eq. cbn. split; [reflexivity|].
  eexists. split; [reflexivity|]. now rewrite get_set_eq.
Qed.

(** X2. Within one page load, [getCookie] returns null exactly when the
    domain has no entry, the domain has no cookie of that name, or the cookie
    has an expiry date that lies before the time of the call. *)
Lemma getCookie_null_iff_on_maps Date_parse now d n m :
  all_maps (cookieStore m) ->
  (fst (getCookie Date_parse now d n m) = Return None <->
   JsMap.get (cookieStore m) d = None \/
   (exists cookies, JsMap.get (cookieStore m) d = Some (CookieMap cookies) /\
                    JsMap.get cookies n = None) \/
   (exists cookies c, JsMap.get (cookieStore m) d = Some (CookieMap cookies) /\
                      JsMap.get cookies n = Some c /\
                      expired Date_parse now c = true)).
Proof.
  intros Hall. unfold getCookie.
  destruct (JsMap.get (cookieStore m) d) as [dc|] eqn:E.
  - destruct (all_maps_get _ _ _ Hall E) as (cookies & -> & _).
    destruct (JsMap.get cookies n) as [c|] eqn:Ec.
    + destruct (expired Date_parse now c) eqn:Ex; cbn [fst]; split.
      * intros _. right. right. now exists cookies, c.
      * reflexivity.
      * discriminate.
      * intros [H | [(cs & H & Hn) | (cs & c' & H & Hc & Hx)]]; try discriminate.
        -- injection H as <-. congruence.
        -- injection H as <-. congruence.
    + cbn [fst]. split; [|reflexivity].
      intros _. right. left. now exists cookies.
  - cbn [fst]. split; [now left | reflexivity].
Qed.

(** X3. Within one page load, reading an expired cookie deletes it from
    the store and writes the store out again. *)
Lemma getCookie_expired_on_maps Date_parse now d n m cookies c :
  all_maps (cookieStore m) ->
  JsMap.get (cookieStore m) d = Some (CookieMap cookies) ->
  JsMap.get cookies n = Some c ->
  expired Date_parse now c = true ->
  let m' := snd (getCookie Date_parse now d n m) in
  attributes_of (cookieStore m') d n = None /\
  JsMap.get (localStorage m') storage_key = Some (stringify_store (cookieStore m')).
Proof.
  intros Hall E Ec Ex. unfold getCookie. rewrite E, Ec, Ex.
  cbn [snd saveCookies with_store cookieStore localStorage]. split.
  - unfold attributes_of. rewrite get_set_eq.
    destruct (all_maps_get _ _ _ Hall E) as (cs & Hcs & Hnd). injection Hcs as <-.
    now rewrite get_delete_eq.
  - now rewrite get_set_eq.
Qed.

(** *** Across page loads: what [saveCookies] writes and [loadCookies] reads *)

(** The text written for a store of [Map]s names the domains and nothing
    else. *)
Lemma stringify_store_on_maps store :
  all_maps store ->
  stringify_store store = JObj (List.map (fun e => (fst e, JObj [])) store).
Proof.
  intros Hall. unfold stringify_store. f_equal.
  apply List.map_ext_in. intros e Hin.
  destruct (Hall _ Hin) as (cookies & -> & _). reflexivity.
Qed.

Lemma Map_of_entries_values (Q : DomainCookies -> Prop) es acc :
  (forall e, In e acc -> Q (snd e)) ->
  (forall e, In e es -> Q (Parsed (snd e))) ->
  forall e, In e (List.fold_left
                    (fun a x => JsMap.set a (fst x) (Parsed (snd x))) es acc) ->
            Q (snd e).
Proof.
  revert acc. induction es as [|x es IH]; intros acc Hacc Hes e Hin; simpl in Hin.
  - now apply Hacc.
  - eapply IH; [| |exact Hin].
    + intros e' Hin'. destruct (in_set _ _ _ _ Hin') as [->|H'].
      * apply Hes. now left.
      * now apply Hacc.
    + intros e' Hin'. apply Hes. now right.
Qed.

(** After a reload, every domain holds the empty parsed object: no cookie
    of a store of [Map]s survives. *)
Lemma reload_forgets m d n :
  all_maps (cookieStore m) ->
  attributes_of (cookieStore (loadCookies (saveCookies m))) d n = None.
Proof.
  intros Hall. unfold loadCookies, saveCookies. cbn [localStorage cookieStore].
  rewrite get_set_eq, stringify_store_on_maps by assumption.
  cbn [Object_entries cookieStore]. unfold attributes_of.
  destruct (JsMap.get _ d) as [dc|] eqn:E; [|reflexivity].
  apply get_in in E.
  apply (Map_of_entries_values (fun x => x = Parsed (JObj []))) in E.
  - cbn in E. now subst dc.
  - intros e [].
  - intros e Hin. apply List.in_map_iff in Hin. destruct Hin as (x & <- & _). reflexivity.
Qed.

(** The next page load constructs its manager from what was saved. *)
Lemma constructor_after_save m :
  cookieStore (constructor (localStorage (saveCookies m)))
  = cookieStore (loadCookies (saveCookies m)).
Proof.
  unfold constructor, loadCookies, saveCookies. cbn [localStorage cookieStore].
  rewrite get_set_eq. reflexivity.
Qed.

Lemma setCookie_records_attributes d n v options m :
  all_maps (cookieStore m) ->
  attributes_of (cookieStore (snd (setCookie d n v options m))) d n
  = Some (cookie_json (new_cookie d v options)).
Proof.
  intros Hall. destruct (setCookie_on_maps d n v options m Hall) as (cookies & _ & _ & ->).
  cbn. unfold attributes_of. now rewrite !get_set_eq.
Qed.

(** X4. For every session of [setCookie] calls that starts from empty
    storage: the cookie of the last call is in the store, and is gone from
    the store that the next page load reads back. *)
Lemma reload_forgets_session calls c :
  let m := run_sets (calls ++ [c]) (constructor JsMap.empty) in
  attributes_of (cookieStore m) (call_domain c) (call_name c)
  = Some (cookie_json (new_cookie (call_domain c) (call_value c) (call_options c))) /\
  attributes_of (cookieStore (constructor (localStorage m))) (call_domain c) (call_name c)
  = None.
Proof.
  cbv zeta. unfold run_sets. rewrite List.fold_left_app. cbn [List.fold_left].
  fold (run_sets calls (constructor JsMap.empty)).
  set (m0 := run_sets calls (constructor JsMap.empty)).
  assert (H0 : all_maps (cookieStore m0))
    by (apply run_sets_keeps_maps, all_maps_empty).
  split; [now apply setCookie_records_attributes|].
  destruct (setCookie_on_maps (call_domain c) (call_name c) (call_value c)
              (call_options c) m0 H0) as (cookies & Hnd & _ & E).
  rewrite E. cbn [snd]. set (m1 := with_store m0 _).
  assert (H1 : all_maps (cookieStore m1))
    by (apply all_maps_set; [assumption | now apply NoDup_set]).
  rewrite constructor_after_save. now apply reload_forgets.
Qed.

(** C1. Saving and reloading does not give the store back.  On the first
    page load the manager stores cookie [sid] of [example.com]; the text
    [saveCookies] writes under [novanet_cookies] is the object that maps
    [example.com] to the empty object (the inner [Map] has no property that
    [JSON.stringify] lists); [loadCookies] reads back a store in which
    [example.com] has no cookie at all. *)
Theorem saveCookies_loadCookies_loses_cookies :
  attributes_of (cookieStore first_visit) "example.com" "sid"
    = Some (cookie_json (default_cookie "example.com" "42")) /\
  JsMap.get (localStorage (saveCookies first_visit)) storage_key
    = Some (JObj [("example.com", JObj [])]) /\
  cookieStore (loadCookies (saveCookies first_visit))
    = [("example.com", Parsed (JObj []))] /\
  attributes_of (cookieStore (loadCookies (saveCookies first_visit))) "example.com" "sid"
    = None /\
  cookieStore (loadCookies (saveCookies first_visit)) <> cookieStore first_visit.
Proof.
  repeat split; try reflexivity.
  intros H. vm_compute in H. discriminate H.
Qed.

(** C6. [setCookie] followed by [getCookie] does not return the value on a
    page load that found cookies of the domain in local storage: the
    domain's entry is the parsed object, not a [Map], [setCookie] ends with
    a TypeError before it stores anything, and the cookie is not there
    afterwards. *)
Theorem setCookie_throws_after_reload :
  cookieStore second_visit = [("example.com", Parsed (JObj []))] /\
  setCookie "example.com" "lang" "en" no_options second_visit
    = (Throw (TypeError "domainCookies.set is not a function"), second_visit) /\
  attributes_of
    (cookieStore (snd (setCookie "example.com" "lang" "en" no_options second_visit)))
    "example.com" "lang" = None.
Proof.
  repeat split; reflexivity.
Qed.

(** C10. On the same page load [getCookie] does not return null for a
    cookie the domain does not have: the lookup on the parsed object ends
    with a TypeError, whatever the clock says. *)
Theorem getCookie_throws_after_reload (Date_parse : string -> option Z) (now : Z) :
  attributes_of (cookieStore second_visit) "example.com" "sid" = None /\
  getCookie Date_parse now "example.com" "sid" second_visit
    = (Throw (TypeError "domainCookies.get is not a function"), second_visit) /\
  fst (getCookie Date_parse now "example.com" "sid" second_visit) <> Return None.
Proof.
  repeat split; try reflexivity. discriminate.
Qed.

(** ** Navigation: retries *)

Import Navigation.

Lemma handle_counts e n :
  n <= maxRetries ->
  fst (handle e n) = n + retries (snd (handle e n)) /\ fst (handle e n) <= maxRetries.
Proof.
  intros Hn. unfold handle.
  destruct e; destruct (Nat.ltb n maxRetries) eqn:E;
    try apply Nat.ltb_lt in E; cbn; lia.
Qed.

Lemma retries_app a b : retries (a ++ b)%list = retries a + retries b.
Proof.
  unfold retries. now rewrite List.filter_app, List.length_app.
Qed.

Lemma handle_all_counts events n :
  n <= maxRetries ->
  fst (handle_all events n) = n + retries (snd (handle_all events n)) /\
  fst (handle_all events n) <= maxRetries.
Proof.
  revert n. induction events as [|e events IH]; intros n Hn; cbn [handle_all].
  - cbn. lia.
  - destruct (handle_counts e n Hn) as [H1 H2].
    destruct (handle e n) as [n1 acts1]. cbn [fst snd] in H1, H2.
    destruct (IH n1 H2) as [H3 H4].
    destruct (handle_all events n1) as [n2 acts2]. cbn [fst snd] in *.
    rewrite retries_app. lia.
Qed.

(** C8. At every point of a navigation the shared counter equals the number
    of retries made so far, and that number is at most [maxRetries] = 3.  A
    failed connection attempt or a frame load error that comes next is
    retried (one retry, counter up by one) while the counter is below 3; once
    it is 3 the handler shows an error message and schedules nothing. *)
Theorem navigation_retries_at_most_three (events : list Event) :
  let n := fst (navigation events) in
  let acts := snd (navigation events) in
  n = retries acts /\
  retries acts <= 3 /\
  forall e,
    is_failure e = true ->
    (n < 3 -> exists a, handle e n = (S n, [a]) /\ is_retry a = true) /\
    (n = 3 -> exists message code, handle e n = (n, [ShowError message code])).
Proof.
  cbv zeta. unfold navigation.
  destruct (handle_all_counts events 0) as [H1 H2]; [unfold maxRetries; lia|].
  unfold maxRetries in *. cbn [Nat.add] in H1.
  split; [exact H1|]. split; [lia|].
  intros e He. set (n := fst (handle_all events 0)) in *. split.
  - intros Hlt. unfold handle, maxRetries.
    apply Nat.ltb_lt in Hlt. rewrite Hlt.
    destruct e; try discriminate He; eexists; split; reflexivity.
  - intros ->. destruct e; try discriminate He; cbn; do 2 eexists; reflexivity.
Qed.

(** Four connection failures in a row: three retries, then the error. *)
Lemma navigation_retries_at_most_three_witness :
  snd (navigation [ConnectionFailed "e1"; ConnectionFailed "e2";
                   ConnectionFailed "e3"; ConnectionFailed "e4"])
  = [ScheduleReconnect; ScheduleReconnect; ScheduleReconnect;
     ShowError "Connection failed. Please try again." "e4"] /\
  exists message code,
    handle IframeError 3 = (3, [ShowError message code]).
Proof.
  split; [reflexivity|].
  pose proof (navigation_retries_at_most_three
                [ConnectionFailed "e1"; ConnectionFailed "e2"; ConnectionFailed "e3"])
    as (_ & _ & H).
  exact (proj2 (H IframeError eq_refl) eq_refl).
Defined.

(** ** Server: the listeners of the server factory *)

Import Server.

Lemma coop_key : Text.toLowerCase "Cross-Origin-Opener-Policy" = "cross-origin-opener-policy".
Proof. reflexivity. Qed.

Lemma coep_key : Text.toLowerCase "Cross-Origin-Embedder-Policy" = "cross-origin-embedder-policy".
Proof. reflexivity. Qed.

(** C2. For an address that does not start with [/ads/], the response the
    listener hands to the handler, whatever the handler is, carries
    [Cross-Origin-Opener-Policy: same-origin] and
    [Cross-Origin-Embedder-Policy: require-corp]; for an address that starts
    with [/ads/] the listener sets no header: the handler receives the
    response untouched. *)
Theorem request_listener_isolation_headers (url : string) (res : Headers) :
  ((forall rest, url <> "/ads/" ++ rest) ->
   exists res',
     (forall (R : Type) (handler : string -> Headers -> R),
        onRequest handler url res = handler url res') /\
     getHeader res' "Cross-Origin-Opener-Policy" = Some "same-origin" /\
     getHeader res' "Cross-Origin-Embedder-Policy" = Some "require-corp") /\
  ((exists rest, url = "/ads/" ++ rest) ->
   forall (R : Type) (handler : string -> Headers -> R),
     onRequest handler url res = handler url res).
Proof.
  unfold onRequest. split.
  - intros Hno.
    destruct (Text.startsWith url "/ads/") eqn:E.
    + apply startsWith_spec in E. destruct E as [rest ->]. now destruct (Hno rest).
    + cbn [negb]. eexists. split; [reflexivity|].
      unfold getHeader, setHeader. rewrite coop_key, coep_key. split.
      * rewrite get_set_ne by discriminate. apply get_set_eq.
      * apply get_set_eq.
  - intros Hyes R handler. apply startsWith_spec in Hyes. now rewrite Hyes.
Qed.

Lemma request_listener_isolation_headers_witness :
  (exists res',
     onRequest (fun _ res => res) "/index.html" [] = res' /\
     getHeader res' "cross-origin-opener-policy" = Some "same-origin" /\
     getHeader res' "cross-origin-embedder-policy" = Some "require-corp") /\
  onRequest (fun _ res => res) "/ads/proxy?u=x" [] = [].
Proof.
  split.
  - destruct (proj1 (request_listener_isolation_headers "/index.html" []))
      as (res' & H1 & H2 & H3).
    + intros rest H. discriminate H.
    + exists res'. repeat split; try assumption.
      exact (H1 Headers (fun _ res => res)).
  - apply (proj2 (request_listener_isolation_headers "/ads/proxy?u=x" [])).
    now exists "proxy?u=x".
Defined.

(** C7. An upgrade request goes to the wisp handler exactly when its
    address ends with [/wisp/]; for every other address the listener ends
    the socket and routes nothing. *)
Theorem upgrade_listener_routes_wisp_only (url : string) :
  (onUpgrade url = RouteRequest url <-> exists front, url = front ++ "/wisp/") /\
  ((forall front, url <> front ++ "/wisp/") -> onUpgrade url = SocketEnd).
Proof.
  unfold onUpgrade. destruct (Text.endsWith url "/wisp/") eqn:E.
  - apply endsWith_spec in E. split.
    + split; [intros _; exact E | reflexivity].
    + intros Hno. destruct E as [front ->]. now destruct (Hno front).
  - split; [|reflexivity]. split; [discriminate|].
    intros H. apply endsWith_spec in H. congruence.
Qed.

Lemma upgrade_listener_routes_wisp_only_witness :
  onUpgrade "/wisp/" = RouteRequest "/wisp/" /\
  onUpgrade "/a/wisp/" = RouteRequest "/a/wisp/" /\
  onUpgrade "/wisp/x" = SocketEnd.
Proof.
  split; [|split].
  - apply (proj1 (upgrade_listener_routes_wisp_only "/wisp/")). now exists "".
  - apply (proj1 (upgrade_listener_routes_wisp_only "/a/wisp/")). now exists "/a".
  - reflexivity.
Defined.

(** ** Server: what [/ads/proxy] refuses *)

Lemma startsWith_true (s p rest : string) : s = p ++ rest -> Text.startsWith s p = true.
Proof.
  intros ->. apply startsWith_append.
Qed.

(** The expression for 172.16.* to 172.31.* accepts each of the sixteen
    second octets. *)
Lemma private_172_octets n rest :
  16 <= n <= 31 -> private_172 ("172." ++ Text.decimal n ++ "." ++ rest) = true.
Proof.
  intros Hn.
  assert (H : n = 16 \/ n = 17 \/ n = 18 \/ n = 19 \/ n = 20 \/ n = 21 \/ n = 22 \/
              n = 23 \/ n = 24 \/ n = 25 \/ n = 26 \/ n = 27 \/ n = 28 \/ n = 29 \/
              n = 30 \/ n = 31) by lia.
  repeat (destruct H as [-> | H]; [reflexivity|]). subst n. reflexivity.
Qed.

(** Every host name of the patterns is blocked. *)
Lemma private_host_blocked h : private_host h -> isBlockedHost h = true.
Proof.
  unfold private_host, isBlockedHost.
  intros [H | [[front H] | [[rest H] | [[rest H] | [[rest H] | [(n & rest & Hn & H) |
          [H | [[rest H] | [[rest H] | [rest H]]]]]]]]]].
  - subst h. reflexivity.
  - subst h. rewrite endsWith_append. now rewrite orb_true_r.
  - rewrite (startsWith_true h "127." rest H). now rewrite !orb_true_r.
  - rewrite (startsWith_true h "10." rest H). now rewrite !orb_true_r.
  - rewrite (startsWith_true h "192.168." rest H). now rewrite !orb_true_r.
  - subst h. rewrite private_172_octets by assumption. now rewrite !orb_true_r.
  - subst h. reflexivity.
  - rewrite (startsWith_true h "fe80:" rest H). now rewrite !orb_true_r.
  - rewrite (startsWith_true h "fc" rest H). now rewrite !orb_true_r.
  - rewrite (startsWith_true h "fd" rest H). now rewrite !orb_true_r.
Qed.

Lemma refuse_refused code message : refused (refuse code message) code message.
Proof.
  split; reflexivity.
Qed.

(** The refusals of [/ads/proxy]: 400 [Missing u] when [u] is absent or
    empty; 400 [Invalid URL] when a non-empty [u] does not parse; 400
    [Unsupported protocol] when the parsed protocol is neither [http:] nor
    [https:]; 403 [Forbidden host] when the protocol is one of the two and
    the lower-cased text of the host name matches a private pattern.  In
    each case the reply sets no header and nothing is fetched.  The patterns
    are tested on the text of the host name: an IPv6 address comes between
    brackets and matches none of them. *)
Theorem ads_proxy_refusals (P : Platform) (req : Request) :
  (query_u req = None \/ query_u req = Some "" ->
   refused (ads_proxy P req) 400 "Missing u") /\
  (forall u, query_u req = Some u -> u <> "" -> NodeURL P u = None ->
   refused (ads_proxy P req) 400 "Invalid URL") /\
  (forall u target, query_u req = Some u -> u <> "" -> NodeURL P u = Some target ->
   protocol target <> "http:" -> protocol target <> "https:" ->
   refused (ads_proxy P req) 400 "Unsupported protocol") /\
  (forall u target, query_u req = Some u -> u <> "" -> NodeURL P u = Some target ->
   protocol target = "http:" \/ protocol target = "https:" ->
   private_host (Text.toLowerCase (hostname target)) ->
   refused (ads_proxy P req) 403 "Forbidden host").
Proof.
  unfold ads_proxy. split; [|split; [|split]].
  - intros [-> | ->]; apply refuse_refused.
  - intros u -> Hu Hparse. apply String.eqb_neq in Hu. rewrite Hu, Hparse.
    apply refuse_refused.
  - intros u target -> Hu Hparse H1 H2.
    apply String.eqb_neq in Hu, H1, H2. rewrite Hu, Hparse.
    unfold http_protocol. rewrite H1, H2. apply refuse_refused.
  - intros u target -> Hu Hparse Hproto Hhost.
    apply String.eqb_neq in Hu. rewrite Hu, Hparse.
    assert (Hp : http_protocol (protocol target) = true).
    { unfold http_protocol. destruct Hproto as [-> | ->]; reflexivity. }
    rewrite Hp, (private_host_blocked _ Hhost). apply refuse_refused.
Qed.

(** For [/ads/proxy?u=] the empty [u] is present and does not parse, and
    the reply is [Missing u], not [Invalid URL]. *)
Lemma ads_proxy_empty_u_is_missing :
  query_u (request_for (Some "")) = Some "" /\
  NodeURL (sample_platform "") "" = None /\
  ~ refused (ads_proxy (sample_platform "") (request_for (Some ""))) 400 "Invalid URL".
Proof.
  split; [reflexivity|]. split; [reflexivity|].
  intros [H _]. discriminate H.
Qed.

(** *** Host names of IPv6 addresses *)

Lemma toLowerCase_app a b :
  Text.toLowerCase (a ++ b) = Text.toLowerCase a ++ Text.toLowerCase b.
Proof.
  induction a as [|c a IH]; cbn [Text.toLowerCase String.append]; [reflexivity|].
  now rewrite IH.
Qed.

Lemma last_unit_app a b before :
  last_unit (a ++ b) before = last_unit b (last_unit a before).
Proof.
  revert before. induction a as [|c a IH]; intros before; simpl; [reflexivity | apply IH].
Qed.

(** No pattern of the guard matches a host name between brackets. *)
Lemma bracketed_host_passes address :
  isBlockedHost (Text.toLowerCase ("[" ++ address ++ "]")) = false.
Proof.
  rewrite !toLowerCase_app.
  change (Text.toLowerCase "[") with "[". change (Text.toLowerCase "]") with "]".
  set (b := Text.toLowerCase address).
  assert (Hends : Text.endsWith ("[" ++ b ++ "]") ".localhost" = false).
  { destruct (Text.endsWith ("[" ++ b ++ "]") ".localhost") eqn:E; [|reflexivity].
    apply endsWith_spec in E. destruct E as (front & E).
    apply (f_equal (fun x => last_unit x None)) in E.
    rewrite !last_unit_app in E. cbn in E. discriminate E. }
  unfold isBlockedHost. rewrite Hends. reflexivity.
Qed.

(** C5.  The host guard of [/ads/proxy] does not refuse the private
    addresses of IPv6.  The parser returns the host name of an IPv6 address
    between square brackets, and the patterns [::1], [fe80:], [fc] and [fd]
    are tested at the start of that text: for every request whose address
    parses to an http or https URL with such a host name, the loopback
    address among them, the guard is false, the reply is not 403
    [Forbidden host], and the address is fetched. *)
Theorem ads_proxy_fetches_ipv6_private_hosts
  (P : Platform) (req : Request) (u : string) (target : URL) (address : string) :
  query_u req = Some u ->
  u <> "" ->
  NodeURL P u = Some target ->
  protocol target = "http:" \/ protocol target = "https:" ->
  hostname target = "[" ++ address ++ "]" ->
  isBlockedHost (Text.toLowerCase (hostname target)) = false /\
  ~ refused (ads_proxy P req) 403 "Forbidden host" /\
  fetched (ads_proxy P req) = href target :: followed P (href target).
Proof.
  intros Hu Hne Hparse Hproto Hhost.
  assert (Hguard : isBlockedHost (Text.toLowerCase (hostname target)) = false)
    by (rewrite Hhost; apply bracketed_host_passes).
  assert (Hp : http_protocol (protocol target) = true)
    by (unfold http_protocol; destruct Hproto as [-> | ->]; reflexivity).
  assert (Hf : fetched (ads_proxy P req) = href target :: followed P (href target)).
  { unfold ads_proxy. apply String.eqb_neq in Hne.
    rewrite Hu, Hne, Hparse, Hp, Hguard. cbn [negb].
    destruct (fetch P (href target) (fetch_headers req)) as [res|]; [|reflexivity].
    destruct (Text.includes _ "text/html"); [reflexivity|].
    destruct (Text.includes _ "text/css"); reflexivity. }
  split; [exact Hguard|]. split; [|exact Hf].
  intros (_ & Hnone). rewrite Hf in Hnone. discriminate Hnone.
Qed.

Lemma ads_proxy_fetches_ipv6_private_hosts_witness :
  fetched (ads_proxy (Upstreams.answering []) (request_for (Some "http://[::1]:9/secret")))
  = ["http://[::1]:9/secret"] /\
  payload (reply (ads_proxy (Upstreams.answering [])
                    (request_for (Some "http://[::1]:9/secret"))))
  = Stream "secret".
Proof.
  split; [|reflexivity].
  exact (proj2 (proj2
    (ads_proxy_fetches_ipv6_private_hosts (Upstreams.answering [])
       (request_for (Some "http://[::1]:9/secret")) "http://[::1]:9/secret"
       Upstreams.loopback_target "::1"
       eq_refl ltac:(discriminate) eq_refl (or_introl eq_refl) eq_refl))).
Defined.

(** ** Server: the HTML branch of [/ads/proxy] *)

Lemma take_ci_spec p : forall s m r,
  take_ci p s = Some (m, r) -> s = m ++ r.
Proof.
  induction p as [|a p IH]; intros s m r H; simpl in H.
  - injection H as <- <-. reflexivity.
  - destruct s as [|b s]; [discriminate|].
    destruct (Ascii.eqb (fold_case a) (fold_case b)); [|discriminate].
    destruct (take_ci p s) as [[m' r']|] eqn:E; [|discriminate].
    injection H as <- <-. simpl. f_equal. now apply IH.
Qed.

Lemma take_ci_append p : forall s m r X,
  take_ci p s = Some (m, r) -> take_ci p (s ++ X) = Some (m, r ++ X).
Proof.
  induction p as [|a p IH]; intros s m r X H; simpl in H |- *.
  - injection H as <- <-. reflexivity.
  - destruct s as [|b s]; [discriminate|]. simpl.
    destruct (Ascii.eqb (fold_case a) (fold_case b)); [|discriminate].
    destruct (take_ci p s) as [[m' r']|] eqn:E; [|discriminate].
    injection H as <- <-. now rewrite (IH _ _ _ X E).
Qed.

(** A text that matches one literal does not match a literal whose first
    letter is another one. *)
Lemma take_ci_other_head a p a' p' s m r X :
  take_ci (String a p) s = Some (m, r) ->
  Ascii.eqb (fold_case a') (fold_case a) = false ->
  take_ci (String a' p') (s ++ X) = None.
Proof.
  intros H Hne. destruct s as [|b s]; [discriminate|]. simpl in H |- *.
  destruct (Ascii.eqb (fold_case a) (fold_case b)) eqn:E; [|discriminate].
  apply Ascii.eqb_eq in E. rewrite <- E, Hne. reflexivity.
Qed.

Lemma ci_equal_take s p :
  ci_equal s p = true -> take_ci p s = Some (s, "").
Proof.
  unfold ci_equal. destruct (take_ci p s) as [[m r]|] eqn:E; [|discriminate].
  intros H. apply String.eqb_eq in H. subst r.
  apply take_ci_spec in E as E'. rewrite append_nil_r in E'. now subst m.
Qed.

(** The alternation reads an attribute name, whichever of the four it is. *)
Lemma alt_ci_attribute {R : Type} (k : string -> string -> option R) name X x :
  attribute_name name = true ->
  k name X = Some x ->
  alt_ci attribute_names k (name ++ X) = Some x.
Proof.
  unfold attribute_name, attribute_names. cbn [List.existsb]. intros H Hk.
  repeat rewrite orb_true_iff in H.
  destruct H as [H | [H | [H | [H | H]]]]; try discriminate H;
    apply ci_equal_take in H; cbn [alt_ci];
    repeat (erewrite (take_ci_other_head _ _ _ _ _ _ _ X H) by reflexivity);
    rewrite (take_ci_append _ _ _ _ X H); cbn [append]; now rewrite Hk.
Qed.

(** A greedy repetition reads a whole run when the continuation accepts
    what follows it. *)
Lemma star_greedy_run {R : Type} cls (k : string -> string -> option R) run :
  forall read rest x,
  forall_chars cls run = true ->
  match rest with String c _ => cls c = false | EmptyString => True end ->
  k (read ++ run) rest = Some x ->
  star_greedy cls k read (run ++ rest) = Some x.
Proof.
  induction run as [|c run IH]; intros read rest x Hrun Hrest Hk.
  - rewrite append_nil_r in Hk. simpl.
    destruct rest as [|c rest]; simpl; [exact Hk | now rewrite Hrest].
  - simpl in Hrun. apply andb_true_iff in Hrun. destruct Hrun as [Hc Hrun].
    simpl. rewrite Hc.
    rewrite (IH (read ++ String c "") rest x Hrun Hrest); [reflexivity|].
    now rewrite append_assoc.
Qed.

Lemma attribute_text_append name q val rest :
  attribute_text name q val ++ rest
  = name ++ String "=" (String q (val ++ String q rest)).
Proof.
  unfold attribute_text. rewrite !append_assoc. simpl. now rewrite append_assoc.
Qed.

Lemma attribute_name_not_empty name :
  attribute_name name = true -> exists c name', name = String c name'.
Proof.
  destruct name as [|c name']; [discriminate | intros _; now exists c, name'].
Qed.

(** The attribute expression matches an occurrence of the shape
    name, equals sign, quote, value, same quote. *)
Lemma match_attribute_at prev name q val rest :
  word_boundary prev name = true ->
  attribute_name name = true ->
  is_quote q = true ->
  val <> "" ->
  forall_chars (fun c => negb (is_quote c)) val = true ->
  match_attribute prev (attribute_text name q val ++ rest) = Some (name, q, val, rest).
Proof.
  intros Hb Hname Hq Hval Hchars.
  rewrite attribute_text_append. unfold match_attribute.
  destruct (attribute_name_not_empty name Hname) as (c & name' & ->).
  change (word_boundary prev (String c name' ++ _)) with (word_boundary prev (String c name')).
  rewrite Hb. apply alt_ci_attribute; [exact Hname|].
  cbn [one]. rewrite Ascii.eqb_refl, Hq.
  destruct val as [|v val]; [now destruct Hval|].
  simpl in Hchars. apply andb_true_iff in Hchars. destruct Hchars as [Hv Hchars].
  cbn [append plus_greedy]. rewrite Hv.
  apply star_greedy_run; [exact Hchars | now rewrite Hq |].
  cbn [append one]. now rewrite Ascii.eqb_refl.
Qed.

Lemma replace_all_skip m pre : forall prev rest,
  replace_all m prev (String.length pre) (pre ++ rest)
  = replace_all m (last_unit pre prev) 0 rest.
Proof.
  induction pre as [|c pre IH]; intros prev rest; [reflexivity|].
  simpl. apply IH.
Qed.

Lemma last_unit_attribute_text name q val before :
  last_unit (attribute_text name q val) before = Some q.
Proof.
  unfold attribute_text. rewrite !last_unit_app. simpl.
  rewrite last_unit_app. reflexivity.
Qed.

(** The attribute pass at an occurrence: the replacement goes out and the
    scan goes on behind the closing quote. *)
Lemma attribute_pass_at P base prev name q val rest :
  word_boundary prev name = true ->
  attribute_name name = true ->
  is_quote q = true ->
  val <> "" ->
  forall_chars (fun c => negb (is_quote c)) val = true ->
  replace_all (attribute_rule P base) prev 0 (attribute_text name q val ++ rest)
  = rewrite_attribute P base name q val
    ++ replace_all (attribute_rule P base) (Some q) 0 rest.
Proof.
  intros Hb Hname Hq Hval Hchars.
  pose proof (match_attribute_at prev name q val rest Hb Hname Hq Hval Hchars) as Hm.
  destruct (attribute_text name q val ++ rest) as [|c s'] eqn:E.
  - destruct (attribute_name_not_empty name Hname) as (c & name' & ->). discriminate E.
  - cbn [replace_all]. unfold attribute_rule at 1. rewrite Hm. f_equal.
    destruct (attribute_text name q val) as [|c0 t'] eqn:Et.
    + destruct (attribute_name_not_empty name Hname) as (c0 & name' & ->). discriminate Et.
    + simpl in E. injection E as <- <-.
      cbn [String.length]. rewrite Nat.sub_1_r. cbn [Nat.pred].
      rewrite replace_all_skip. f_equal.
      change (last_unit t' (Some c0)) with (last_unit (String c0 t') None).
      rewrite <- Et. apply last_unit_attribute_text.
Qed.

(** C3, as the code has it.  For an upstream response whose content type
    contains [text/html], the body sent is the result of three passes in a
    row: the attribute pass, the CSS [url()] pass, the removal of
    Content-Security-Policy meta tags.  In the attribute pass, an occurrence
    that the scan reaches (a name among href, src, action, poster in any
    letter case at a word boundary, the equals sign, a quote, a non-empty
    value without quote characters, the same quote) is replaced: a value that
    starts with data:, blob:, mailto: or javascript: stays as it is; any
    other value becomes [/ads/proxy?u=] followed by the percent-encoded
    absolute address when it resolves against the fetched target, and stays
    as it is when it does not resolve. *)
Theorem html_branch_rewrites_attributes
  (P : Platform) (req : Request) (u : string) (target : URL) (res : Upstream) :
  query_u req = Some u ->
  u <> "" ->
  NodeURL P u = Some target ->
  http_protocol (protocol target) = true ->
  isBlockedHost (Text.toLowerCase (hostname target)) = false ->
  fetch P (href target) (fetch_headers req) = Some res ->
  Text.includes (Text.or_default (JsMap.get (up_headers res) "content-type") "")
                "text/html" = true ->
  payload (reply (ads_proxy P req))
  = Text (remove_csp_meta
            (rewrite_css_urls P target (rewrite_attributes P target (up_body res)))) /\
  forall prev name q val rest,
    word_boundary prev name = true ->
    attribute_name name = true ->
    is_quote q = true ->
    val <> "" ->
    forall_chars (fun c => negb (is_quote c)) val = true ->
    replace_all (attribute_rule P target) prev 0 (attribute_text name q val ++ rest)
    = (if exempt_value val then attribute_text name q val
       else match NodeURL_base P val target with
            | Some abs =>
                attribute_text name q ("/ads/proxy?u=" ++ encodeURIComponent (href abs))
            | None => attribute_text name q val
            end)
      ++ replace_all (attribute_rule P target) (Some q) 0 rest.
Proof.
  intros Hu Hne Hparse Hproto Hhost Hfetch Htype. split.
  - unfold ads_proxy. apply String.eqb_neq in Hne.
    rewrite Hu, Hne, Hparse, Hproto, Hhost, Hfetch, Htype. reflexivity.
  - intros prev name q val rest Hb Hname Hq Hval Hchars.
    rewrite attribute_pass_at by assumption.
    f_equal. unfold rewrite_attribute, prox.
    destruct (exempt_value val); [reflexivity|].
    destruct (NodeURL_base P val target); reflexivity.
Qed.

(** The claim read literally fails on three pages.  A link whose quoted
    value holds an apostrophe is not rewritten at all; a
    Content-Security-Policy meta tag is removed, which no attribute pass
    does; a javascript: value is changed by the CSS pass. *)
Lemma html_branch_not_one_attribute_pass :
  (html_reply page_apostrophe = Text page_apostrophe /\
   Text.includes page_apostrophe "/ads/proxy?u=" = false) /\
  html_reply page_csp = Text "ok" /\
  (html_reply page_script_url
   = Text ("<a href="
           ++ quoted "javascript:url(/ads/proxy?u=http%3A%2F%2Fexample.com%2Fx)" ++ ">") /\
   html_reply page_script_url <> Text page_script_url).
Proof.
  repeat split; try reflexivity.
  intros H. vm_compute in H. discriminate H.
Qed.

Lemma html_branch_rewrites_attributes_witness :
  html_reply page_link
  = Text ("<a href=" ++ quoted "/ads/proxy?u=http%3A%2F%2Fexample.com%2Fx" ++ ">") /\
  replace_all (attribute_rule (sample_platform page_link) example_target)
    (Some " "%char) 0 (attribute_text "href" dq "x" ++ ">")
  = attribute_text "href" dq "/ads/proxy?u=http%3A%2F%2Fexample.com%2Fx" ++ ">".
Proof.
  destruct (html_branch_rewrites_attributes (sample_platform page_link)
              (request_for (Some "http://example.com/")) "http://example.com/"
              example_target
              {| up_status := 200; up_headers := [("content-type", "text/html")];
                 up_body := page_link |})
    as [H1 H2]; try reflexivity; try discriminate.
  split.
  - exact H1.
  - exact (H2 (Some " "%char) "href" dq "x" ">" eq_refl eq_refl eq_refl
              ltac:(discriminate) eq_refl).
Defined.

(** ** Further properties *)

(** *** Cookies within one page load *)

Lemma first_visit_all_maps : all_maps (cookieStore first_visit).
Proof.
  apply setCookie_keeps_maps. apply all_maps_empty.
Qed.

Lemma stale_visit_all_maps : all_maps (cookieStore stale_visit).
Proof.
  apply setCookie_keeps_maps. apply all_maps_empty.
Qed.

Lemma setCookie_then_getCookie_on_maps_witness :
  fst (getCookie epoch_clock 1 "example.com" "lang"
         (snd (setCookie "example.com" "lang" "en" no_options first_visit)))
  = Return (Some "en").
Proof.
  exact (proj1 (proj2 (setCookie_then_getCookie_on_maps epoch_clock 1
                         "example.com" "lang" "en" first_visit first_visit_all_maps))).
Defined.

Lemma getCookie_null_iff_on_maps_witness :
  fst (getCookie epoch_clock 1 "example.com" "lang" first_visit) = Return None.
Proof.
  apply (proj2 (getCookie_null_iff_on_maps epoch_clock 1 "example.com" "lang"
                  first_visit first_visit_all_maps)).
  right. left. eexists. split; reflexivity.
Defined.

Lemma getCookie_expired_on_maps_witness :
  attributes_of (cookieStore stale_visit) "example.com" "sid" <> None /\
  attributes_of
    (cookieStore (snd (getCookie epoch_clock 1 "example.com" "sid" stale_visit)))
    "example.com" "sid" = None.
Proof.
  split; [discriminate|].
  refine (proj1 (getCookie_expired_on_maps epoch_clock 1 "example.com" "sid"
                   stale_visit _ _ stale_visit_all_maps _ _ _)); reflexivity.
Defined.

(** *** The host guard, both ways *)

Lemma in_range_code lo hi c :
  Text.in_range lo hi c = true -> lo <= Text.code c <= hi /\ c = ascii_of_nat (Text.code c).
Proof.
  unfold Text.in_range, Text.code. intros H. apply andb_true_iff in H.
  destruct H as [H1 H2]. apply Nat.leb_le in H1, H2.
  split; [lia | now rewrite ascii_nat_embedding].
Qed.

Lemma private_172_inv h :
  private_172 h = true ->
  exists n rest, 16 <= n <= 31 /\ h = "172." ++ Text.decimal n ++ "." ++ rest.
Proof.
  unfold private_172. destruct (Text.startsWith h "172.") eqn:E; [|discriminate].
  apply startsWith_spec in E. destruct E as [r ->].
  destruct r as [|a [|b [|c rest]]]; try discriminate. cbn [append].
  intros H. apply andb_true_iff in H. destruct H as [H Hc].
  apply Ascii.eqb_eq in Hc. subst c.
  repeat rewrite orb_true_iff in H. repeat rewrite andb_true_iff in H.
  destruct H as [[[Ha Hb] | [Ha Hb]] | [Ha Hb]];
    apply Ascii.eqb_eq in Ha; subst a;
    apply in_range_code in Hb; destruct Hb as [Hb Hbeq];
    remember (Text.code b) as k eqn:Hk; clear Hk; subst b.
  - exists (k - 38), rest.
    assert (Hk : k = 54 \/ k = 55 \/ k = 56 \/ k = 57) by lia.
    destruct Hk as [-> | [-> | [-> | ->]]]; (split; [cbn; lia | reflexivity]).
  - exists (k - 28), rest.
    assert (Hk : k = 48 \/ k = 49 \/ k = 50 \/ k = 51 \/ k = 52 \/ k = 53 \/
                 k = 54 \/ k = 55 \/ k = 56 \/ k = 57) by lia.
    repeat (destruct Hk as [-> | Hk]; [split; [cbn; lia | reflexivity]|]).
    subst k. split; [cbn; lia | reflexivity].
  - exists (k - 18), rest.
    assert (Hk : k = 48 \/ k = 49) by lia.
    destruct Hk as [-> | ->]; (split; [cbn; lia | reflexivity]).
Qed.

Lemma isBlockedHost_private h : isBlockedHost h = true -> private_host h.
Proof.
  unfold isBlockedHost, private_host. intros H.
  repeat rewrite orb_true_iff in H.
  destruct H as [[[[[[[[[[H | H] | H] | H] | H] | H] | H] | H] | H] | H] | H].
  - apply String.eqb_eq in H. now left.
  - apply endsWith_spec in H. right. now left.
  - apply String.eqb_eq in H. subst h. do 2 right. left. now exists "0.0.1".
  - apply startsWith_spec in H. do 2 right. now left.
  - apply startsWith_spec in H. do 3 right. now left.
  - apply startsWith_spec in H. do 4 right. now left.
  - apply private_172_inv in H. do 5 right. now left.
  - apply String.eqb_eq in H. do 6 right. now left.
  - apply startsWith_spec in H. do 7 right. now left.
  - apply startsWith_spec in H. do 8 right. now left.
  - apply startsWith_spec in H. do 9 right. exact H.
Qed.

(** X6. The guard blocks the host names of the patterns and no others. *)
Lemma isBlockedHost_iff h : isBlockedHost h = true <-> private_host h.
Proof.
  split; [apply isBlockedHost_private | apply private_host_blocked].
Qed.

(** X5. [/ads/proxy] calls [fetch] at most once, and only for a non-empty
    [u] that parses to a URL whose protocol is http: or https: and whose
    lower-cased host name passes the guard.  The addresses requested are the
    parsed one and then those the redirects lead to ([redirect: 'follow']):
    the guard was applied to the first of them only. *)
Theorem ads_proxy_guards_first_address_only (P : Platform) (req : Request) :
  fetched (ads_proxy P req) <> [] ->
  exists u target,
    query_u req = Some u /\ u <> "" /\ NodeURL P u = Some target /\
    (protocol target = "http:" \/ protocol target = "https:") /\
    isBlockedHost (Text.toLowerCase (hostname target)) = false /\
    fetched (ads_proxy P req) = href target :: followed P (href target).
Proof.
  unfold ads_proxy.
  destruct (query_u req) as [u|]; [|intros H; now contradiction H].
  destruct (String.eqb_spec u "") as [->|Hu]; [intros H; now contradiction H|].
  destruct (NodeURL P u) as [target|] eqn:Hparse; [|intros H; now contradiction H].
  destruct (http_protocol (protocol target)) eqn:Hproto;
    [|intros H; now contradiction H]. cbn [negb].
  destruct (isBlockedHost (Text.toLowerCase (hostname target))) eqn:Hhost;
    [intros H; now contradiction H|].
  intros _. exists u, target. split; [reflexivity|]. split; [exact Hu|].
  split; [exact Hparse|]. split.
  { unfold http_protocol in Hproto. apply orb_true_iff in Hproto.
    destruct Hproto as [H | H]; apply String.eqb_eq in H; auto. }
  split; [exact Hhost|].
  destruct (fetch P (href target) (fetch_headers req)) as [res|]; [|reflexivity].
  destruct (Text.includes _ "text/html"); [reflexivity|].
  destruct (Text.includes _ "text/css"); reflexivity.
Qed.

Lemma ads_proxy_guards_first_address_only_witness :
  fetched (ads_proxy (Upstreams.answering ["http://127.0.0.1:8080/admin"])
             (request_for (Some "http://example.com/")))
  = ["http://example.com/"; "http://127.0.0.1:8080/admin"].
Proof.
  destruct (ads_proxy_guards_first_address_only
              (Upstreams.answering ["http://127.0.0.1:8080/admin"])
              (request_for (Some "http://example.com/")))
    as (u & target & Hu & _ & Hparse & _ & _ & Hf).
  - discriminate.
  - injection Hu as <-. injection Hparse as <-. exact Hf.
Defined.

(** ** More on the tab manager: identifiers and the active tab *)

Import Conditions.

Lemma decimal_inj n n' : Text.decimal n = Text.decimal n' -> n = n'.
Proof.
  unfold Text.decimal. intros H.
  apply DecimalNat.Unsigned.to_uint_inj.
  assert (E : Some (Nat.to_uint n) = Some (Nat.to_uint n')).
  { rewrite <- !NilEmpty.usu. now rewrite H. }
  now injection E.
Qed.

Section MoreJsMapFacts.
Context {V : Type}.
Implicit Types (m : JsMap.t V) (k : string) (v : V).

Lemma get_some_in_keys m k v : JsMap.get m k = Some v -> In k (JsMap.keys m).
Proof.
  intros H. destruct (List.in_dec String.string_dec k (JsMap.keys m)) as [Hin|Hnin];
    [exact Hin|].
  apply get_none_not_in in Hnin. congruence.
Qed.

Lemma in_keys_get m k : In k (JsMap.keys m) -> exists v, JsMap.get m k = Some v.
Proof.
  intros Hin. destruct (JsMap.get m k) as [v|] eqn:E; [now exists v|].
  apply get_none_not_in in E. contradiction.
Qed.

Lemma keys_delete_keep m k x :
  In x (JsMap.keys m) -> x <> k -> In x (JsMap.keys (JsMap.delete m k)).
Proof.
  intros Hin Hne. apply in_keys_get in Hin. destruct Hin as [v Hv].
  apply get_some_in_keys with (v := v). rewrite get_delete_ne; [exact Hv | congruence].
Qed.

Lemma size_set_new m k v :
  JsMap.get m k = None -> JsMap.size (JsMap.set m k v) = S (JsMap.size m).
Proof.
  unfold JsMap.size. induction m as [|[k0 v0] m IH]; simpl; [reflexivity|].
  destruct (String.eqb k0 k); [discriminate|]. simpl. intros H. now rewrite IH.
Qed.

Lemma keys_set_existing m k v v' x :
  JsMap.get m k = Some v ->
  (In x (JsMap.keys (JsMap.set m k v')) <-> In x (JsMap.keys m)).
Proof.
  intros H. rewrite keys_set_in. split; [|now right].
  intros [-> | Hin]; [eapply get_some_in_keys; eassumption | exact Hin].
Qed.

End MoreJsMapFacts.

Lemma switchToTab_static frameUrl t s :
  tabCounter (switchToTab frameUrl t s) = tabCounter s /\
  tabsContainer (dom (switchToTab frameUrl t s)) = tabsContainer (dom s) /\
  mainContent (dom (switchToTab frameUrl t s)) = mainContent (dom s).
Proof.
  unfold switchToTab.
  destruct (query t (tabsContainer (dom s))),
           (query (panel_id t) (mainContent (dom s))); cbn; auto.
Qed.

Lemma ids_ok_of_tabs s s' :
  (forall k, In k (JsMap.keys (tabs s')) -> In k (JsMap.keys (tabs s))) ->
  tabCounter s <= tabCounter s' ->
  ids_ok s -> ids_ok s'.
Proof.
  intros Hk Hc H k Hin. destruct (H k (Hk k Hin)) as [-> | (n & Hn & ->)]; [now left|].
  right. exists n. split; [lia | reflexivity].
Qed.

Ltac through_switch :=
  repeat match goal with
         | |- context [switchToTab ?f ?t ?x] =>
             let H1 := fresh in let H2 := fresh in
             destruct (switchToTab_fields f t x) as (H1 & _ & _);
             destruct (switchToTab_static f t x) as (H2 & _ & _);
             rewrite ?H1, ?H2; clear H1 H2
         end.

(** [closeTab] takes tabs away and never adds one. *)
Lemma closeTab_keys frameUrl tabId s k :
  In k (JsMap.keys (tabs (closeTab frameUrl tabId s))) -> In k (JsMap.keys (tabs s)).
Proof.
  unfold closeTab.
  destruct (Nat.leb _ 1); auto.
  destruct (JsMap.get (tabs s) tabId) as [tab|]; auto.
  destruct (element tab); auto.
  destruct (content tab); auto.
  destruct (String.eqb (currentTabId s) tabId); cbn [tabs].
  - destruct (JsMap.keys (JsMap.delete (tabs s) tabId)) eqn:El;
      through_switch; cbn [tabs]; apply keys_delete_in.
  - apply keys_delete_in.
Qed.

Lemma closeTab_counter frameUrl tabId s :
  tabCounter (closeTab frameUrl tabId s) = tabCounter s.
Proof.
  unfold closeTab.
  destruct (Nat.leb _ 1); auto.
  destruct (JsMap.get (tabs s) tabId) as [tab|]; auto.
  destruct (element tab); auto.
  destruct (content tab); auto.
  destruct (String.eqb (currentTabId s) tabId); cbn [tabs]; auto.
  destruct (JsMap.keys (JsMap.delete (tabs s) tabId)); through_switch; reflexivity.
Qed.

Lemma ids_ok_closeTab frameUrl tabId s : ids_ok s -> ids_ok (closeTab frameUrl tabId s).
Proof.
  apply ids_ok_of_tabs.
  - intros k. apply closeTab_keys.
  - now rewrite closeTab_counter.
Qed.

Lemma ids_ok_step frameUrl o s : ids_ok s -> ids_ok (step frameUrl o s).
Proof.
  intros H. destruct o; cbn [step].
  - intros k Hin. unfold onDOMContentLoaded in Hin. cbn [tabs] in Hin.
    apply keys_set_in in Hin. destruct Hin as [-> | Hin]; [now left | now apply H].
  - unfold createTab. cbn [fst]. intros k. through_switch.
    cbn [tabs tabCounter]. intros Hin. apply keys_set_in in Hin.
    destruct Hin as [-> | Hin].
    + right. exists (tabCounter s). split; [lia | reflexivity].
    + destruct (H k Hin) as [-> | (n & Hn & ->)]; [now left|].
      right. exists n. split; [lia | reflexivity].
  - now apply ids_ok_closeTab.
  - revert H. apply ids_ok_of_tabs; through_switch; auto.
  - unfold updateTabTitle. destruct (JsMap.get (tabs s) tabId) eqn:E; [|exact H].
    intros k Hin. cbn [with_tabs tabs tabCounter] in *.
    apply (keys_set_existing _ _ _ _ _ E) in Hin. now apply H.
  - unfold updateTabUrl. destruct (JsMap.get (tabs s) tabId) eqn:E; [|exact H].
    intros k Hin. cbn [with_tabs tabs tabCounter] in *.
    apply (keys_set_existing _ _ _ _ _ E) in Hin. now apply H.
  - exact H.
  - unfold goBack.
    destruct (JsMap.get (currentHistoryIndex s) _); [|exact H].
    destruct (0 <? _)%Z; [|exact H].
    destruct (JsMap.get (history s) _); exact H.
  - unfold goForward.
    destruct (JsMap.get (history s) _); [|exact H].
    destruct (JsMap.get (currentHistoryIndex s) _); [|exact H].
    destruct (_ <? _)%Z; exact H.
Qed.

Lemma ids_ok_run frameUrl ops s : ids_ok s -> ids_ok (run frameUrl ops s).
Proof.
  revert s. induction ops as [|o ops IH]; intros s H; [exact H|].
  apply IH. now apply ids_ok_step.
Qed.

(** X7. In every state a manager can reach, [createTab] makes an identifier
    that no tab has yet: the map grows by exactly one tab, every other tab
    keeps its data, and the new tab starts with an empty history at index
    -1. *)
Theorem createTab_adds_one_fresh_tab
  (frameUrl : string -> option string) (page : Dom) (ops : list Op)
  (u : option string) (ttl : string) :
  let s := run frameUrl ops (TabManager.constructor page) in
  let s' := fst (createTab frameUrl u ttl s) in
  let id := snd (createTab frameUrl u ttl s) in
  id = "tab-" ++ Text.decimal (tabCounter s) /\
  JsMap.get (tabs s) id = None /\
  JsMap.size (tabs s') = S (JsMap.size (tabs s)) /\
  (forall k, k <> id -> JsMap.get (tabs s') k = JsMap.get (tabs s) k) /\
  entries s' id = [] /\
  position s' id = Some (-1)%Z.
Proof.
  cbv zeta. set (s := run frameUrl ops (TabManager.constructor page)).
  assert (Hids : ids_ok s).
  { apply ids_ok_run. intros k []. }
  unfold createTab. cbn [fst snd].
  set (id := "tab-" ++ Text.decimal (tabCounter s)).
  assert (Hfresh : JsMap.get (tabs s) id = None).
  { apply get_none_not_in. intros Hin.
    destruct (Hids _ Hin) as [E | (n & Hn & E)]; [discriminate E|].
    unfold id in E. cbn in E. injection E as E. apply decimal_inj in E. lia. }
  match goal with
  | |- context [switchToTab ?f ?t ?x] =>
      destruct (switchToTab_fields f t x) as (Ht & Hh & Hi)
  end.
  split; [reflexivity|]. split; [exact Hfresh|].
  unfold entries, position, JsMap.has. rewrite Ht, Hh, Hi.
  cbn [tabs history currentHistoryIndex]. rewrite !get_set_eq.
  split; [now apply size_set_new|]. split; [|split; reflexivity].
  intros k Hk. apply get_set_ne. congruence.
Qed.

Lemma query_in n l : In n l -> query n l = Some n.
Proof.
  intros H. unfold query.
  assert (E : List.existsb (String.eqb n) l = true).
  { apply List.existsb_exists. exists n. split; [exact H | apply String.eqb_refl]. }
  now rewrite E.
Qed.

Lemma query_some n l x : query n l = Some x -> x = n /\ In n l.
Proof.
  unfold query. destruct (List.existsb (String.eqb n) l) eqn:E; [|discriminate].
  intros H. injection H as <-. split; [reflexivity|].
  apply List.existsb_exists in E. destruct E as (y & Hy & Heq).
  apply String.eqb_eq in Heq. now subst y.
Qed.

Lemma remove_node_in n l x : In x (remove_node n l) <-> In x l /\ x <> n.
Proof.
  unfold remove_node. rewrite List.filter_In, negb_true_iff, String.eqb_neq. tauto.
Qed.

Lemma panel_id_inj a b : panel_id a = panel_id b -> a = b.
Proof.
  unfold panel_id. cbn. intros H. now injection H.
Qed.

Lemma nodes_ok_of_fields s s' :
  tabs s' = tabs s ->
  tabsContainer (dom s') = tabsContainer (dom s) ->
  mainContent (dom s') = mainContent (dom s) ->
  nodes_ok s -> nodes_ok s'.
Proof.
  unfold nodes_ok. intros -> -> ->. auto.
Qed.

Lemma nodes_ok_switchToTab frameUrl t s :
  nodes_ok s -> nodes_ok (switchToTab frameUrl t s).
Proof.
  destruct (switchToTab_fields frameUrl t s) as (Ht & _ & _).
  destruct (switchToTab_static frameUrl t s) as (_ & Hs & Hm).
  now apply nodes_ok_of_fields.
Qed.

(** Switching to a tab of the map succeeds. *)
Lemma switchToTab_existing frameUrl t s :
  nodes_ok s -> In t (JsMap.keys (tabs s)) ->
  currentTabId (switchToTab frameUrl t s) = t.
Proof.
  intros (_ & Ha & _) Hin. apply in_keys_get in Hin. destruct Hin as [tab Htab].
  destruct (Ha _ _ Htab) as (_ & _ & Hstrip & Hpanel).
  unfold switchToTab. rewrite (query_in _ _ Hstrip), (query_in _ _ Hpanel). reflexivity.
Qed.

Lemma tabs_ok_switchToTab frameUrl t s :
  tabs_ok s -> tabs_ok (switchToTab frameUrl t s).
Proof.
  intros [Hn Hc]. split; [now apply nodes_ok_switchToTab|].
  destruct (switchToTab_fields frameUrl t s) as (-> & _ & _).
  unfold switchToTab.
  destruct (query t (tabsContainer (dom s))) as [e|] eqn:Ee; [|exact Hc].
  destruct (query (panel_id t) (mainContent (dom s))); [|exact Hc].
  cbn [currentTabId]. apply query_some in Ee. destruct Ee as [_ Hin].
  destruct Hn as (_ & _ & Hb). now apply Hb.
Qed.

Lemma nodes_ok_add_tab s id u ttl :
  nodes_ok s ->
  nodes_ok
    {| tabs := JsMap.set (tabs s) id
                 {| element := Some id; content := Some (panel_id id);
                    title := ttl; url := u; loading := false |};
       currentTabId := currentTabId s;
       tabCounter := S (tabCounter s);
       history := JsMap.set (history s) id [];
       currentHistoryIndex := JsMap.set (currentHistoryIndex s) id (-1)%Z;
       dom := {| tabsContainer := (tabsContainer (dom s) ++ [id])%list;
                 mainContent := (mainContent (dom s) ++ [panel_id id])%list;
                 activeTabs := activeTabs (dom s);
                 activePanels := activePanels (dom s);
                 addressValue := addressValue (dom s) |} |}.
Proof.
  intros (Hnd & Ha & Hb). unfold nodes_ok. cbn [tabs dom tabsContainer mainContent].
  split; [now apply NoDup_set|]. split.
  - intros k tab Hget. destruct (String.eqb_spec id k) as [<-|Hne].
    + rewrite get_set_eq in Hget. injection Hget as <-. cbn.
      repeat split; apply List.in_or_app; right; now left.
    + rewrite get_set_ne in Hget by assumption.
      destruct (Ha _ _ Hget) as (H1 & H2 & H3 & H4).
      repeat split; try assumption; apply List.in_or_app; now left.
  - intros x Hin. apply keys_set_in. apply List.in_app_or in Hin.
    destruct Hin as [Hin | [<- | []]]; [right; now apply Hb | now left].
Qed.

Lemma nodes_ok_update s t tab tab' :
  JsMap.get (tabs s) t = Some tab ->
  element tab' = element tab -> content tab' = content tab ->
  nodes_ok s -> nodes_ok (with_tabs s (JsMap.set (tabs s) t tab')).
Proof.
  intros Hget He Hc (Hnd & Ha & Hb). unfold nodes_ok. cbn [with_tabs tabs dom].
  split; [now apply NoDup_set|]. split.
  - intros k x Hx. destruct (String.eqb_spec t k) as [<-|Hne].
    + rewrite get_set_eq in Hx. injection Hx as <-. rewrite He, Hc. now apply Ha.
    + rewrite get_set_ne in Hx by assumption. now apply Ha.
  - intros x Hin. apply (keys_set_existing _ _ _ _ _ Hget). now apply Hb.
Qed.

(** After [closeTab] has removed a tab, tabs and document still agree. *)
Lemma nodes_ok_remove_tab s t tab :
  nodes_ok s -> JsMap.get (tabs s) t = Some tab ->
  nodes_ok
    {| tabs := JsMap.delete (tabs s) t;
       currentTabId := currentTabId s;
       tabCounter := tabCounter s;
       history := JsMap.delete (history s) t;
       currentHistoryIndex := JsMap.delete (currentHistoryIndex s) t;
       dom := {| tabsContainer := remove_node t (tabsContainer (dom s));
                 mainContent := remove_node (panel_id t) (mainContent (dom s));
                 activeTabs := remove_node t (activeTabs (dom s));
                 activePanels := remove_node (panel_id t) (activePanels (dom s));
                 addressValue := addressValue (dom s) |} |}.
Proof.
  intros (Hnd & Ha & Hb) Hget. unfold nodes_ok. cbn [tabs dom tabsContainer mainContent].
  split; [now apply NoDup_delete|]. split.
  - intros k x Hx. destruct (String.eqb_spec t k) as [<-|Hne].
    + rewrite get_delete_eq in Hx by assumption. discriminate.
    + rewrite get_delete_ne in Hx by assumption.
      destruct (Ha _ _ Hx) as (H1 & H2 & H3 & H4).
      repeat split; try assumption; apply remove_node_in; split; try assumption.
      * congruence.
      * intros E. apply panel_id_inj in E. congruence.
  - intros x Hin. apply remove_node_in in Hin. destruct Hin as [Hin Hne].
    apply keys_delete_keep; [now apply Hb | exact Hne].
Qed.

Lemma tabs_ok_closeTab frameUrl t s : tabs_ok s -> tabs_ok (closeTab frameUrl t s).
Proof.
  intros [Hn Hc]. unfold closeTab.
  destruct (Nat.leb (JsMap.size (tabs s)) 1) eqn:Esize; [now split|].
  destruct (JsMap.get (tabs s) t) as [tab|] eqn:Eget; [|now split].
  pose proof Hn as (_ & Ha & _).
  destruct (Ha _ _ Eget) as (He & Hcont & _ & _). rewrite He, Hcont.
  pose proof (nodes_ok_remove_tab s t tab Hn Eget) as Hn'.
  cbn [tabsContainer mainContent activeTabs activePanels addressValue].
  destruct (String.eqb_spec (currentTabId s) t) as [Ecur|Ecur].
  - cbn [tabs].
    destruct (JsMap.keys (JsMap.delete (tabs s) t)) as [|first l] eqn:El.
    + apply Nat.leb_gt in Esize. pose proof (size_delete _ _ _ Eget) as Hs.
      unfold JsMap.size, JsMap.keys in *. apply (f_equal (@List.length _)) in El.
      rewrite List.length_map in El. simpl in El. lia.
    + split; [now apply nodes_ok_switchToTab|].
      assert (Hin : In first (JsMap.keys (JsMap.delete (tabs s) t)))
        by (rewrite El; now left).
      rewrite (switchToTab_existing frameUrl first _ Hn' Hin).
      destruct (switchToTab_fields frameUrl first
                  {| tabs := JsMap.delete (tabs s) t; currentTabId := currentTabId s;
                     tabCounter := tabCounter s; history := JsMap.delete (history s) t;
                     currentHistoryIndex := JsMap.delete (currentHistoryIndex s) t;
                     dom := {| tabsContainer := remove_node t (tabsContainer (dom s));
                               mainContent := remove_node (panel_id t) (mainContent (dom s));
                               activeTabs := remove_node t (activeTabs (dom s));
                               activePanels := remove_node (panel_id t) (activePanels (dom s));
                               addressValue := addressValue (dom s) |} |})
        as (-> & _ & _).
      exact Hin.
  - split; [exact Hn'|]. cbn [tabs currentTabId]. now apply keys_delete_keep.
Qed.

Lemma tabs_ok_step frameUrl o s :
  o <> DomContentLoaded -> tabs_ok s -> tabs_ok (step frameUrl o s).
Proof.
  intros Ho [Hn Hc]. destruct o; cbn [step]; [now destruct Ho| | | | | | | |].
  - unfold createTab. cbn [fst]. apply tabs_ok_switchToTab. split.
    + now apply nodes_ok_add_tab.
    + cbn [tabs currentTabId]. apply keys_set_in. now right.
  - now apply tabs_ok_closeTab.
  - now apply tabs_ok_switchToTab.
  - unfold updateTabTitle. destruct (JsMap.get (tabs s) tabId) as [tab|] eqn:E; [|now split].
    split; [now apply (nodes_ok_update s tabId tab)|].
    cbn [with_tabs tabs currentTabId]. now apply (keys_set_existing _ _ _ _ _ E).
  - unfold updateTabUrl. destruct (JsMap.get (tabs s) tabId) as [tab|] eqn:E; [|now split].
    split; [now apply (nodes_ok_update s tabId tab)|].
    cbn [with_tabs tabs currentTabId]. now apply (keys_set_existing _ _ _ _ _ E).
  - now split.
  - unfold goBack.
    destruct (JsMap.get (currentHistoryIndex s) _); [|now split].
    destruct (0 <? _)%Z; [|now split].
    destruct (JsMap.get (history s) _); now split.
  - unfold goForward.
    destruct (JsMap.get (history s) _); [|now split].
    destruct (JsMap.get (currentHistoryIndex s) _); [|now split].
    destruct (_ <? _)%Z; now split.
Qed.

Lemma tabs_ok_initial page : page_ok page -> tabs_ok (initial page).
Proof.
  intros [Hstrip Hpanel]. unfold initial, onDOMContentLoaded, TabManager.constructor.
  cbn [tabs dom history currentHistoryIndex currentTabId tabCounter].
  rewrite Hstrip, (query_in _ _ Hpanel).
  change (query "home" ["home"]) with (Some "home").
  split; [|apply keys_set_in; now left].
  unfold nodes_ok. cbn [tabs dom]. rewrite Hstrip. split; [|split].
  - apply NoDup_set. constructor.
  - intros k tab Hget. destruct (String.eqb_spec "home" k) as [<-|Hne].
    + rewrite get_set_eq in Hget. injection Hget as <-. cbn. auto.
    + rewrite get_set_ne in Hget by assumption. discriminate.
  - intros x [<- | []]. apply keys_set_in. now left.
Qed.

Lemma tabs_ok_run frameUrl ops s :
  no_listener_event ops = true -> tabs_ok s -> tabs_ok (run frameUrl ops s).
Proof.
  revert s. induction ops as [|o ops IH]; intros s Hops H; [exact H|].
  cbn [run List.fold_left]. apply IH.
  - destruct o; try exact Hops. discriminate Hops.
  - apply tabs_ok_step; [|exact H]. intros ->. discriminate Hops.
Qed.

(** X8. On a page that has the home tab, the active tab always exists:
    whatever operations run after the page has registered the home tab,
    [currentTabId] names a tab of the map, and the tab node and the panel of
    that tab are in the document. *)
Theorem active_tab_always_exists
  (frameUrl : string -> option string) (page : Dom) (ops : list Op) :
  page_ok page ->
  no_listener_event ops = true ->
  let s := run frameUrl ops (initial page) in
  exists tab,
    JsMap.get (tabs s) (currentTabId s) = Some tab /\
    In (currentTabId s) (tabsContainer (dom s)) /\
    In (panel_id (currentTabId s)) (mainContent (dom s)).
Proof.
  intros Hpage Hops. cbv zeta.
  pose proof (tabs_ok_run frameUrl ops _ Hops (tabs_ok_initial page Hpage)) as [Hn Hc].
  apply in_keys_get in Hc. destruct Hc as [tab Htab]. exists tab.
  destruct Hn as (_ & Ha & _). destruct (Ha _ _ Htab) as (_ & _ & H3 & H4). auto.
Qed.

(** Closing the active tab of three: the oldest remaining tab takes over. *)
Lemma active_tab_always_exists_witness :
  currentTabId (run (fun _ => None)
                    [CreateTab None "New Tab"; CreateTab None "New Tab"; CloseTab "tab-2"]
                    (initial sample_page)) = "home".
Proof.
  destruct (active_tab_always_exists (fun _ => None) sample_page
              [CreateTab None "New Tab"; CreateTab None "New Tab"; CloseTab "tab-2"])
    as (tab & _ & _ & _).
  - split; [reflexivity | now left].
  - reflexivity.
  - reflexivity.
Defined.

(** ** The navigation functions: how they use the history *)

Lemma updateTabUrl_static t u m :
  history (updateTabUrl t u m) = history m /\
  currentHistoryIndex (updateTabUrl t u m) = currentHistoryIndex m /\
  currentTabId (updateTabUrl t u m) = currentTabId m /\
  dom (updateTabUrl t u m) = dom m /\
  tabCounter (updateTabUrl t u m) = tabCounter m.
Proof.
  unfold updateTabUrl. destruct (JsMap.get (tabs m) t); cbn; auto.
Qed.

Lemma updateTabTitle_static t ttl m :
  history (updateTabTitle t ttl m) = history m /\
  currentHistoryIndex (updateTabTitle t ttl m) = currentHistoryIndex m /\
  currentTabId (updateTabTitle t ttl m) = currentTabId m /\
  dom (updateTabTitle t ttl m) = dom m /\
  tabCounter (updateTabTitle t ttl m) = tabCounter m.
Proof.
  unfold updateTabTitle. destruct (JsMap.get (tabs m) t); cbn; auto.
Qed.

Lemma setLoading_static t m :
  history (Browser.setLoading t m) = history m /\
  currentHistoryIndex (Browser.setLoading t m) = currentHistoryIndex m /\
  currentTabId (Browser.setLoading t m) = currentTabId m /\
  dom (Browser.setLoading t m) = dom m.
Proof.
  unfold Browser.setLoading. destruct (JsMap.get (tabs m) t); cbn; auto.
Qed.

(** The history views depend on the two history maps only. *)
Lemma views_of_maps m m' t :
  history m' = history m -> currentHistoryIndex m' = currentHistoryIndex m ->
  entries m' t = entries m t /\ position m' t = position m t.
Proof.
  unfold entries, position. intros -> ->. auto.
Qed.

(** Once the service worker is registered, a call that goes on records the
    address in the history of its target tab, whatever happens to the frame
    afterwards. *)
Lemma proceed_history a u target b :
  Browser.registerSW a = None -> Browser.searchUrl_ok a = true ->
  let m' := Browser.manager (Browser.proceed a u target b) in
  history m' = history (addToHistory target u (Browser.manager b)) /\
  currentHistoryIndex m' = currentHistoryIndex (addToHistory target u (Browser.manager b)) /\
  currentTabId m' = currentTabId (Browser.manager b).
Proof.
  intros Hsw Hok. cbv zeta. unfold Browser.proceed. rewrite Hsw, Hok. cbn [negb].
  set (m1 := addToHistory target u (Browser.manager b)).
  destruct (updateTabUrl_static target u m1) as (H1 & H2 & H3 & _).
  destruct (updateTabTitle_static target "Loading..." (updateTabUrl target u m1))
    as (H4 & H5 & H6 & _).
  destruct (setLoading_static target
              (updateTabTitle target "Loading..." (updateTabUrl target u m1)))
    as (H7 & H8 & H9 & _).
  assert (Hc : currentTabId m1 = currentTabId (Browser.manager b)) by reflexivity.
  destruct (Browser.title_throws target (updateTabUrl target u m1)).
  - cbn [Browser.with_manager Browser.manager]. rewrite H4, H5, H6, H1, H2, H3. auto.
  - destruct (List.existsb _ _); cbn [Browser.with_manager Browser.manager];
      rewrite H7, H8, H9, H4, H5, H6, H1, H2, H3; auto.
Qed.

Lemma navigateToUrl_history a u tabId b :
  Browser.registerSW a = None -> Browser.searchUrl_ok a = true ->
  let target := Text.or_default tabId (currentTabId (Browser.manager b)) in
  let m' := Browser.manager (Browser.navigateToUrl a u tabId b) in
  history m' = history (addToHistory target u (Browser.manager b)) /\
  currentHistoryIndex m' = currentHistoryIndex (addToHistory target u (Browser.manager b)) /\
  currentTabId m' = currentTabId (Browser.manager b).
Proof.
  intros Hsw Hok. exact (proceed_history a u _ b Hsw Hok).
Qed.


(** *** Back, Forward and the navigation that waits *)






(** *** A navigation that reaches its frame *)

Lemma navigateToUrl_loaded a u tabId b tab e :
  Browser.registerSW a = None -> Browser.searchUrl_ok a = true ->
  let target := Text.or_default tabId (currentTabId (Browser.manager b)) in
  JsMap.get (tabs (Browser.manager b)) target = Some tab ->
  element tab = Some e ->
  In (panel_id target) (mainContent (dom (Browser.manager b))) ->
  let b' := Browser.navigateToUrl a u tabId b in
  JsMap.get (tabs (Browser.manager b')) target
  = Some {| element := element tab; content := content tab; title := "Loading...";
            url := Some u; loading := true |} /\
  (forall k, k <> target ->
     JsMap.get (tabs (Browser.manager b')) k = JsMap.get (tabs (Browser.manager b)) k) /\
  Browser.listeners b' = (Browser.listeners b ++ [target])%list /\
  Browser.errorShown b' = Browser.errorShown b.
Proof.
  intros Hsw Hok target Hget He Hin b'. subst b'.
  unfold Browser.navigateToUrl, Browser.proceed. rewrite Hsw, Hok. cbn [negb]. fold target. cbv zeta.
  set (m1 := addToHistory target u (Browser.manager b)).
  set (tab2 := {| element := element tab; content := content tab; title := title tab;
                  url := Some u; loading := loading tab |}).
  set (m2 := with_tabs m1 (JsMap.set (tabs m1) target tab2)).
  assert (E2 : updateTabUrl target u m1 = m2).
  { unfold updateTabUrl. change (tabs m1) with (tabs (Browser.manager b)).
    now rewrite Hget. }
  rewrite !E2.
  assert (G2 : JsMap.get (tabs m2) target = Some tab2) by apply get_set_eq.
  set (tab3 := {| element := element tab; content := content tab; title := "Loading...";
                  url := Some u; loading := loading tab |}).
  set (m3 := with_tabs m2 (JsMap.set (tabs m2) target tab3)).
  assert (E3 : updateTabTitle target "Loading..." m2 = m3).
  { unfold updateTabTitle. now rewrite G2. }
  rewrite !E3.
  assert (G3 : JsMap.get (tabs m3) target = Some tab3) by apply get_set_eq.
  set (tab4 := {| element := element tab; content := content tab; title := "Loading...";
                  url := Some u; loading := true |}).
  set (m4 := with_tabs m3 (JsMap.set (tabs m3) target tab4)).
  assert (E4 : Browser.setLoading target m3 = m4).
  { unfold Browser.setLoading. now rewrite G3. }
  rewrite !E4.
  assert (T : Browser.title_throws target m2 = false).
  { unfold Browser.title_throws. rewrite G2. cbn [element tab2]. now rewrite He. }
  rewrite T.
  assert (Ex : List.existsb (String.eqb (panel_id target)) (mainContent (dom m4)) = true).
  { change (dom m4) with (dom (Browser.manager b)).
    apply List.existsb_exists. exists (panel_id target).
    split; [exact Hin | apply String.eqb_refl]. }
  rewrite Ex. cbn [Browser.manager Browser.listeners Browser.errorShown].
  split; [apply get_set_eq|]. split; [|auto].
  intros k Hk. unfold m4, m3, m2. cbn [tabs with_tabs].
  rewrite !get_set_ne by (intros E; now apply Hk). reflexivity.
Qed.


Lemma addToHistory_other t u m k :
  k <> t ->
  entries (addToHistory t u m) k = entries m k /\
  position (addToHistory t u m) k = position m k.
Proof.
  intros Hk. unfold entries, position, addToHistory, JsMap.has.
  cbn [history currentHistoryIndex].
  assert (Hne : t <> k) by (intros E; now apply Hk).
  rewrite !get_set_ne by exact Hne.
  destruct (JsMap.get (history m) t); [auto|].
  rewrite !get_set_ne by exact Hne. auto.
Qed.

Lemma count_of_app x l l' : count_of x (l ++ l') = count_of x l + count_of x l'.
Proof.
  induction l as [|y l IH]; [reflexivity|].
  cbn [count_of List.app]. rewrite IH. lia.
Qed.

(** X11. A call of [navigateToUrl] that finds the service worker, a valid
    search address, the tab with its node and the panel of the tab, and
    that goes on before anything else runs: the address is appended to the
    history of the tab after the entries up to its index, the tab object
    gets the address, the title [Loading...] and the loading flag, no other
    tab object and no other history changes, the error box stays as it is,
    and one more [message] listener bound to the tab is registered on the
    window: listeners are added, never removed. *)
Theorem navigateToUrl_records_and_listens
  (a : Browser.Answers) (u : string) (tabId : option string) (b : Browser.State)
  (tab : Tab) (e : string) (i : Z) :
  Browser.registerSW a = None ->
  Browser.searchUrl_ok a = true ->
  let target := Text.or_default tabId (currentTabId (Browser.manager b)) in
  JsMap.get (tabs (Browser.manager b)) target = Some tab ->
  element tab = Some e ->
  In (panel_id target) (mainContent (dom (Browser.manager b))) ->
  position (Browser.manager b) target = Some i ->
  (-1 <= i)%Z ->
  let b' := Browser.navigateToUrl a u tabId b in
  entries (Browser.manager b') target
  = (List.firstn (Z.to_nat (i + 1)) (entries (Browser.manager b) target) ++ [u])%list /\
  position (Browser.manager b') target
  = Some (Z.of_nat (List.length (entries (Browser.manager b') target)) - 1)%Z /\
  JsMap.get (tabs (Browser.manager b')) target
  = Some {| element := element tab; content := content tab; title := "Loading...";
            url := Some u; loading := true |} /\
  (forall k, k <> target ->
     JsMap.get (tabs (Browser.manager b')) k = JsMap.get (tabs (Browser.manager b)) k /\
     entries (Browser.manager b') k = entries (Browser.manager b) k /\
     position (Browser.manager b') k = position (Browser.manager b) k) /\
  count_of target (Browser.listeners b') = S (count_of target (Browser.listeners b)) /\
  (forall k, k <> target ->
     count_of k (Browser.listeners b') = count_of k (Browser.listeners b)) /\
  Browser.errorShown b' = Browser.errorShown b.
Proof.
  intros Hsw Hok target Hget He Hin Hpos Hi b'.
  destruct (navigateToUrl_loaded a u tabId b tab e Hsw Hok Hget He Hin)
    as (Htab & Hothers & Hl & Herr).
  destruct (navigateToUrl_history a u tabId b Hsw Hok) as (Hh & Hx & _).
  fold target in Hh, Hx, Htab, Hothers, Hl.
  fold b' in Hh, Hx, Htab, Hothers, Hl, Herr.
  destruct (addToHistory_at (Browser.manager b) target u i Hpos Hi) as (He1 & Hp1 & _).
  assert (Hv : forall k,
             entries (Browser.manager b') k
             = entries (addToHistory target u (Browser.manager b)) k /\
             position (Browser.manager b') k
             = position (addToHistory target u (Browser.manager b)) k).
  { intros k. now apply views_of_maps. }
  split; [rewrite (proj1 (Hv target)); exact He1|].
  split; [rewrite (proj2 (Hv target)), (proj1 (Hv target)); exact Hp1|].
  split; [exact Htab|].
  split.
  { intros k Hk. split; [now apply Hothers|].
    rewrite (proj1 (Hv k)), (proj2 (Hv k)). now apply addToHistory_other. }
  split.
  { rewrite Hl, count_of_app. cbn [count_of]. rewrite String.eqb_refl. lia. }
  split; [|auto].
  intros k Hk. rewrite Hl, count_of_app. cbn [count_of].
  assert (E : String.eqb target k = false)
    by (apply String.eqb_neq; intros E; now apply Hk).
  rewrite E. lia.
Qed.


Lemma navigateToUrl_records_and_listens_witness :
  entries (Browser.manager (Browser.navigateToUrl sw_ready "c.example" None two_visits))
    "tab-1"
  = ["a.example"; "b.example"; "c.example"] /\
  count_of "tab-1"
    (Browser.listeners (Browser.navigateToUrl sw_ready "c.example" None two_visits)) = 3.
Proof.
  destruct (navigateToUrl_records_and_listens sw_ready "c.example" None two_visits
              {| element := Some "tab-1"; content := Some "tab-tab-1";
                 title := "Loading..."; url := Some "b.example"; loading := true |}
              "tab-1" 1%Z)
    as (He & _ & _ & _ & Hc & _); try reflexivity.
  - vm_compute. auto.
  - lia.
  - split; [exact He | exact Hc].
Defined.


(** *** urlChange messages and the listeners *)

Lemma title_throws_updateTabUrl t t' u m :
  Browser.title_throws t (updateTabUrl t' u m) = Browser.title_throws t m.
Proof.
  unfold Browser.title_throws, updateTabUrl.
  destruct (JsMap.get (tabs m) t') as [tab|] eqn:E; [|reflexivity].
  cbn [tabs with_tabs]. destruct (String.eqb_spec t' t) as [<-|Hne].
  - now rewrite get_set_eq, E.
  - now rewrite get_set_ne.
Qed.

Lemma title_throws_updateTabTitle t t' ttl m :
  Browser.title_throws t (updateTabTitle t' ttl m) = Browser.title_throws t m.
Proof.
  unfold Browser.title_throws, updateTabTitle.
  destruct (JsMap.get (tabs m) t') as [tab|] eqn:E; [|reflexivity].
  cbn [tabs with_tabs]. destruct (String.eqb_spec t' t) as [<-|Hne].
  - now rewrite get_set_eq, E.
  - now rewrite get_set_ne.
Qed.

Lemma onUrlChange_appends cleanUrl t raw ttl m :
  Browser.title_throws t m = false ->
  position m t = Some (Z.of_nat (List.length (entries m t)) - 1)%Z ->
  let m' := Browser.onUrlChange cleanUrl t raw ttl m in
  Browser.title_throws t m' = false /\
  entries m' t = (entries m t ++ [cleanUrl raw])%list /\
  position m' t = Some (Z.of_nat (List.length (entries m' t)) - 1)%Z /\
  forall k, k <> t -> entries m' k = entries m k /\ position m' k = position m k.
Proof.
  intros Ht Hpos m'. subst m'. unfold Browser.onUrlChange. cbv zeta.
  set (u := cleanUrl raw).
  set (m1 := updateTabUrl t u m).
  set (m2 := updateTabTitle t (Text.or_default ttl "Loading...") m1).
  assert (T1 : Browser.title_throws t m1 = false)
    by (unfold m1; now rewrite title_throws_updateTabUrl).
  assert (T2 : Browser.title_throws t m2 = false)
    by (unfold m2; now rewrite title_throws_updateTabTitle).
  rewrite T1.
  set (m3 := if String.eqb (currentTabId m2) t then Browser.with_address m2 u else m2).
  assert (Hh : history m3 = history m /\ currentHistoryIndex m3 = currentHistoryIndex m /\
               tabs m3 = tabs m2).
  { destruct (updateTabUrl_static t u m) as (H1 & H2 & _).
    destruct (updateTabTitle_static t (Text.or_default ttl "Loading...") m1)
      as (H3 & H4 & _).
    fold m1 in H1, H2. fold m2 in H3, H4.
    unfold m3. destruct (String.eqb (currentTabId m2) t); cbn; rewrite ?H3, ?H4; auto. }
  destruct Hh as (Hh & Hx & Htabs).
  assert (Hv : forall k, entries m3 k = entries m k /\ position m3 k = position m k)
    by (intros k; now apply views_of_maps).
  assert (Hp3 : position m3 t = Some (Z.of_nat (List.length (entries m3 t)) - 1)%Z).
  { rewrite (proj1 (Hv t)), (proj2 (Hv t)). exact Hpos. }
  destruct (addToHistory_at m3 t u _ Hp3 ltac:(lia)) as (He & Hp & _).
  split.
  { unfold Browser.title_throws.
    change (tabs (addToHistory t u m3)) with (tabs m3). rewrite Htabs. exact T2. }
  split.
  { rewrite He, <- (proj1 (Hv t)). f_equal. apply List.firstn_all2. lia. }
  split; [exact Hp|].
  intros k Hk. destruct (addToHistory_other t u m3 k Hk) as (-> & ->). apply Hv.
Qed.

(** X13. A [urlChange] message from the frame of a tab is handled by every
    [message] listener that the navigations in this tab have registered, and
    each of them calls [addToHistory]: when the tab stands at the end of its
    history and has its node, the cleaned address is appended once per
    listener bound to the tab, the index ends at the last of these copies,
    and the histories of the other tabs do not change. *)
Theorem urlChange_recorded_once_per_listener
  (cleanUrl : string -> string) (t raw : string) (ttl : option string)
  (b : Browser.State) :
  Browser.title_throws t (Browser.manager b) = false ->
  position (Browser.manager b) t
  = Some (Z.of_nat (List.length (entries (Browser.manager b) t)) - 1)%Z ->
  let b' := Browser.onMessage cleanUrl t raw ttl b in
  entries (Browser.manager b') t
  = (entries (Browser.manager b) t
     ++ List.repeat (cleanUrl raw) (count_of t (Browser.listeners b)))%list /\
  position (Browser.manager b') t
  = Some (Z.of_nat (List.length (entries (Browser.manager b') t)) - 1)%Z /\
  (forall k, k <> t ->
     entries (Browser.manager b') k = entries (Browser.manager b) k /\
     position (Browser.manager b') k = position (Browser.manager b) k) /\
  Browser.listeners b' = Browser.listeners b.
Proof.
  intros Ht Hpos b'. subst b'. unfold Browser.onMessage.
  cbn [Browser.manager Browser.listeners Browser.with_manager].
  revert Ht Hpos. generalize (Browser.manager b) as m.
  induction (Browser.listeners b) as [|x l IH]; intros m Ht Hpos.
  - cbn [List.fold_left count_of List.repeat]. rewrite List.app_nil_r. auto.
  - cbn [List.fold_left count_of].
    destruct (String.eqb_spec x t) as [->|Hne].
    + destruct (onUrlChange_appends cleanUrl t raw ttl m Ht Hpos) as (T & He & Hp & Ho).
      destruct (IH _ T Hp) as (He' & Hp' & Ho' & _).
      split.
      { rewrite He', He, <- List.app_assoc. reflexivity. }
      split; [exact Hp'|]. split; [|reflexivity].
      intros k Hk. destruct (Ho' k Hk) as (-> & ->). now apply Ho.
    + destruct (IH _ Ht Hpos) as (He' & Hp' & Ho' & _). auto.
Qed.

Lemma urlChange_recorded_once_per_listener_witness :
  entries (Browser.manager (Browser.onMessage (fun u => u) "tab-1" "c.example" None two_visits))
    "tab-1"
  = ["a.example"; "b.example"; "c.example"; "c.example"].
Proof.
  exact (proj1 (urlChange_recorded_once_per_listener (fun u => u) "tab-1" "c.example" None
                  two_visits eq_refl eq_refl)).
Defined.

(** *** The address monitor of a frame *)

(** X14. A run of [updateUrlAndTitle], the monitor that [setupUrlMonitoring]
    starts for a frame, never changes a history or an index: it stores the
    address it read in [lastUrl] before it compares the two, so its
    [addToHistory] is never reached.  When the address or the title it reads
    differs from the last one and the tab has its node, the tab gets the
    cleaned address and the title ([Loading...] for an empty one), and the
    monitor remembers both. *)
Theorem monitor_never_records_history
  (cleanUrl : string -> string) (tabId : string) (doc : option (string * string))
  (mon : Browser.Monitor) (m : TabManager.State) :
  let r := Browser.updateUrlAndTitle cleanUrl tabId doc mon m in
  history (snd r) = history m /\
  currentHistoryIndex (snd r) = currentHistoryIndex m /\
  forall location currentTitle tab e,
    doc = Some (location, currentTitle) ->
    cleanUrl location <> Browser.lastUrl mon \/ currentTitle <> Browser.lastTitle mon ->
    JsMap.get (tabs m) tabId = Some tab ->
    element tab = Some e ->
    fst r = {| Browser.lastUrl := cleanUrl location; Browser.lastTitle := currentTitle |} /\
    JsMap.get (tabs (snd r)) tabId
    = Some {| element := element tab; content := content tab;
              title := Text.or_default (Some currentTitle) "Loading...";
              url := Some (cleanUrl location); loading := loading tab |}.
Proof.
  cbv zeta. unfold Browser.updateUrlAndTitle.
  destruct doc as [[location currentTitle]|];
    [|split; [reflexivity | split; [reflexivity | intros; discriminate]]].
  set (u := cleanUrl location).
  set (m1 := updateTabUrl tabId u m).
  set (m2 := updateTabTitle tabId (Text.or_default (Some currentTitle) "Loading...") m1).
  destruct (updateTabUrl_static tabId u m) as (H1 & H2 & _).
  destruct (updateTabTitle_static tabId (Text.or_default (Some currentTitle) "Loading...") m1)
    as (H3 & H4 & _).
  fold m1 in H1, H2. fold m2 in H3, H4.
  cbn [Browser.lastUrl]. rewrite (String.eqb_refl u). cbn [negb].
  set (m3 := if String.eqb (currentTabId m2) tabId then Browser.with_address m2 u else m2).
  assert (Hm3 : history m3 = history m /\ currentHistoryIndex m3 = currentHistoryIndex m /\
                tabs m3 = tabs m2).
  { unfold m3. destruct (String.eqb (currentTabId m2) tabId); cbn; rewrite ?H3, ?H4; auto. }
  destruct Hm3 as (H5 & H6 & H7).
  destruct (negb (String.eqb u (Browser.lastUrl mon))
            || negb (String.eqb currentTitle (Browser.lastTitle mon)))%bool eqn:Ech.
  - assert (Hhist : forall x, x = m2 \/ x = m3 ->
                history x = history m /\ currentHistoryIndex x = currentHistoryIndex m).
    { intros x [-> | ->]; [rewrite H3, H4 | rewrite H5, H6]; auto. }
    split; [destruct (Browser.title_throws tabId m1); apply Hhist; auto|].
    split; [destruct (Browser.title_throws tabId m1); apply Hhist; auto|].
    intros location' currentTitle' tab e Hdoc _ Hget He.
    injection Hdoc as <- <-.
    assert (T1 : Browser.title_throws tabId m1 = false).
    { unfold m1. rewrite title_throws_updateTabUrl. unfold Browser.title_throws.
      now rewrite Hget, He. }
    rewrite T1. cbn [fst snd]. split; [reflexivity|].
    rewrite H7. unfold m2, updateTabTitle, m1, updateTabUrl. rewrite Hget.
    cbn [tabs with_tabs]. rewrite get_set_eq. cbn [tabs with_tabs].
    rewrite get_set_eq. reflexivity.
  - split; [reflexivity|]. split; [reflexivity|].
    intros location' currentTitle' tab e Hdoc Hch _ _. exfalso.
    injection Hdoc as <- <-.
    apply Bool.orb_false_iff in Ech. destruct Ech as (Eu & Et).
    apply Bool.negb_false_iff in Eu, Et.
    apply String.eqb_eq in Eu, Et. destruct Hch as [Hch|Hch]; now apply Hch.
Qed.

(** ** The other methods of the cookie manager *)

Import CookieOps CookieConditions.

Lemma attributes_of_set store d cookies d' n' :
  attributes_of (JsMap.set store d (CookieMap cookies)) d' n'
  = if String.eqb d d'
    then match JsMap.get cookies n' with
         | Some c => Some (cookie_json c)
         | None => None
         end
    else attributes_of store d' n'.
Proof.
  unfold attributes_of. destruct (String.eqb_spec d d') as [<-|Hne].
  - now rewrite get_set_eq.
  - now rewrite get_set_ne.
Qed.

(** X15. Within one page load (every domain of the store holds a [Map]),
    [deleteCookie] returns, [getCookie] for the deleted cookie then returns
    null, the attributes of every other cookie of every domain are as
    before, and every domain still holds a [Map]. *)
Theorem deleteCookie_then_getCookie_on_maps
  (Date_parse : string -> option Z) (now : Z) (d n : string) (m : Manager) :
  all_maps (cookieStore m) ->
  let m' := snd (deleteCookie d n m) in
  fst (deleteCookie d n m) = Return tt /\
  fst (getCookie Date_parse now d n m') = Return None /\
  attributes_of (cookieStore m') d n = None /\
  (forall d' n', d' <> d \/ n' <> n ->
     attributes_of (cookieStore m') d' n' = attributes_of (cookieStore m) d' n') /\
  all_maps (cookieStore m').
Proof.
  intros Hall. cbv zeta. unfold deleteCookie.
  destruct (JsMap.get (cookieStore m) d) as [dc|] eqn:Eget.
  - destruct (all_maps_get _ _ _ Hall Eget) as (cookies & -> & Hnd).
    cbn [fst snd saveCookies with_store cookieStore].
    split; [reflexivity|].
    split; [unfold getCookie; cbn [cookieStore saveCookies with_store];
            now rewrite get_set_eq, get_delete_eq|].
    split; [rewrite attributes_of_set, String.eqb_refl; now rewrite get_delete_eq|].
    split.
    + intros d' n' Hne. rewrite attributes_of_set.
      destruct (String.eqb_spec d d') as [<-|Hd].
      * destruct Hne as [Hne|Hne]; [now contradiction Hne|].
        unfold attributes_of. rewrite Eget.
        rewrite get_delete_ne by (intros E; now apply Hne). reflexivity.
      * reflexivity.
    + apply all_maps_set; [exact Hall | now apply NoDup_delete].
  - cbn [fst snd]. split; [reflexivity|].
    split; [unfold getCookie; now rewrite Eget|].
    split; [unfold attributes_of; now rewrite Eget|].
    split; [reflexivity | exact Hall].
Qed.

Lemma deleteCookie_then_getCookie_on_maps_witness :
  fst (getCookie epoch_clock 0 "example.com" "sid"
         (snd (deleteCookie "example.com" "sid" first_visit))) = Return None.
Proof.
  exact (proj1 (proj2 (deleteCookie_then_getCookie_on_maps epoch_clock 0 "example.com" "sid"
                         first_visit first_visit_all_maps))).
Defined.

Lemma set_get_on_empty Date_parse now d n v ls :
  let m := {| cookieStore := JsMap.empty; localStorage := ls |} in
  fst (setCookie d n v no_options m) = Return tt /\
  fst (getCookie Date_parse now d n (snd (setCookie d n v no_options m)))
  = Return (Some v).
Proof.
  cbv zeta. unfold setCookie. cbn [cookieStore JsMap.has JsMap.get JsMap.empty].
  rewrite get_set_eq. cbn [fst snd]. split; [reflexivity|].
  unfold getCookie. cbn [saveCookies with_store cookieStore].
  rewrite get_set_eq, get_set_eq. reflexivity.
Qed.

(** X16. [clearAllCookies] empties the store and writes the empty object to
    local storage, whatever the store held (parsed values of an earlier page
    load among them).  On the cleared manager, and on the manager that the
    next page load constructs from that storage, [setCookie] returns for
    every domain and [getCookie] returns the value set. *)
Theorem clearAllCookies_repairs_the_store
  (Date_parse : string -> option Z) (now : Z) (m : Manager) (d n v : string) :
  let m1 := clearAllCookies m in
  let m2 := CookieManager.constructor (localStorage m1) in
  cookieStore m1 = JsMap.empty /\
  JsMap.get (localStorage m1) storage_key = Some (JObj []) /\
  cookieStore m2 = JsMap.empty /\
  fst (setCookie d n v no_options m1) = Return tt /\
  fst (getCookie Date_parse now d n (snd (setCookie d n v no_options m1)))
  = Return (Some v) /\
  fst (setCookie d n v no_options m2) = Return tt /\
  fst (getCookie Date_parse now d n (snd (setCookie d n v no_options m2)))
  = Return (Some v).
Proof.
  cbv zeta.
  assert (Hls : JsMap.get (localStorage (clearAllCookies m)) storage_key = Some (JObj []))
    by (unfold clearAllCookies, saveCookies; cbn [localStorage]; apply get_set_eq).
  assert (H2 : CookieManager.constructor (localStorage (clearAllCookies m))
               = {| cookieStore := JsMap.empty;
                    localStorage := localStorage (clearAllCookies m) |}).
  { unfold CookieManager.constructor, loadCookies. cbn [localStorage cookieStore].
    cbn [localStorage] in Hls. rewrite Hls. reflexivity. }
  split; [reflexivity|]. split; [exact Hls|].
  split; [now rewrite H2|].
  destruct (set_get_on_empty Date_parse now d n v (localStorage (clearAllCookies m)))
    as (Hs & Hg).
  split; [exact Hs|]. split; [exact Hg|].
  rewrite H2. split; [exact Hs | exact Hg].
Qed.

(** *** What the next page load finds *)

Lemma Map_of_entries_keys es acc k :
  In k (JsMap.keys (List.fold_left
                      (fun a x => JsMap.set a (fst x) (Parsed (snd x))) es acc))
  <-> In k (List.map fst es) \/ In k (JsMap.keys acc).
Proof.
  revert acc. induction es as [|x es IH]; intros acc; cbn [List.fold_left List.map].
  - cbn. tauto.
  - rewrite IH, keys_set_in. cbn [In]. intuition.
Qed.

Lemma keys_map_fst {V : Type} (m : JsMap.t V) : JsMap.keys m = List.map fst m.
Proof.
  unfold JsMap.keys. reflexivity.
Qed.

Lemma reloaded_store m :
  all_maps (cookieStore m) ->
  let r := CookieManager.constructor (localStorage (saveCookies m)) in
  localStorage r = localStorage (saveCookies m) /\
  (forall e, In e (cookieStore r) -> snd e = Parsed (JObj [])) /\
  (forall d, JsMap.get (cookieStore r) d
             = match JsMap.get (cookieStore m) d with
               | Some _ => Some (Parsed (JObj []))
               | None => None
               end).
Proof.
  intros Hall r.
  assert (Er : r = {| cookieStore :=
                        Map_of_entries (List.map (fun e => (fst e, JObj [])) (cookieStore m));
                      localStorage := localStorage (saveCookies m) |}).
  { unfold r, CookieManager.constructor, loadCookies, saveCookies.
    cbn [localStorage cookieStore].
    rewrite get_set_eq, stringify_store_on_maps by assumption. reflexivity. }
  assert (Hvals : forall e, In e (cookieStore r) -> snd e = Parsed (JObj [])).
  { rewrite Er. cbn [cookieStore]. unfold Map_of_entries.
    apply (Map_of_entries_values (fun x => x = Parsed (JObj []))).
    - intros e [].
    - intros e Hin. apply List.in_map_iff in Hin. destruct Hin as (x & <- & _). reflexivity. }
  split; [rewrite Er; reflexivity|]. split; [exact Hvals|].
  intros d.
  assert (Hkeys : In d (JsMap.keys (cookieStore r)) <-> In d (JsMap.keys (cookieStore m))).
  { rewrite Er. cbn [cookieStore]. unfold Map_of_entries.
    rewrite Map_of_entries_keys, List.map_map. cbn [fst].
    rewrite (keys_map_fst (cookieStore m)). cbn. tauto. }
  destruct (JsMap.get (cookieStore m) d) as [dc|] eqn:Em.
  - apply get_some_in_keys in Em. apply Hkeys in Em.
    destruct (in_keys_get _ _ Em) as (v & Hv). rewrite Hv. f_equal.
    exact (Hvals _ (get_in _ _ _ Hv)).
  - apply get_none_not_in. rewrite Hkeys. now apply get_none_not_in.
Qed.

Lemma count_on_maps store k :
  all_maps store ->
  List.fold_left add_size (List.map snd store) (Some (Return (Count k)))
  = Some (Return (Count (k + cookie_total store))).
Proof.
  revert k. induction store as [|[d dc] store IH]; intros k Hall.
  - cbn. now rewrite Nat.add_0_r.
  - destruct (Hall (d, dc) (or_introl eq_refl)) as (cookies & E & _).
    cbn [snd] in E. subst dc. cbn [List.map List.fold_left snd add_size cookie_total].
    rewrite IH by (intros e He; apply Hall; now right).
    now rewrite Nat.add_assoc.
Qed.

Lemma count_on_parsed (l : list DomainCookies) t :
  (forall dc, In dc l -> dc = Parsed (JObj [])) ->
  l <> [] ->
  List.fold_left add_size l (Some (Return t)) = Some (Return NaN).
Proof.
  revert t. induction l as [|dc l IH]; intros t Hall Hne; [congruence|].
  rewrite (Hall dc (or_introl eq_refl)). cbn [List.fold_left add_size JsMap.has JsMap.get].
  destruct l as [|dc' l']; [reflexivity|].
  apply IH; [|discriminate]. intros x Hx. apply Hall. now right.
Qed.

(** X17. What the next page load finds for a domain whose cookies were
    saved (a store of [Map]s written by [saveCookies], read back by the
    constructor): the domain holds the empty parsed object.  For it
    [getCookiesForDomain] returns the empty object and [getCookieString] the
    empty text, both without touching the manager, while [setCookie],
    [getCookie] and [deleteCookie] end with a TypeError; and the cookie count
    of the page, a number before, reads [NaN cookies stored]. *)
Theorem reloaded_domain_is_unusable
  (Date_parse : string -> option Z) (now : nat -> Z) (t : Z)
  (m : Manager) (d : string) (dc : DomainCookies) (n v : string) (options : Options) :
  all_maps (cookieStore m) ->
  JsMap.get (cookieStore m) d = Some dc ->
  let r := CookieManager.constructor (localStorage (saveCookies m)) in
  JsMap.get (cookieStore r) d = Some (Parsed (JObj [])) /\
  getCookiesForDomain Date_parse now d r = Some ([], r) /\
  getCookieString Date_parse now d r = Some ("", r) /\
  setCookie d n v options r
  = (Throw (TypeError "domainCookies.set is not a function"), r) /\
  getCookie Date_parse t d n r
  = (Throw (TypeError "domainCookies.get is not a function"), r) /\
  deleteCookie d n r
  = (Throw (TypeError "domainCookies.delete is not a function"), r) /\
  updateCookieCount m
  = Some (Return (Text.decimal (cookie_total (cookieStore m)) ++ " cookies stored")) /\
  updateCookieCount r = Some (Return "NaN cookies stored").
Proof.
  intros Hall Hget r.
  destruct (reloaded_store m Hall) as (_ & Hvals & Hstore). fold r in Hvals, Hstore.
  assert (Hd : JsMap.get (cookieStore r) d = Some (Parsed (JObj []))).
  { rewrite Hstore, Hget. reflexivity. }
  split; [exact Hd|].
  split; [unfold getCookiesForDomain; now rewrite Hd|].
  split; [unfold getCookieString, getCookiesForDomain; now rewrite Hd|].
  split.
  { unfold setCookie, JsMap.has. rewrite Hd, Hd. destruct r; reflexivity. }
  split; [unfold getCookie; now rewrite Hd|].
  split; [unfold deleteCookie; now rewrite Hd|].
  split.
  { unfold updateCookieCount. rewrite count_on_maps by assumption. reflexivity. }
  unfold updateCookieCount. rewrite count_on_parsed; [reflexivity| |].
  - intros x Hx. apply List.in_map_iff in Hx. destruct Hx as (e & <- & He).
    now apply Hvals.
  - apply get_in in Hd. destruct (cookieStore r); [destruct Hd | discriminate].
Qed.

Lemma reloaded_domain_is_unusable_witness :
  getCookieString epoch_clock (fun _ => 0%Z) "example.com" second_visit
  = Some ("", second_visit) /\
  updateCookieCount first_visit = Some (Return "1 cookies stored") /\
  updateCookieCount second_visit = Some (Return "NaN cookies stored").
Proof.
  destruct (reloaded_domain_is_unusable epoch_clock (fun _ => 0%Z) 0 first_visit
              "example.com" (CookieMap [("sid", default_cookie "example.com" "42")])
              "sid" "42" no_options first_visit_all_maps eq_refl)
    as (_ & _ & Hs & _ & _ & _ & Hc & Hc').
  split; [exact Hs|]. split; [exact Hc | exact Hc'].
Defined.

(** *** The cookies listed for a domain *)

Lemma delete_app_new {V : Type} (pre : JsMap.t V) k v rest :
  ~ In k (JsMap.keys pre) ->
  JsMap.delete (pre ++ (k, v) :: rest)%list k = (pre ++ rest)%list.
Proof.
  induction pre as [|[k0 v0] pre IH]; intros Hnin; cbn [List.app JsMap.delete].
  - now rewrite String.eqb_refl.
  - destruct (String.eqb_spec k0 k) as [->|Hne].
    + exfalso. apply Hnin. now left.
    + rewrite IH; [reflexivity|]. intros H. apply Hnin. now right.
Qed.

Lemma set_app_new {V : Type} (m : JsMap.t V) k v :
  ~ In k (JsMap.keys m) -> JsMap.set m k v = (m ++ [(k, v)])%list.
Proof.
  induction m as [|[k0 v0] m IH]; intros Hnin; cbn [List.app JsMap.set]; [reflexivity|].
  destruct (String.eqb_spec k0 k) as [->|Hne].
  - exfalso. apply Hnin. now left.
  - rewrite IH; [reflexivity|]. intros H. apply Hnin. now right.
Qed.

Lemma unexpired_keys Date_parse now i cookies k :
  In k (JsMap.keys (unexpired Date_parse now i cookies)) -> In k (JsMap.keys cookies).
Proof.
  revert i. induction cookies as [|e cookies IH]; intros i; cbn [unexpired]; [tauto|].
  destruct (expired Date_parse (now i) (snd e)); cbn; intros H.
  - right. now apply (IH (S i)).
  - destruct H as [H|H]; [now left | right; now apply (IH (S i))].
Qed.

Lemma unexpired_NoDup Date_parse now i cookies :
  NoDup (JsMap.keys cookies) -> NoDup (JsMap.keys (unexpired Date_parse now i cookies)).
Proof.
  revert i. induction cookies as [|e cookies IH]; intros i Hnd; cbn [unexpired];
    [constructor|].
  inversion Hnd as [|? ? Hnin Hnd']; subst.
  destruct (expired Date_parse (now i) (snd e)); [now apply IH|].
  cbn. constructor; [|now apply IH].
  intros H. apply Hnin. now apply unexpired_keys in H.
Qed.

Lemma visit_spec Date_parse now todo :
  forall i pre obj,
    (forall k, In k (JsMap.keys pre) -> ~ In k (JsMap.keys todo)) ->
    NoDup (JsMap.keys todo) ->
    visit Date_parse now i todo (pre ++ todo)%list obj
    = ((pre ++ unexpired Date_parse now i todo)%list,
       List.fold_left (fun o e => assign o (fst e) (value (snd e)))
         (unexpired Date_parse now i todo) obj).
Proof.
  induction todo as [|[k c] rest IH]; intros i pre obj Hdis Hnd.
  - reflexivity.
  - inversion Hnd as [|? ? Hnin Hnd']; subst.
    cbn [visit unexpired fst snd].
    destruct (expired Date_parse (now i) c).
    + rewrite delete_app_new.
      * apply IH; [|exact Hnd'].
        intros x Hx Hx'. apply (Hdis x Hx). now right.
      * intros H. apply (Hdis k H). now left.
    + change (pre ++ (k, c) :: rest)%list with (pre ++ [(k, c)] ++ rest)%list.
      rewrite List.app_assoc, IH; [|  |exact Hnd'].
      * now rewrite <- List.app_assoc.
      * intros x Hx Hx'. unfold JsMap.keys in Hx. rewrite List.map_app in Hx.
        apply List.in_app_or in Hx. destruct Hx as [Hx|[<-|[]]].
        -- apply (Hdis x Hx). now right.
        -- now apply Hnin.
Qed.

Lemma assign_all (l : list (string * Cookie)) :
  NoDup (JsMap.keys l) ->
  forall obj,
    (forall k, In k (JsMap.keys l) -> ~ In k (JsMap.keys obj)) ->
    List.fold_left (fun o e => assign o (fst e) (value (snd e))) l obj
    = (obj ++ listed l)%list.
Proof.
  induction l as [|[k c] l IH]; intros Hnd obj Hdis.
  - cbn. now rewrite List.app_nil_r.
  - inversion Hnd as [|? ? Hnin Hnd']; subst.
    cbn [List.fold_left fst snd]. unfold listed, assign. cbn [List.filter fst].
    destruct (String.eqb_spec k "__proto__") as [->|Hne]; cbn [negb].
    + apply IH; [exact Hnd'|]. intros x Hx. apply Hdis. now right.
    + rewrite set_app_new by (apply Hdis; now left).
      rewrite IH; [|exact Hnd'|].
      * cbn [List.map fst snd]. now rewrite <- List.app_assoc.
      * intros x Hx Hx'. unfold JsMap.keys in Hx'. rewrite List.map_app in Hx'.
        apply List.in_app_or in Hx'. destruct Hx' as [Hx'|[<-|[]]].
        -- apply (Hdis x); [now right | exact Hx'].
        -- now apply Hnin.
Qed.

Lemma own_entries_plain (o : JsMap.t string) :
  (forall k, In k (JsMap.keys o) -> array_index k = None) -> own_entries o = o.
Proof.
  intros H. unfold own_entries.
  assert (Hi : index_entries o = []).
  { induction o as [|e o IH]; [reflexivity|]. cbn [index_entries].
    rewrite (H (fst e)) by now left. apply IH. intros k Hk. apply H. now right. }
  rewrite Hi. cbn [List.map List.app].
  induction o as [|e o IH]; [reflexivity|]. cbn [List.filter].
  rewrite (H (fst e)) by now left. f_equal. apply IH.
  - intros k Hk. apply H. now right.
  - cbn [index_entries] in Hi. rewrite (H (fst e)) in Hi by now left. exact Hi.
Qed.

Lemma listed_keys cookies k :
  In k (JsMap.keys (listed cookies)) -> In k (JsMap.keys cookies).
Proof.
  unfold listed, JsMap.keys. rewrite List.map_map. cbn [fst].
  intros H. apply List.in_map_iff in H. destruct H as (e & <- & He).
  apply List.filter_In in He. apply List.in_map. tauto.
Qed.

(** X18. [getCookiesForDomain] on a domain that holds a [Map]: the loop
    deletes from the [Map] every cookie that is expired at the time of its
    visit, the object returned lists the name and value of every cookie that
    stays, in the order of the [Map] (except a cookie named [__proto__],
    whose assignment makes no property), and the store is saved.  When no
    name that stays is an array index, [getCookieString] is these pairs as
    [name=value], joined by a semicolon and a space. *)
Theorem getCookiesForDomain_on_maps
  (Date_parse : string -> option Z) (now : nat -> Z) (d : string) (m : Manager)
  (cookies : JsMap.t Cookie) :
  JsMap.get (cookieStore m) d = Some (CookieMap cookies) ->
  NoDup (JsMap.keys cookies) ->
  let kept := unexpired Date_parse now 0 cookies in
  let m' := saveCookies (with_store m (JsMap.set (cookieStore m) d (CookieMap kept))) in
  getCookiesForDomain Date_parse now d m = Some (listed kept, m') /\
  ((forall k, In k (JsMap.keys kept) -> array_index k = None) ->
   getCookieString Date_parse now d m
   = Some (String.concat "; " (List.map (fun e => fst e ++ "=" ++ snd e) (listed kept)),
           m')).
Proof.
  intros Hget Hnd kept m'.
  assert (Hv : visit Date_parse now 0 cookies cookies []
               = (kept, listed kept)).
  { pose proof (visit_spec Date_parse now cookies 0 [] []
                  (fun _ H => match H with end) Hnd) as Hs.
    cbn [List.app] in Hs. rewrite Hs. f_equal.
    rewrite assign_all; [reflexivity | now apply unexpired_NoDup | intros k _ []]. }
  assert (Hc : getCookiesForDomain Date_parse now d m = Some (listed kept, m')).
  { unfold getCookiesForDomain. rewrite Hget, Hv. reflexivity. }
  split; [exact Hc|].
  intros Hplain. unfold getCookieString. rewrite Hc.
  rewrite own_entries_plain; [reflexivity|].
  intros k Hk. apply Hplain. now apply listed_keys.
Qed.

Lemma getCookiesForDomain_on_maps_witness :
  getCookieString epoch_clock (fun _ => 0%Z) "example.com" first_visit
  = Some ("sid=42", first_visit) /\
  getCookiesForDomain epoch_clock (fun _ => 1%Z) "example.com" stale_visit
  = Some ([], saveCookies (with_store stale_visit [("example.com", CookieMap [])])).
Proof.
  split.
  - refine (proj2 (getCookiesForDomain_on_maps epoch_clock (fun _ => 0%Z) "example.com"
                     first_visit [("sid", default_cookie "example.com" "42")]
                     eq_refl _) _).
    + repeat constructor. intros [].
    + intros k [<-|[]]. reflexivity.
  - refine (proj1 (getCookiesForDomain_on_maps epoch_clock (fun _ => 1%Z) "example.com"
                     stale_visit _ eq_refl _)).
    repeat constructor. intros [].
Defined.

(** *** Set-Cookie headers *)

Lemma split_no_sep sep s : no_unit sep s = true -> split sep s = [s].
Proof.
  unfold no_unit. induction s as [|c s IH]; cbn [forall_chars split]; [reflexivity|].
  intros H. apply Bool.andb_true_iff in H. destruct H as (Hc & Hs).
  apply Bool.negb_true_iff in Hc. rewrite Hc, IH by assumption. reflexivity.
Qed.

Lemma split_app_sep sep a b :
  no_unit sep a = true -> split sep (a ++ String sep b) = a :: split sep b.
Proof.
  unfold no_unit. induction a as [|c a IH]; cbn [forall_chars split String.append].
  - intros _. now rewrite Ascii.eqb_refl.
  - intros H. apply Bool.andb_true_iff in H. destruct H as (Hc & Hs).
    apply Bool.negb_true_iff in Hc. rewrite Hc, IH by assumption. reflexivity.
Qed.

(** The first piece of a text is what stands before the first separator. *)
Lemma split_first sep first rest :
  no_unit sep first = true ->
  rest = "" \/ (exists a, rest = String sep a) ->
  split sep (first ++ rest) = first :: List.tl (split sep rest).
Proof.
  intros Hf [->|(a & ->)].
  - rewrite append_nil_r, split_no_sep by assumption. reflexivity.
  - rewrite split_app_sep by assumption. cbn [split]. now rewrite Ascii.eqb_refl.
Qed.

Lemma no_unit_app c a b : no_unit c (a ++ b) = no_unit c a && no_unit c b.
Proof.
  unfold no_unit. induction a as [|x a IH]; cbn [forall_chars String.append]; [reflexivity|].
  now rewrite IH, Bool.andb_assoc.
Qed.

(** [setCookie] on a store of [Map]s changes the cookie it sets and no
    other. *)
Lemma setCookie_frame d n v options m d' n' :
  all_maps (cookieStore m) ->
  d' <> d \/ n' <> n ->
  attributes_of (cookieStore (snd (setCookie d n v options m))) d' n'
  = attributes_of (cookieStore m) d' n'.
Proof.
  intros Hall Hne.
  destruct (setCookie_on_maps d n v options m Hall) as (cookies & _ & Hcase & ->).
  cbn [snd saveCookies with_store cookieStore]. rewrite attributes_of_set.
  destruct (String.eqb_spec d d') as [<-|Hd]; [|reflexivity].
  destruct Hne as [Hne|Hne]; [now contradiction Hne|].
  rewrite get_set_ne by (intros E; now apply Hne).
  unfold attributes_of. destruct Hcase as [->|(-> & ->)]; reflexivity.
Qed.

(** X19. A Set-Cookie header [name=value], followed or not by more text
    behind a second equals sign and by attributes behind a semicolon, on a
    store of [Map]s: [parseSetCookieHeaders] stores the trimmed value under
    the trimmed name for the domain of the call, with the options read from
    the attributes; what stands behind a second equals sign of the value is
    dropped; a Domain attribute changes nothing; and no other cookie
    changes. *)
Theorem parseSetCookieHeaders_stores_first_pair
  (maxAgeDate : option string -> string) (d n v tail attrs : string) (m : Manager) :
  all_maps (cookieStore m) ->
  n <> "" -> v <> "" ->
  no_unit ";" n = true -> no_unit "=" n = true ->
  no_unit ";" v = true -> no_unit "=" v = true ->
  tail = "" \/ (exists junk, tail = String "=" junk /\ no_unit ";" junk = true) ->
  attrs = "" \/ (exists a, attrs = String ";" a) ->
  let header := n ++ "=" ++ v ++ tail ++ attrs in
  let options :=
    List.fold_left (apply_attribute maxAgeDate) (List.tl (split ";" attrs)) no_options in
  let r := parseSetCookieHeaders maxAgeDate d (OneHeader header) m in
  fst r = Return tt /\
  attributes_of (cookieStore (snd r)) d (Server.trim n)
  = Some (cookie_json (new_cookie d (Server.trim v) options)) /\
  (forall d' n', d' <> d \/ n' <> Server.trim n ->
     attributes_of (cookieStore (snd r)) d' n' = attributes_of (cookieStore m) d' n').
Proof.
  intros Hall Hn Hv Hn1 Hn2 Hv1 Hv2 Htail Hattrs header options r.
  assert (Htail1 : no_unit ";" tail = true).
  { destruct Htail as [->|(junk & -> & Hj)]; [reflexivity|].
    unfold no_unit in *. cbn [forall_chars]. now rewrite Hj. }
  assert (Htail2 : tail = "" \/ (exists a, tail = String "=" a)).
  { destruct Htail as [->|(junk & -> & _)]; [now left | right; now exists junk]. }
  set (first := n ++ "=" ++ v ++ tail).
  assert (Hfirst : no_unit ";" first = true).
  { unfold first. rewrite !no_unit_app, Hn1, Hv1, Htail1. reflexivity. }
  assert (Hheader : header = first ++ attrs).
  { unfold header, first. now rewrite !append_assoc. }
  assert (Hparse : parse_header maxAgeDate header
                   = Some (Server.trim n, Server.trim v, options)).
  { unfold parse_header. rewrite Hheader, split_first by assumption.
    cbn [List.hd List.tl]. unfold first.
    change (n ++ "=" ++ v ++ tail) with (n ++ String "=" (v ++ tail)).
    rewrite split_app_sep, split_first by assumption.
    cbn [List.hd List.nth_error].
    apply String.eqb_neq in Hn, Hv. rewrite Hn, Hv. reflexivity. }
  assert (Hne : String.eqb header "" = false).
  { apply String.eqb_neq. unfold header. destruct n; [congruence | discriminate]. }
  assert (Hr : r = (fst (setCookie d (Server.trim n) (Server.trim v) options m),
                    snd (setCookie d (Server.trim n) (Server.trim v) options m))).
  { unfold r, parseSetCookieHeaders. rewrite Hne. cbn [each_header]. rewrite Hparse.
    destruct (setCookie_on_maps d (Server.trim n) (Server.trim v) options m Hall)
      as (cookies & _ & _ & ->). reflexivity. }
  rewrite Hr. cbn [fst snd].
  split.
  { destruct (setCookie_on_maps d (Server.trim n) (Server.trim v) options m Hall)
      as (cookies & _ & _ & ->). reflexivity. }
  split; [now apply setCookie_records_attributes|].
  intros d' n' Hd. now apply setCookie_frame.
Qed.

Lemma parseSetCookieHeaders_stores_first_pair_witness :
  attributes_of
    (cookieStore
       (snd (parseSetCookieHeaders (fun _ => "Thu, 01 Jan 1970 00:00:10 GMT") "example.com"
               (OneHeader "id=abc=xyz; Domain=other.example; Secure")
               (CookieManager.constructor JsMap.empty))))
    "example.com" "id"
  = Some (cookie_json
            {| value := "abc"; domain := "example.com"; path := "/"; expires := None;
               secure := true; httpOnly := false; sameSite := "Lax" |}).
Proof.
  refine (proj1 (proj2 (parseSetCookieHeaders_stores_first_pair
                          (fun _ => "Thu, 01 Jan 1970 00:00:10 GMT") "example.com"
                          "id" "abc" "=xyz" "; Domain=other.example; Secure"
                          (CookieManager.constructor JsMap.empty)
                          all_maps_empty _ _ eq_refl eq_refl eq_refl eq_refl _ _)));
    try discriminate.
  - right. exists "xyz". split; reflexivity.
  - right. now exists " Domain=other.example; Secure".
Defined.

(** X20. [parseSetCookieHeaders] ignores a header whose text before the
    first semicolon has no equals sign, starts with the equals sign, or has
    nothing between its first equals sign and the next one or the end: the
    manager is unchanged.  A header with an empty value, the usual way for a
    site to remove a cookie, is among them. *)
Theorem parseSetCookieHeaders_ignores_incomplete
  (maxAgeDate : option string -> string) (d first attrs : string) (m : Manager) :
  no_unit ";" first = true ->
  attrs = "" \/ (exists a, attrs = String ";" a) ->
  no_unit "=" first = true \/
  (exists rest, first = String "=" rest) \/
  (exists n rest, first = n ++ String "=" rest /\ no_unit "=" n = true /\
                  (rest = "" \/ exists rest', rest = String "=" rest')) ->
  parseSetCookieHeaders maxAgeDate d (OneHeader (first ++ attrs)) m = (Return tt, m).
Proof.
  intros Hfirst Hattrs Hcase. unfold parseSetCookieHeaders.
  destruct (String.eqb (first ++ attrs) ""); [reflexivity|].
  cbn [each_header].
  assert (Hparse : parse_header maxAgeDate (first ++ attrs) = None).
  { unfold parse_header. rewrite split_first by assumption. cbn [List.hd List.tl].
    destruct Hcase as [Hno|[(rest & ->)|(n & rest & -> & Hn & Hrest)]].
    - rewrite split_no_sep by assumption. reflexivity.
    - cbn [split]. rewrite Ascii.eqb_refl. cbn [List.hd List.nth_error].
      destruct (split "=" rest); reflexivity.
    - rewrite split_app_sep by assumption. cbn [List.hd List.nth_error].
      destruct Hrest as [->|(rest' & ->)]; cbn [split]; [|rewrite Ascii.eqb_refl];
        cbn [List.hd]; now rewrite Bool.orb_true_r. }
  now rewrite Hparse.
Qed.

Lemma parseSetCookieHeaders_ignores_incomplete_witness :
  parseSetCookieHeaders (fun _ => "Thu, 01 Jan 1970 00:00:00 GMT") "example.com"
    (OneHeader "sid=; Max-Age=0") first_visit
  = (Return tt, first_visit).
Proof.
  refine (parseSetCookieHeaders_ignores_incomplete
            (fun _ => "Thu, 01 Jan 1970 00:00:00 GMT") "example.com"
            "sid=" "; Max-Age=0" first_visit eq_refl _ _).
  - right. now exists " Max-Age=0".
  - right. right. exists "sid", "". split; [reflexivity|]. split; [reflexivity | now left].
Defined.

(** ** The proxy route: headers and style sheets *)

Lemma copied_headers_spec hs k v :
  In (k, v) (copied_headers hs)
  <-> In (k, v) hs /\ ~ In (Text.toLowerCase k) skipHeaders.
Proof.
  unfold copied_headers. rewrite List.filter_In. cbn [fst].
  assert (E : List.existsb (String.eqb (Text.toLowerCase k)) skipHeaders = true
              <-> In (Text.toLowerCase k) skipHeaders).
  { rewrite List.existsb_exists. split.
    - intros (x & Hx & Heq). apply String.eqb_eq in Heq. now subst x.
    - intros H. exists (Text.toLowerCase k). split; [exact H | apply String.eqb_refl]. }
  rewrite Bool.negb_true_iff. rewrite <- E.
  destruct (List.existsb (String.eqb (Text.toLowerCase k)) skipHeaders); intuition congruence.
Qed.

(** X21. A request that [/ads/proxy] fetches.  No reply ever carries the
    headers [content-security-policy], [x-frame-options] or
    [content-length].  When the upstream response resolves and its text,
    where the handler reads it, can be read: the reply has the status of the
    response, passes on its other headers in their order, and sets one
    header after them: the content type of the rewritten page or style
    sheet, or [cache-control: no-store] for any other content.  When the
    response resolves and reading its text fails, the headers were passed on
    already: the reply is 502 [Proxy error] with these headers and the
    content type [text/plain] after them.  When the fetch itself fails, the
    reply is 502 [Proxy error] with that content type alone. *)
Theorem ads_proxy_filters_headers
  (P : Platform) (req : Request) (u : string) (target : URL) :
  query_u req = Some u ->
  u <> "" ->
  NodeURL P u = Some target ->
  http_protocol (protocol target) = true ->
  isBlockedHost (Text.toLowerCase (hostname target)) = false ->
  let o := ads_proxy P req in
  let passed := fun hs : list (string * string) =>
    List.filter (fun h => negb (List.existsb (String.eqb (Text.toLowerCase (fst h)))
                                  skipHeaders)) hs in
  (forall k v, In (k, v) (header_calls (reply o)) ->
     ~ In (Text.toLowerCase k) skipHeaders) /\
  (forall res, fetch P (href target) (fetch_headers req) = Some res ->
     let contentType := Text.or_default (JsMap.get (up_headers res) "content-type") "" in
     status (reply o) = up_status res /\
     header_calls (reply o)
     = (passed (up_headers res)
        ++ [if Text.includes contentType "text/html"
            then ("content-type", "text/html; charset=utf-8")
            else if Text.includes contentType "text/css"
                 then ("content-type", "text/css; charset=utf-8")
                 else ("cache-control", "no-store")])%list /\
     (forall k v, In (k, v) (up_headers res) -> ~ In (Text.toLowerCase k) skipHeaders ->
        In (k, v) (header_calls (reply o)))) /\
  (forall code headers,
     fetch P (href target) (fetch_headers req) = None ->
     unread P (href target) (fetch_headers req) = Some (code, headers) ->
     status (reply o) = 502%Z /\ payload (reply o) = Text "Proxy error" /\
     header_calls (reply o)
     = (passed headers ++ [("content-type", "text/plain")])%list) /\
  (fetch P (href target) (fetch_headers req) = None ->
   unread P (href target) (fetch_headers req) = None ->
   reply o = {| status := 502; header_calls := [("content-type", "text/plain")];
                payload := Text "Proxy error" |}).
Proof.
  intros Hu Hne Hparse Hproto Hhost o passed.
  apply String.eqb_neq in Hne.
  assert (Hlast : forall (hs : list (string * string)) k v (x : string * string),
            In (k, v) (copied_headers hs ++ [x]) ->
            fst x = "content-type" \/ fst x = "cache-control" ->
            ~ In (Text.toLowerCase k) skipHeaders).
  { intros hs k v x Hin Hx. apply List.in_app_or in Hin.
    destruct Hin as [Hin|[Hin|[]]].
    - now apply copied_headers_spec in Hin.
    - subst x. cbn [fst] in Hx. destruct Hx as [-> | ->]; cbn; intuition discriminate. }
  assert (Ho : o = ads_proxy P req) by reflexivity.
  unfold ads_proxy in Ho. rewrite Hu, Hne, Hparse, Hproto, Hhost in Ho. cbn [negb] in Ho.
  split; [|split; [|split]].
  - intros k v Hin. rewrite Ho in Hin.
    destruct (fetch P (href target) (fetch_headers req)) as [res|].
    + destruct (Text.includes _ "text/html");
        [|destruct (Text.includes _ "text/css")];
        cbn [reply header_calls] in Hin; (eapply Hlast; [exact Hin | cbn; auto]).
    + cbn [reply header_calls] in Hin.
      destruct (unread P (href target) (fetch_headers req)) as [[code hs]|].
      * eapply Hlast; [exact Hin | cbn; auto].
      * destruct Hin as [Hin|[]]. injection Hin as <- _. cbn. intuition discriminate.
  - intros res Hfetch contentType. rewrite Hfetch in Ho. fold contentType in Ho.
    assert (Hh : status (reply o) = up_status res /\
                 header_calls (reply o)
                 = (copied_headers (up_headers res)
                    ++ [if Text.includes contentType "text/html"
                        then ("content-type", "text/html; charset=utf-8")
                        else if Text.includes contentType "text/css"
                             then ("content-type", "text/css; charset=utf-8")
                             else ("cache-control", "no-store")])%list).
    { rewrite Ho. destruct (Text.includes contentType "text/html"); [split; reflexivity|].
      destruct (Text.includes contentType "text/css"); split; reflexivity. }
    destruct Hh as (Hs & Hh). split; [exact Hs|]. split; [exact Hh|].
    intros k v Hin Hk. rewrite Hh. apply List.in_or_app. left.
    now apply copied_headers_spec.
  - intros code headers Hfetch Hunread. rewrite Hfetch, Hunread in Ho. rewrite Ho.
    repeat split; reflexivity.
  - intros Hfetch Hunread. rewrite Hfetch, Hunread in Ho. rewrite Ho. reflexivity.
Qed.

Lemma ads_proxy_filters_headers_witness :
  header_calls
    (reply (ads_proxy (Upstreams.serving Upstreams.image_headers "png")
              (request_for (Some "http://example.com/"))))
  = [("content-type", "image/png"); ("etag", "abc"); ("cache-control", "no-store")] /\
  reply (ads_proxy Upstreams.failing_body (request_for (Some "http://example.com/")))
  = {| status := 502;
       header_calls := [("content-type", "text/html"); ("etag", "abc");
                        ("content-type", "text/plain")];
       payload := Text "Proxy error" |}.
Proof.
  split.
  - exact (proj1 (proj2
      (proj1 (proj2
        (ads_proxy_filters_headers (Upstreams.serving Upstreams.image_headers "png")
           (request_for (Some "http://example.com/")) "http://example.com/" example_target
           eq_refl ltac:(discriminate) eq_refl eq_refl eq_refl))
         {| up_status := 200; up_headers := Upstreams.image_headers; up_body := "png" |}
         eq_refl))).
  - reflexivity.
Defined.

(** The expression for [url(...)] matches an occurrence: the letters of
    [url] in any case, the parenthesis, a non-empty text without a closing
    parenthesis, the closing parenthesis. *)
Lemma match_css_url_at head inner rest :
  ci_equal head "url(" = true ->
  inner <> "" ->
  forall_chars (fun c => negb (Ascii.eqb c ")")) inner = true ->
  match_css_url (head ++ inner ++ String ")" rest) = Some (head, inner, rest).
Proof.
  intros Hhead Hinner Hchars. unfold match_css_url.
  apply ci_equal_take in Hhead.
  rewrite (take_ci_append _ _ _ _ (inner ++ String ")" rest) Hhead). cbn [append].
  destruct inner as [|v inner]; [now destruct Hinner|].
  simpl in Hchars. apply andb_true_iff in Hchars. destruct Hchars as [Hv Hchars].
  cbn [append plus_greedy]. rewrite Hv.
  apply star_greedy_run; [exact Hchars | now rewrite Ascii.eqb_refl |].
  cbn [append one]. now rewrite Ascii.eqb_refl.
Qed.

Lemma css_pass_at P base prev head inner rest :
  ci_equal head "url(" = true ->
  inner <> "" ->
  forall_chars (fun c => negb (Ascii.eqb c ")")) inner = true ->
  replace_all (css_url_rule P base) prev 0 (head ++ inner ++ String ")" rest)
  = (let v := strip_quote sq (strip_quote dq (trim inner)) in
     if Text.startsWith v "data:" || Text.startsWith v "blob:"
     then head ++ inner ++ ")"
     else "url(" ++ prox P base v ++ ")")
    ++ replace_all (css_url_rule P base) (Some ")"%char) 0 rest.
Proof.
  intros Hhead Hinner Hchars.
  pose proof (match_css_url_at head inner rest Hhead Hinner Hchars) as Hm.
  assert (Hs : head ++ inner ++ String ")" rest = (head ++ inner ++ ")") ++ rest).
  { rewrite !append_assoc. reflexivity. }
  destruct (head ++ inner ++ String ")" rest) as [|c s'] eqn:E.
  - apply ci_equal_take in Hhead. destruct head; [discriminate Hhead | discriminate E].
  - cbn [replace_all]. unfold css_url_rule at 1. rewrite Hm. cbv zeta. f_equal.
    destruct (head ++ inner ++ ")") as [|c0 t'] eqn:Et.
    + apply ci_equal_take in Hhead. destruct head; [discriminate Hhead | discriminate Et].
    + simpl in Hs. injection Hs as <- ->.
      cbn [String.length]. rewrite Nat.sub_1_r. cbn [Nat.pred].
      rewrite replace_all_skip. f_equal.
      change (last_unit t' (Some c)) with (last_unit (String c t') None).
      rewrite <- Et, !last_unit_app. reflexivity.
Qed.

(** X22. For an upstream response whose content type contains [text/css]
    and not [text/html], [/ads/proxy] sends the body after the [url()] pass.
    At an occurrence that the scan reaches ([url] in any letter case, the
    parenthesis, a non-empty text without a closing parenthesis, the closing
    parenthesis), the text inside is trimmed and loses one double quote and
    then one single quote at either end; when the result starts with [data:]
    or [blob:] the occurrence stays as it is; otherwise it becomes [url(]
    in lower case, the proxy address of the result resolved against the
    fetched target, or the result itself when it does not resolve, and the
    closing parenthesis. *)
Theorem css_branch_rewrites_urls
  (P : Platform) (req : Request) (u : string) (target : URL) (res : Upstream) :
  query_u req = Some u ->
  u <> "" ->
  NodeURL P u = Some target ->
  http_protocol (protocol target) = true ->
  isBlockedHost (Text.toLowerCase (hostname target)) = false ->
  fetch P (href target) (fetch_headers req) = Some res ->
  Text.includes (Text.or_default (JsMap.get (up_headers res) "content-type") "")
                "text/html" = false ->
  Text.includes (Text.or_default (JsMap.get (up_headers res) "content-type") "")
                "text/css" = true ->
  payload (reply (ads_proxy P req))
  = Text (replace_all (css_url_rule P target) None 0 (up_body res)) /\
  forall prev head inner rest,
    ci_equal head "url(" = true ->
    inner <> "" ->
    forall_chars (fun c => negb (Ascii.eqb c ")")) inner = true ->
    replace_all (css_url_rule P target) prev 0 (head ++ inner ++ String ")" rest)
    = (let v := strip_quote sq (strip_quote dq (trim inner)) in
       if Text.startsWith v "data:" || Text.startsWith v "blob:"
       then head ++ inner ++ ")"
       else match NodeURL_base P v target with
            | Some abs => "url(/ads/proxy?u=" ++ encodeURIComponent (href abs) ++ ")"
            | None => "url(" ++ v ++ ")"
            end)
      ++ replace_all (css_url_rule P target) (Some ")"%char) 0 rest.
Proof.
  intros Hu Hne Hparse Hproto Hhost Hfetch Hhtml Hcss. split.
  - unfold ads_proxy. apply String.eqb_neq in Hne.
    rewrite Hu, Hne, Hparse, Hproto, Hhost, Hfetch, Hhtml, Hcss. reflexivity.
  - intros prev head inner rest Hhead Hinner Hchars.
    rewrite css_pass_at by assumption. f_equal. cbv zeta.
    destruct (Text.startsWith _ "data:" || Text.startsWith _ "blob:"); [reflexivity|].
    unfold prox. destruct (NodeURL_base P _ target); reflexivity.
Qed.

Lemma css_branch_rewrites_urls_witness :
  payload
    (reply (ads_proxy (Upstreams.serving [("content-type", "text/css")] Upstreams.sheet)
              (request_for (Some "http://example.com/"))))
  = Text "a { background: url(/ads/proxy?u=http%3A%2F%2Fexample.com%2Fimg%2Fa.png) }".
Proof.
  exact (proj1
    (css_branch_rewrites_urls (Upstreams.serving [("content-type", "text/css")] Upstreams.sheet)
       (request_for (Some "http://example.com/")) "http://example.com/" example_target
       {| up_status := 200; up_headers := [("content-type", "text/css")];
          up_body := Upstreams.sheet |}
       eq_refl ltac:(discriminate) eq_refl eq_refl eq_refl eq_refl eq_refl eq_refl)).
Defined.

(** *** The cookie monitor of a frame *)

Lemma forall_chars_impl (f g : ascii -> bool) s :
  (forall c, f c = true -> g c = true) ->
  forall_chars f s = true -> forall_chars g s = true.
Proof.
  intros Himp. induction s as [|c s IH]; cbn [forall_chars]; [reflexivity|].
  intros H. apply Bool.andb_true_iff in H. destruct H as (Hc & Hs).
  now rewrite (Himp c Hc), IH.
Qed.

Lemma forall_chars_app f a b :
  forall_chars f (a ++ b) = forall_chars f a && forall_chars f b.
Proof.
  induction a as [|c a IH]; cbn [forall_chars String.append]; [reflexivity|].
  now rewrite IH, Bool.andb_assoc.
Qed.

Lemma plain_parts s :
  plain s = true ->
  s <> "" /\ no_unit ";" s = true /\ no_unit "=" s = true /\
  forall_chars (fun c => negb (white_space c)) s = true.
Proof.
  unfold plain, no_unit. intros H. apply Bool.andb_true_iff in H. destruct H as (Hne & Hc).
  split; [apply String.eqb_neq; now apply Bool.negb_true_iff|].
  repeat split; (eapply forall_chars_impl; [|exact Hc]); intros c H;
    repeat (apply Bool.andb_true_iff in H; destruct H as (H & ?)); assumption.
Qed.

Lemma trim_end_plain s :
  forall_chars (fun c => negb (white_space c)) s = true -> trim_end s = s.
Proof.
  induction s as [|c s IH]; cbn [forall_chars trim_end]; [reflexivity|].
  intros H. apply Bool.andb_true_iff in H. destruct H as (Hc & Hs).
  rewrite IH by assumption. apply Bool.negb_true_iff in Hc. rewrite Hc.
  destruct s; reflexivity.
Qed.

Lemma trim_start_plain s :
  forall_chars (fun c => negb (white_space c)) s = true -> trim_start s = s.
Proof.
  destruct s as [|c s]; cbn [forall_chars trim_start]; [reflexivity|].
  intros H. apply Bool.andb_true_iff in H. destruct H as (Hc & _).
  apply Bool.negb_true_iff in Hc. now rewrite Hc.
Qed.

(** A pair of the cookie text, with or without the space that follows a
    semicolon, is stored as it stands. *)
Lemma store_pair_plain d n v (lead : bool) m :
  plain n = true -> plain v = true ->
  store_pair d ((if lead then " " else "") ++ n ++ "=" ++ v) m
  = setCookie d n v no_options m.
Proof.
  intros Hn Hv.
  destruct (plain_parts n Hn) as (Hn0 & _ & Hn2 & Hn3).
  destruct (plain_parts v Hv) as (Hv0 & _ & Hv2 & Hv3).
  assert (Hall : forall_chars (fun c => negb (white_space c)) (n ++ "=" ++ v) = true).
  { rewrite !forall_chars_app, Hn3, Hv3. reflexivity. }
  assert (Htrim : trim ((if lead then " " else "") ++ n ++ "=" ++ v) = n ++ "=" ++ v).
  { unfold trim. destruct lead; cbn [String.append trim_start];
      [change (white_space " ") with true; cbv iota|];
      now rewrite trim_start_plain, trim_end_plain. }
  unfold store_pair. rewrite Htrim.
  change (n ++ "=" ++ v) with (n ++ String "=" v).
  rewrite split_app_sep, split_no_sep by assumption.
  cbn [List.hd List.nth_error].
  apply String.eqb_neq in Hn0, Hv0. now rewrite Hn0, Hv0.
Qed.

Lemma split_cookie_text p pairs :
  (forall q, In q (p :: pairs) -> plain (fst q) = true /\ plain (snd q) = true) ->
  split ";" (cookie_text (p :: pairs))
  = (fst p ++ "=" ++ snd p)
    :: List.map (fun q => " " ++ fst q ++ "=" ++ snd q) pairs.
Proof.
  revert p. induction pairs as [|q pairs IH]; intros p Hall.
  - destruct (Hall p (or_introl eq_refl)) as (Hn & Hv).
    destruct (plain_parts _ Hn) as (_ & Hn1 & _). destruct (plain_parts _ Hv) as (_ & Hv1 & _).
    unfold cookie_text. cbn [List.map String.concat].
    rewrite split_no_sep; [reflexivity|].
    now rewrite !no_unit_app, Hn1, Hv1.
  - destruct (Hall p (or_introl eq_refl)) as (Hn & Hv).
    destruct (plain_parts _ Hn) as (_ & Hn1 & _). destruct (plain_parts _ Hv) as (_ & Hv1 & _).
    assert (E : cookie_text (p :: q :: pairs)
                = (fst p ++ "=" ++ snd p) ++ String ";" (String " " (cookie_text (q :: pairs)))).
    { unfold cookie_text. cbn [List.map String.concat]. reflexivity. }
    rewrite E, split_app_sep by (now rewrite !no_unit_app, Hn1, Hv1).
    f_equal. cbn [split]. change (Ascii.eqb " " ";") with false. cbv iota.
    rewrite IH by (intros x Hx; apply Hall; now right).
    reflexivity.
Qed.

Lemma each_pair_plain d pairs : forall m,
  all_maps (cookieStore m) ->
  (forall q, In q pairs -> plain (fst q) = true /\ plain (snd q) = true) ->
  each_pair d (List.map (fun q => " " ++ fst q ++ "=" ++ snd q) pairs) m
  = (Return tt, run_sets (pair_calls d pairs) m).
Proof.
  induction pairs as [|p pairs IH]; intros m Hm Hall; [reflexivity|].
  destruct (Hall p (or_introl eq_refl)) as (Hn & Hv).
  cbn [List.map each_pair].
  rewrite (store_pair_plain d (fst p) (snd p) true m Hn Hv).
  pose proof (setCookie_keeps_maps d (fst p) (snd p) no_options m Hm) as Hm'.
  destruct (setCookie_on_maps d (fst p) (snd p) no_options m Hm) as (cookies & _ & _ & E).
  rewrite E in Hm' |- *. cbn [snd] in Hm'.
  rewrite IH; [|exact Hm'|intros q Hq; apply Hall; now right].
  unfold run_sets, pair_calls. cbn [List.map List.fold_left call_domain call_name
                                     call_value call_options].
  now rewrite E.
Qed.

Lemma run_sets_pairs d pairs : forall m,
  all_maps (cookieStore m) ->
  NoDup (List.map fst pairs) ->
  (forall n v, In (n, v) pairs ->
     attributes_of (cookieStore (run_sets (pair_calls d pairs) m)) d n
     = Some (cookie_json (default_cookie d v))) /\
  (forall d' n', ~ (d' = d /\ In n' (List.map fst pairs)) ->
     attributes_of (cookieStore (run_sets (pair_calls d pairs) m)) d' n'
     = attributes_of (cookieStore m) d' n').
Proof.
  induction pairs as [|[n0 v0] pairs IH]; intros m Hm Hnd.
  - split; [intros n v [] | reflexivity].
  - inversion Hnd as [|? ? Hnin Hnd']; subst.
    pose proof (setCookie_keeps_maps d n0 v0 no_options m Hm) as Hm'.
    destruct (IH _ Hm' Hnd') as (Hin & Hout).
    change (run_sets (pair_calls d ((n0, v0) :: pairs)) m)
      with (run_sets (pair_calls d pairs) (snd (setCookie d n0 v0 no_options m))).
    split.
    + intros n v [E|Hp].
      * injection E as <- <-. rewrite Hout by (intros (_ & H); now apply Hnin).
        now apply setCookie_records_attributes.
      * now apply Hin.
    + intros d' n' Hno. rewrite Hout by (intros (Hd & H); apply Hno; split; [exact Hd | now right]).
      apply setCookie_frame; [exact Hm|].
      destruct (String.eqb_spec d' d) as [->|Hd]; [right | now left].
      intros ->. apply Hno. split; [reflexivity | now left].
Qed.

(** X23. A run of the cookie monitor of a frame on a cookie text that
    differs from the one the frame had when it loaded, on a store of
    [Map]s: every pair [name=value] of the text is stored for the domain
    with the default attributes, and no other cookie of the store changes.
    So a cookie that is no longer in the text of the frame stays in the
    store: the monitor adds and overwrites, it never removes. *)
Theorem checkCookies_stores_pairs_and_never_removes
  (d original : string) (pairs : list (string * string)) (m : Manager) :
  all_maps (cookieStore m) ->
  pairs <> [] ->
  (forall q, In q pairs -> plain (fst q) = true /\ plain (snd q) = true) ->
  NoDup (List.map fst pairs) ->
  cookie_text pairs <> original ->
  let r := checkCookies d original (cookie_text pairs) m in
  fst r = Return tt /\
  (forall n v, In (n, v) pairs ->
     attributes_of (cookieStore (snd r)) d n = Some (cookie_json (default_cookie d v))) /\
  (forall d' n', ~ (d' = d /\ In n' (List.map fst pairs)) ->
     attributes_of (cookieStore (snd r)) d' n' = attributes_of (cookieStore m) d' n').
Proof.
  intros Hm Hne Hall Hnd Hdiff r.
  destruct pairs as [|p pairs]; [congruence|].
  assert (Hr : r = (Return tt, run_sets (pair_calls d (p :: pairs)) m)).
  { unfold r, checkCookies.
    apply String.eqb_neq in Hdiff. rewrite Hdiff.
    assert (Hnonempty : String.eqb (cookie_text (p :: pairs)) "" = false).
    { apply String.eqb_neq. destruct (Hall p (or_introl eq_refl)) as (Hn & _).
      destruct (plain_parts _ Hn) as (Hn0 & _).
      unfold cookie_text. cbn [List.map String.concat].
      destruct (fst p); [congruence|].
      destruct (List.map _ pairs); discriminate. }
    rewrite Hnonempty, split_cookie_text by assumption.
    cbn [each_pair].
    destruct (Hall p (or_introl eq_refl)) as (Hn & Hv).
    pose proof (store_pair_plain d (fst p) (snd p) false m Hn Hv) as Hsp.
    change (store_pair d (fst p ++ "=" ++ snd p) m
            = setCookie d (fst p) (snd p) no_options m) in Hsp.
    rewrite Hsp.
    pose proof (setCookie_keeps_maps d (fst p) (snd p) no_options m Hm) as Hm'.
    destruct (setCookie_on_maps d (fst p) (snd p) no_options m Hm) as (cookies & _ & _ & E).
    rewrite E in Hm' |- *. cbn [snd] in Hm'.
    rewrite (each_pair_plain d pairs _ Hm') by (intros q Hq; apply Hall; now right).
    unfold run_sets, pair_calls. cbn [List.map List.fold_left call_domain call_name
                                       call_value call_options].
    now rewrite E. }
  rewrite Hr. cbn [fst snd]. split; [reflexivity|].
  now apply run_sets_pairs.
Qed.

Lemma checkCookies_stores_pairs_and_never_removes_witness :
  attributes_of
    (cookieStore (snd (checkCookies "example.com" "sid=42" "lang=en; theme=dark" first_visit)))
    "example.com" "sid"
  = Some (cookie_json (default_cookie "example.com" "42")) /\
  attributes_of
    (cookieStore (snd (checkCookies "example.com" "sid=42" "lang=en; theme=dark" first_visit)))
    "example.com" "theme"
  = Some (cookie_json (default_cookie "example.com" "dark")).
Proof.
  destruct (checkCookies_stores_pairs_and_never_removes "example.com" "sid=42"
              [("lang", "en"); ("theme", "dark")] first_visit first_visit_all_maps)
    as (_ & Hin & Hout).
  - discriminate.
  - intros q [<-|[<-|[]]]; split; reflexivity.
  - repeat constructor; cbn; intuition discriminate.
  - discriminate.
  - split.
    + refine (Hout "example.com" "sid" _). cbn. intuition discriminate.
    + refine (Hin "theme" "dark" _). right. now left.
Defined.

(** *** The removal of Content-Security-Policy meta tags *)

Lemma take_ci_avoids (x : ascii) p : forall s m r,
  fold_case x = x ->
  forall_chars (fun a => negb (Ascii.eqb (fold_case a) x)) p = true ->
  take_ci p s = Some (m, r) ->
  forall_chars (fun c => negb (Ascii.eqb c x)) m = true.
Proof.
  induction p as [|a p IH]; intros s m r Hx Hp H; simpl in H.
  - injection H as <- <-. reflexivity.
  - destruct s as [|b s]; [discriminate|].
    destruct (Ascii.eqb (fold_case a) (fold_case b)) eqn:Eab; [|discriminate].
    destruct (take_ci p s) as [[m' r']|] eqn:E; [|discriminate].
    injection H as <- <-. simpl in Hp. apply andb_true_iff in Hp. destruct Hp as [Ha Hp].
    cbn [forall_chars]. rewrite (IH _ _ _ Hx Hp E), Bool.andb_true_r.
    apply Bool.negb_true_iff. apply Ascii.eqb_neq. intros ->.
    apply Ascii.eqb_eq in Eab. rewrite Hx in Eab.
    apply Bool.negb_true_iff in Ha. apply Ascii.eqb_neq in Ha. now apply Ha.
Qed.

(** The text behind the first occurrence of a unit is determined. *)
Lemma first_unit_unique (x : ascii) a : forall b y1 y2,
  forall_chars (fun c => negb (Ascii.eqb c x)) a = true ->
  forall_chars (fun c => negb (Ascii.eqb c x)) b = true ->
  a ++ String x y1 = b ++ String x y2 -> y1 = y2.
Proof.
  induction a as [|c a IH]; intros b y1 y2 Ha Hb E.
  - destruct b as [|d b]; cbn in E; [now injection E|].
    injection E as <- _. cbn in Hb. now rewrite Ascii.eqb_refl in Hb.
  - destruct b as [|d b]; cbn in E.
    + injection E as -> _. cbn in Ha. now rewrite Ascii.eqb_refl in Ha.
    + injection E as _ E. cbn in Ha, Hb.
      apply andb_true_iff in Ha, Hb. eapply IH; [apply Ha | apply Hb | exact E].
Qed.

(** The end of the meta expression: any units but the closing bracket,
    then the bracket. *)
Lemma tag_end_spec s : forall read y,
  star_greedy (fun c => negb (Ascii.eqb c ">"))
    (fun _ s7 => one (fun c => Ascii.eqb c ">") (fun _ s8 => Some s8) s7) read s = Some y ->
  exists run, s = run ++ String ">" y /\
              forall_chars (fun c => negb (Ascii.eqb c ">")) run = true.
Proof.
  induction s as [|c s IH]; intros read y H; cbn [star_greedy one] in H; [discriminate|].
  destruct (Ascii.eqb c ">") eqn:Ec; cbn [negb] in H.
  - injection H as <-. apply Ascii.eqb_eq in Ec. subst c. now exists "".
  - destruct (star_greedy _ _ (read ++ String c "") s) as [y'|] eqn:E; [|discriminate].
    injection H as <-. destruct (IH _ _ E) as (run & -> & Hrun).
    exists (String c run). split; [reflexivity|]. cbn. now rewrite Ec.
Qed.

Import MetaTag.

Lemma match_csp_meta_rest s :
  match_csp_meta s
  = match take_ci "<meta" s with
    | Some (_, s1) =>
        plus_greedy (fun c => negb (Ascii.eqb c ">")) (fun _ s2 => csp_rest s2) s1
    | None => None
    end.
Proof.
  reflexivity.
Qed.

(** Wherever the expression goes on behind the first repetition, it ends
    at the first closing bracket. *)
Lemma csp_rest_result w rest y :
  no_bracket w = true ->
  csp_rest (w ++ String ">" rest) = Some y -> y = rest.
Proof.
  unfold no_bracket, csp_rest. intros Hw H.
  destruct (take_ci "http-equiv=" (w ++ String ">" rest)) as [[m s3]|] eqn:E1; [|discriminate].
  pose proof (take_ci_avoids ">" "http-equiv=" _ _ _ eq_refl eq_refl E1) as Hm.
  apply take_ci_spec in E1.
  destruct s3 as [|q s4]; [discriminate|]. cbn [one] in H.
  destruct (is_quote q) eqn:Eq; [|discriminate].
  destruct (take_ci "Content-Security-Policy" s4) as [[m' s5]|] eqn:E2; [|discriminate].
  pose proof (take_ci_avoids ">" "Content-Security-Policy" _ _ _ eq_refl eq_refl E2) as Hm'.
  apply take_ci_spec in E2.
  destruct s5 as [|q' s6]; [discriminate|]. cbn [one] in H.
  destruct (is_quote q') eqn:Eq'; [|discriminate].
  destruct (tag_end_spec _ _ _ H) as (run & -> & Hrun).
  subst s4.
  assert (Hq : forall x, is_quote x = true -> negb (Ascii.eqb x ">") = true).
  { intros x Hx. unfold is_quote in Hx. apply orb_true_iff in Hx.
    destruct Hx as [Hx|Hx]; apply Ascii.eqb_eq in Hx; subst x; reflexivity. }
  apply (first_unit_unique ">" (m ++ String q (m' ++ String q' run)) w).
  - rewrite forall_chars_app. cbn [forall_chars]. rewrite forall_chars_app.
    cbn [forall_chars]. now rewrite Hm, Hm', Hrun, (Hq q Eq), (Hq q' Eq').
  - exact Hw.
  - rewrite E1. rewrite !append_assoc. cbn [String.append].
    rewrite !append_assoc. reflexivity.
Qed.

Lemma csp_star_sound run : forall read rest y,
  no_bracket run = true ->
  star_greedy (fun c => negb (Ascii.eqb c ">")) (fun _ s2 => csp_rest s2) read
    (run ++ String ">" rest) = Some y ->
  y = rest.
Proof.
  unfold no_bracket. induction run as [|c run IH]; intros read rest y Hrun H.
  - cbn [String.append star_greedy] in H. rewrite Ascii.eqb_refl in H. cbn [negb] in H.
    now apply (csp_rest_result "" rest y).
  - cbn [forall_chars] in Hrun. apply andb_true_iff in Hrun. destruct Hrun as [Hc Hrun].
    cbn [String.append star_greedy] in H. rewrite Hc in H.
    destruct (star_greedy _ _ (read ++ String c "") (run ++ String ">" rest)) as [y'|] eqn:E.
    + injection H as <-. now apply (IH _ _ _ Hrun E).
    + apply (csp_rest_result (String c run) rest y); [|exact H].
      unfold no_bracket. cbn [forall_chars]. now rewrite Hc, Hrun.
Qed.

Lemma csp_star_complete run : forall read rest r1 r2,
  no_bracket run = true ->
  run = r1 ++ r2 ->
  csp_rest (r2 ++ String ">" rest) = Some rest ->
  star_greedy (fun c => negb (Ascii.eqb c ">")) (fun _ s2 => csp_rest s2) read
    (run ++ String ">" rest) = Some rest.
Proof.
  induction run as [|c run IH]; intros read rest r1 r2 Hrun Hsplit Hk.
  - destruct r1; [|discriminate]. cbn in Hsplit. subst r2.
    cbn [String.append star_greedy]. rewrite Ascii.eqb_refl. exact Hk.
  - pose proof Hrun as Hrun0. unfold no_bracket in Hrun. cbn [forall_chars] in Hrun.
    apply andb_true_iff in Hrun. destruct Hrun as [Hc Hrun].
    cbn [String.append star_greedy]. rewrite Hc.
    destruct (star_greedy _ _ (read ++ String c "") (run ++ String ">" rest)) as [y|] eqn:E.
    + f_equal. now apply (csp_star_sound run _ _ _ Hrun E).
    + destruct r1 as [|c' r1].
      * cbn in Hsplit. subst r2. exact Hk.
      * cbn in Hsplit. injection Hsplit as _ Hsplit.
        rewrite (IH (read ++ String c "") rest r1 r2 Hrun Hsplit Hk) in E. discriminate.
Qed.

Lemma ci_equal_avoids (x : ascii) s p :
  fold_case x = x ->
  forall_chars (fun a => negb (Ascii.eqb (fold_case a) x)) p = true ->
  ci_equal s p = true ->
  forall_chars (fun c => negb (Ascii.eqb c x)) s = true.
Proof.
  intros Hx Hp H. apply ci_equal_take in H. exact (take_ci_avoids x p s s "" Hx Hp H).
Qed.

(** The expression matches a meta tag of the shape: [<meta], some text, the
    http-equiv attribute with the quoted policy name, more text, the closing
    bracket. *)
Lemma match_csp_meta_at opening a key q1 name q2 b rest :
  ci_equal opening "<meta" = true ->
  a <> "" -> no_bracket a = true ->
  ci_equal key "http-equiv=" = true ->
  is_quote q1 = true ->
  ci_equal name "Content-Security-Policy" = true ->
  is_quote q2 = true ->
  no_bracket b = true ->
  match_csp_meta
    (opening ++ a ++ key ++ String q1 (name ++ String q2 (b ++ String ">" rest)))
  = Some rest.
Proof.
  intros Hopen Ha Hna Hkey Hq1 Hname Hq2 Hnb.
  rewrite match_csp_meta_rest.
  apply ci_equal_take in Hopen as Ho.
  rewrite (take_ci_append _ _ _ _ _ Ho). cbn [String.append].
  destruct a as [|c a]; [congruence|].
  unfold no_bracket in Hna. cbn [forall_chars] in Hna.
  apply andb_true_iff in Hna. destruct Hna as [Hc Hna].
  cbn [String.append plus_greedy]. rewrite Hc.
  assert (Hq : forall x, is_quote x = true -> negb (Ascii.eqb x ">") = true).
  { intros x Hx. unfold is_quote in Hx. apply orb_true_iff in Hx.
    destruct Hx as [Hx|Hx]; apply Ascii.eqb_eq in Hx; subst x; reflexivity. }
  set (r2 := key ++ String q1 (name ++ String q2 b)).
  assert (E : a ++ key ++ String q1 (name ++ String q2 (b ++ String ">" rest))
              = (a ++ r2) ++ String ">" rest).
  { unfold r2. rewrite !append_assoc. cbn [String.append]. rewrite !append_assoc.
    cbn [String.append]. reflexivity. }
  rewrite E. apply (csp_star_complete (a ++ r2) _ rest a r2); [|reflexivity|].
  - unfold no_bracket, r2. rewrite !forall_chars_app. cbn [forall_chars].
    rewrite forall_chars_app. cbn [forall_chars].
    rewrite Hna, (ci_equal_avoids ">" key "http-equiv=" eq_refl eq_refl Hkey),
      (ci_equal_avoids ">" name "Content-Security-Policy" eq_refl eq_refl Hname), (Hq q1 Hq1), (Hq q2 Hq2).
    exact Hnb.
  - unfold csp_rest, r2. apply ci_equal_take in Hkey, Hname.
    rewrite append_assoc, (take_ci_append _ _ _ _ _ Hkey). cbn [String.append one].
    rewrite Hq1, append_assoc, (take_ci_append _ _ _ _ _ Hname). cbn [String.append one].
    rewrite Hq2. apply star_greedy_run; [exact Hnb | now rewrite Ascii.eqb_refl |].
    cbn [String.append one]. now rewrite Ascii.eqb_refl.
Qed.

Lemma length_app (a b : string) :
  String.length (a ++ b) = String.length a + String.length b.
Proof.
  induction a as [|c a IH]; cbn [String.append String.length]; [reflexivity | now rewrite IH].
Qed.

(** X24. The last pass of the HTML branch removes a meta tag of the shape
    [<meta], some text, [http-equiv=] with the quoted name
    Content-Security-Policy (letters in any case, either quote on either
    side), more text, the closing bracket, where no text holds a closing
    bracket: the whole tag goes and the scan goes on behind it.  The page
    sent is the result of this pass on the page rewritten by the other
    two. *)
Theorem html_branch_removes_csp_meta
  (P : Platform) (req : Request) (u : string) (target : URL) (res : Upstream) :
  query_u req = Some u ->
  u <> "" ->
  NodeURL P u = Some target ->
  http_protocol (protocol target) = true ->
  isBlockedHost (Text.toLowerCase (hostname target)) = false ->
  fetch P (href target) (fetch_headers req) = Some res ->
  Text.includes (Text.or_default (JsMap.get (up_headers res) "content-type") "")
                "text/html" = true ->
  payload (reply (ads_proxy P req))
  = Text (replace_all csp_meta_rule None 0
            (rewrite_css_urls P target (rewrite_attributes P target (up_body res)))) /\
  forall prev opening a key q1 name q2 b rest,
    ci_equal opening "<meta" = true ->
    a <> "" -> no_bracket a = true ->
    ci_equal key "http-equiv=" = true ->
    is_quote q1 = true ->
    ci_equal name "Content-Security-Policy" = true ->
    is_quote q2 = true ->
    no_bracket b = true ->
    replace_all csp_meta_rule prev 0
      (opening ++ a ++ key ++ String q1 (name ++ String q2 (b ++ String ">" rest)))
    = replace_all csp_meta_rule (Some ">"%char) 0 rest.
Proof.
  intros Hu Hne Hparse Hproto Hhost Hfetch Htype. split.
  - unfold ads_proxy. apply String.eqb_neq in Hne.
    rewrite Hu, Hne, Hparse, Hproto, Hhost, Hfetch, Htype. reflexivity.
  - intros prev opening a key q1 name q2 b rest Hopen Ha Hna Hkey Hq1 Hname Hq2 Hnb.
    pose proof (match_csp_meta_at opening a key q1 name q2 b rest
                  Hopen Ha Hna Hkey Hq1 Hname Hq2 Hnb) as Hm.
    set (tag := opening ++ a ++ key ++ String q1 (name ++ String q2 (b ++ ">"))).
    assert (Hs : opening ++ a ++ key ++ String q1 (name ++ String q2 (b ++ String ">" rest))
                 = tag ++ rest).
    { unfold tag. rewrite !append_assoc. cbn [String.append]. rewrite !append_assoc.
      cbn [String.append]. rewrite append_assoc. reflexivity. }
    assert (Hlast : forall before, last_unit tag before = Some ">"%char).
    { intros before. unfold tag. rewrite !last_unit_app. cbn [last_unit].
      rewrite last_unit_app. cbn [last_unit]. now rewrite last_unit_app. }
    rewrite Hs in Hm |- *.
    destruct tag as [|c t'] eqn:Et.
    + specialize (Hlast None). discriminate Hlast.
    + cbn [String.append replace_all]. unfold csp_meta_rule at 1.
      change (String c (t' ++ rest)) with (String c t' ++ rest). rewrite Hm.
      rewrite length_app, Nat.add_sub. cbn [String.length String.append].
      rewrite Nat.sub_1_r. cbn [Nat.pred].
      rewrite replace_all_skip. f_equal.
      change (last_unit t' (Some c)) with (last_unit (String c t') None). apply Hlast.
Qed.

Lemma html_branch_removes_csp_meta_witness :
  html_reply "<p>a</p><META content='x' HTTP-EQUIV='content-security-policy'><p>b</p>"
  = Text "<p>a</p><p>b</p>".
Proof.
  exact (proj1
    (html_branch_removes_csp_meta
       (sample_platform
          "<p>a</p><META content='x' HTTP-EQUIV='content-security-policy'><p>b</p>")
       (request_for (Some "http://example.com/")) "http://example.com/" example_target
       {| up_status := 200; up_headers := [("content-type", "text/html")];
          up_body := "<p>a</p><META content='x' HTTP-EQUIV='content-security-policy'><p>b</p>" |}
       eq_refl ltac:(discriminate) eq_refl eq_refl eq_refl eq_refl eq_refl)).
Defined.

Lemma monitor_never_records_history_witness :
  entries
    (snd (Browser.updateUrlAndTitle (fun u => u) "tab-1" (Some ("c.example", "C"))
            Browser.new_monitor (Browser.manager two_visits))) "tab-1"
  = ["a.example"; "b.example"] /\
  JsMap.get
    (tabs (snd (Browser.updateUrlAndTitle (fun u => u) "tab-1" (Some ("c.example", "C"))
                  Browser.new_monitor (Browser.manager two_visits)))) "tab-1"
  = Some {| element := Some "tab-1"; content := Some "tab-tab-1"; title := "C";
            url := Some "c.example"; loading := true |}.
Proof.
  pose proof (proj2 (proj2 (monitor_never_records_history (fun u => u) "tab-1"
                              (Some ("c.example", "C")) Browser.new_monitor
                              (Browser.manager two_visits)))) as H.
  assert (Hneq : "c.example" <> "") by discriminate.
  assert (G : JsMap.get (tabs (Browser.manager two_visits)) "tab-1"
              = Some {| element := Some "tab-1"; content := Some "tab-tab-1";
                        title := "Loading..."; url := Some "b.example"; loading := true |})
    by (vm_compute; reflexivity).
  pose proof (H "c.example" "C" _ "tab-1" eq_refl (or_introl Hneq) G eq_refl) as H1.
  destruct H1 as [_ H1].
  split; [vm_compute; reflexivity | exact H1].
Defined.


(** *** The histories keep step with the waiting navigations *)

























